(** * Session and synchronization protocol of the peer-to-peer chat room

    A shallow embedding of [src/App.tsx] (the [Room] component), of the
    send path of [src/components/Chat.tsx] and of the assistant service
    ([generateAIResponse]).

    The browser process is a [World]: the React state of [Room], its refs,
    and the connection objects handed over by the transport with their
    [open] flags and listeners.  Every handler of the source is a function
    on worlds; what a handler sends or schedules is appended to the [outbox]
    of the world, in program order.

    Conventions of the embedding:
    - the functional state updaters ([setMessages(prev => ...)]) are applied
      in the order in which the source queues them; the one handler that
      reads a variable its updater assigns ([handleReaction]) is given the
      moment at which React runs the updater ([UpdaterRun]);
    - a listener reads the [participants] binding of the render it was
      created in; that binding is the parameter [scope].  The mount effect
      of [Room] creates the handlers once, in the first render, where the
      binding is the initial state ([initialParticipants]);
    - what [peer.destroy()] does to the connections is the transport's
      business: it is the effect [PeerDestroy], and the close events that
      may follow are events like any other;
    - peer ids are neither array indices nor names of [Object.prototype], so
      that the registry object keeps its keys in insertion order. *)

From Stdlib Require Import String Ascii List Bool Arith Lia.
From stdpp Require Import base decidable gmap strings list.
Import ListNotations.

Open Scope string_scope.
Open Scope list_scope.

(** ** Data model ([types.ts]) *)

Inductive UserRole := HOST | MANAGER | GUEST.
Inductive MessageType := USER | SYSTEM | AI.

Definition role_eqb (a b : UserRole) : bool :=
  match a, b with
  | HOST, HOST | MANAGER, MANAGER | GUEST, GUEST => true
  | _, _ => false
  end.

(** [interface Reaction]. *)
Record Reaction := mkReaction {
  emoji : string;
  senderId : string;
  senderName : string }.

(** [interface ChatMessage]; the fields [id], [senderId], [senderName] and
    [type] carry the prefix [msg_].  A missing [reactions] field
    ([msg.reactions || []]) is the empty list. *)
Record ChatMessage := mkMessage {
  msg_id : string;
  msg_senderId : string;
  msg_senderName : string;
  text : string;
  timestamp : nat;
  msg_type : MessageType;
  reactions : list Reaction }.

(** [interface Participant]; [id] is [pid]. *)
Record Participant := mkParticipant {
  pid : string;
  name : string;
  role : UserRole;
  isHostFlag : bool }.

(** [{ ...msg, reactions: newReactions }] *)
Definition with_reactions (msg : ChatMessage) (rs : list Reaction) : ChatMessage :=
  mkMessage (msg_id msg) (msg_senderId msg) (msg_senderName msg) (text msg)
            (timestamp msg) (msg_type msg) rs.

(** [{ ...p, role }] and [{ ...p, role, isHost: role === UserRole.HOST }] *)
Definition with_role (p : Participant) (r : UserRole) : Participant :=
  mkParticipant (pid p) (name p) r (isHostFlag p).

Definition with_role_host (p : Participant) (r : UserRole) : Participant :=
  mkParticipant (pid p) (name p) r (role_eqb r HOST).

(** ** Protocol messages *)

(** Payload of [REACTION]; [action] comes off the wire, so it is a string:
    the receiver only asks whether it is ['remove']. *)
Record ReactionPayload := mkReactionPayload {
  rp_messageId : string;
  rp_emoji : string;
  rp_senderId : string;
  rp_senderName : string;
  rp_action : string }.

Record AdminPayload := mkAdminPayload {
  action : string;
  targetId : string }.

(** A received [data] object, by its [type] tag.  [KICKED] carries
    [data.reason], which may be missing; [OTHER] is any other tag. *)
Inductive Data :=
| CHAT (payload : ChatMessage)
| SYNC_PARTICIPANTS (payload : list Participant)
| REACTION (payload : ReactionPayload)
| TYPING (userId : string) (isTyping : bool)
| KICKED (reason : option string)
| ADMIN_REQUEST (payload : AdminPayload)
| OTHER.

(** ** The Message Log *)

(** The reaction predicate of both handlers:
    [r.senderId === senderId && r.emoji === emoji]. *)
Definition same_reaction (sid em : string) (r : Reaction) : bool :=
  String.eqb (senderId r) sid && String.eqb (emoji r) em.

(** The [setMessages] updater of the [CHAT] branch of the data handler:
    [if (prev.some(m => m.id === message.id)) return prev;
     return [...prev, message];] *)
Definition receiveChat (message : ChatMessage) (prev : list ChatMessage)
  : list ChatMessage :=
  if existsb (fun m => String.eqb (msg_id m) (msg_id message)) prev
  then prev
  else prev ++ [message].

(** The [setMessages] updater of [sendMessage]: [[...prev, newMessage]]. *)
Definition appendLocal (newMessage : ChatMessage) (prev : list ChatMessage)
  : list ChatMessage :=
  prev ++ [newMessage].

(** The reaction list computed by the [REACTION] branch of the data handler
    for a message whose id matches. *)
Definition receiveReactionList (p : ReactionPayload) (rs : list Reaction)
  : list Reaction :=
  if String.eqb (rp_action p) "remove"
  then List.filter (fun r => negb (same_reaction (rp_senderId p) (rp_emoji p) r)) rs
  else if existsb (same_reaction (rp_senderId p) (rp_emoji p)) rs
       then rs
       else rs ++ [mkReaction (rp_emoji p) (rp_senderId p) (rp_senderName p)].

(** The [setMessages] updater of the [REACTION] branch. *)
Definition receiveReaction (p : ReactionPayload) (prev : list ChatMessage)
  : list ChatMessage :=
  List.map (fun msg =>
              if String.eqb (msg_id msg) (rp_messageId p)
              then with_reactions msg (receiveReactionList p (reactions msg))
              else msg) prev.

(** The resolved action of the local toggle. *)
Inductive ToggleAction := add | remove.

Definition action_string (a : ToggleAction) : string :=
  match a with add => "add" | remove => "remove" end.

(** One step of the [prev.map] callback of [handleReaction]: the variable
    [action] is threaded through the callback, which assigns it at every
    message whose id matches. *)
Definition toggleOne (messageId em peerId sName : string)
  (st : ToggleAction) (msg : ChatMessage) : ToggleAction * ChatMessage :=
  if String.eqb (msg_id msg) messageId then
    let hasReacted := existsb (same_reaction peerId em) (reactions msg) in
    let act := if hasReacted then remove else add in
    let newReactions :=
      match act with
      | remove => List.filter (fun r => negb (same_reaction peerId em r)) (reactions msg)
      | add => reactions msg ++ [mkReaction em peerId sName]
      end in
    (act, with_reactions msg newReactions)
  else (st, msg).

(** The whole updater of [handleReaction], from the initial [action = 'add']:
    the final value of [action] and the new log. *)
Fixpoint toggleFrom (messageId em peerId sName : string)
  (st : ToggleAction) (prev : list ChatMessage)
  : ToggleAction * list ChatMessage :=
  match prev with
  | [] => (st, [])
  | msg :: rest =>
      let '(st1, msg') := toggleOne messageId em peerId sName st msg in
      let '(st2, rest') := toggleFrom messageId em peerId sName st1 rest in
      (st2, msg' :: rest')
  end.

Definition toggleReaction (messageId em peerId sName : string)
  (prev : list ChatMessage) : ToggleAction * list ChatMessage :=
  toggleFrom messageId em peerId sName add prev.

(** ** Connections, effects and the world *)

(** A connection object of the transport: [connId] is the identity of the
    object, [peer] its immutable [conn.peer].  Its mutable [conn.open] flag
    lives in the world ([linkOpen]), so that the registry and the handlers
    see one flag per object. *)
Record Conn := mkConn {
  connId : nat;
  peer : string }.

(** What [setTimeout] is given in the source. *)
Inductive Task :=
| CloseConn (c : Conn)
| RunBroadcastParticipantList.

(** What a handler does to the outside: [conn.send(data)],
    [setTimeout(task, ms)] and [peerInstance.current.destroy()]. *)
Inductive Effect :=
| Send (c : Conn) (d : Data)
| SetTimeout (t : Task) (ms : nat)
| PeerDestroy.

(** The listeners [handleDataConnection] attaches to a connection: only the
    rejecting ['open'] listener for a banned peer, or the four listeners of
    an admitted one.  [scope] is the [participants] binding of the render
    whose closure the listeners belong to; [handleAdminRequest] reads it. *)
Inductive Listeners :=
| Rejecting
| Serving (scope : list Participant).

(** The state of one browser process.  [peerInstance] is
    [peerInstance.current]: [None] for [null], [Some None] for a peer that
    has no id yet.  [connectionsRef] is the object used as a map, in key
    insertion order (peer ids are not array indices). *)
Record World := mkWorld {
  hostPeerId : string;
  peerInstance : option (option string);
  connectionsRef : list (string * Conn);
  bannedPeersRef : gset string;
  linkOpen : gset nat;
  listeners : gmap nat (list Listeners);
  messages : list ChatMessage;
  participants : list Participant;
  typingUsers : gset string;
  kickReason : option string;
  peerId : string;
  isHost : bool;
  outbox : list Effect }.

(** The state setters: [upd_x f] applies [f] to the field [x]. *)
Definition upd_peerInstance (f : option (option string) -> option (option string))
  (w : World) : World :=
  mkWorld (hostPeerId w) (f (peerInstance w)) (connectionsRef w)
          (bannedPeersRef w) (linkOpen w) (listeners w)
          (messages w) (participants w) (typingUsers w)
          (kickReason w) (peerId w) (isHost w) (outbox w).

Definition upd_connectionsRef (f : list (string * Conn) -> list (string * Conn))
  (w : World) : World :=
  mkWorld (hostPeerId w) (peerInstance w) (f (connectionsRef w))
          (bannedPeersRef w) (linkOpen w) (listeners w)
          (messages w) (participants w) (typingUsers w)
          (kickReason w) (peerId w) (isHost w) (outbox w).

Definition upd_bannedPeersRef (f : gset string -> gset string)
  (w : World) : World :=
  mkWorld (hostPeerId w) (peerInstance w) (connectionsRef w)
          (f (bannedPeersRef w)) (linkOpen w) (listeners w)
          (messages w) (participants w) (typingUsers w)
          (kickReason w) (peerId w) (isHost w) (outbox w).

Definition upd_linkOpen (f : gset nat -> gset nat)
  (w : World) : World :=
  mkWorld (hostPeerId w) (peerInstance w) (connectionsRef w)
          (bannedPeersRef w) (f (linkOpen w)) (listeners w)
          (messages w) (participants w) (typingUsers w)
          (kickReason w) (peerId w) (isHost w) (outbox w).

Definition upd_listeners (f : gmap nat (list Listeners) -> gmap nat (list Listeners))
  (w : World) : World :=
  mkWorld (hostPeerId w) (peerInstance w) (connectionsRef w)
          (bannedPeersRef w) (linkOpen w) (f (listeners w))
          (messages w) (participants w) (typingUsers w)
          (kickReason w) (peerId w) (isHost w) (outbox w).

Definition upd_messages (f : list ChatMessage -> list ChatMessage)
  (w : World) : World :=
  mkWorld (hostPeerId w) (peerInstance w) (connectionsRef w)
          (bannedPeersRef w) (linkOpen w) (listeners w)
          (f (messages w)) (participants w) (typingUsers w)
          (kickReason w) (peerId w) (isHost w) (outbox w).

Definition upd_participants (f : list Participant -> list Participant)
  (w : World) : World :=
  mkWorld (hostPeerId w) (peerInstance w) (connectionsRef w)
          (bannedPeersRef w) (linkOpen w) (listeners w)
          (messages w) (f (participants w)) (typingUsers w)
          (kickReason w) (peerId w) (isHost w) (outbox w).

Definition upd_typingUsers (f : gset string -> gset string)
  (w : World) : World :=
  mkWorld (hostPeerId w) (peerInstance w) (connectionsRef w)
          (bannedPeersRef w) (linkOpen w) (listeners w)
          (messages w) (participants w) (f (typingUsers w))
          (kickReason w) (peerId w) (isHost w) (outbox w).

Definition upd_kickReason (f : option string -> option string)
  (w : World) : World :=
  mkWorld (hostPeerId w) (peerInstance w) (connectionsRef w)
          (bannedPeersRef w) (linkOpen w) (listeners w)
          (messages w) (participants w) (typingUsers w)
          (f (kickReason w)) (peerId w) (isHost w) (outbox w).

Definition upd_outbox (f : list Effect -> list Effect)
  (w : World) : World :=
  mkWorld (hostPeerId w) (peerInstance w) (connectionsRef w)
          (bannedPeersRef w) (linkOpen w) (listeners w)
          (messages w) (participants w) (typingUsers w)
          (kickReason w) (peerId w) (isHost w) (f (outbox w)).

(** [{}] used as a map: assignment keeps the place of an existing key and
    appends a new one; [Object.keys] and [Object.values] follow that order. *)
Fixpoint obj_set {A} (k : string) (v : A) (o : list (string * A))
  : list (string * A) :=
  match o with
  | [] => [(k, v)]
  | (k', v') :: rest =>
      if String.eqb k' k then (k, v) :: rest else (k', v') :: obj_set k v rest
  end.

Fixpoint obj_get {A} (k : string) (o : list (string * A)) : option A :=
  match o with
  | [] => None
  | (k', v') :: rest => if String.eqb k' k then Some v' else obj_get k rest
  end.

Definition obj_delete {A} (k : string) (o : list (string * A))
  : list (string * A) :=
  List.filter (fun kv => negb (String.eqb (fst kv) k)) o.

Definition obj_keys {A} (o : list (string * A)) : list string := List.map fst o.
Definition obj_values {A} (o : list (string * A)) : list A := List.map snd o.

(** [peerInstance.current?.id] *)
Definition myId (w : World) : option string :=
  match peerInstance w with
  | Some (Some i) => Some i
  | _ => None
  end.

(** [peerInstance.current?.id === hostPeerId] *)
Definition amHost (w : World) : bool :=
  match myId w with
  | Some i => String.eqb i (hostPeerId w)
  | None => false
  end.

(** [conn.open] *)
Definition conn_open (w : World) (c : Conn) : bool :=
  bool_decide (connId c ∈ linkOpen w).

Definition push (es : list Effect) (w : World) : World :=
  upd_outbox (fun o => o ++ es) w.

(** [conn.on(...)]: one more set of listeners on the connection object. *)
Definition attach (c : Conn) (l : Listeners) (w : World) : World :=
  upd_listeners
    (fun m => <[connId c := default [] (m !! connId c) ++ [l]]> m) w.

(** ** Cleanup *)

Definition cleanup (w : World) : World :=
  let w1 := match peerInstance w with
            | Some _ => upd_peerInstance (fun _ => None) (push [PeerDestroy] w)
            | None => w
            end in
  upd_bannedPeersRef (fun _ => ∅)
    (upd_typingUsers (fun _ => ∅)
       (upd_participants (fun _ => [])
          (upd_messages (fun _ => [])
             (upd_connectionsRef (fun _ => []) w1)))).

(** ** Participation logic *)

Definition has_pid (i : string) (p : Participant) : bool := String.eqb (pid p) i.

(** [`User ${id.substring(0, 4)}`] *)
Definition userName (i : string) : string :=
  String.append "User " (substring 0 4 i).

Definition addParticipantList (i : string) (r : UserRole)
  (prev : list Participant) : list Participant :=
  match List.find (has_pid i) prev with
  | Some existing =>
      if negb (role_eqb (role existing) r)
      then List.map (fun p => if has_pid i p then with_role_host p r else p) prev
      else prev
  | None =>
      let nm := match r with HOST => "Host" | _ => userName i end in
      prev ++ [mkParticipant i nm r (role_eqb r HOST)]
  end.

Definition addParticipant (i : string) (r : UserRole) (w : World) : World :=
  upd_participants (addParticipantList i r) w.

Definition removeParticipant (i : string) (w : World) : World :=
  upd_typingUsers (fun prev => prev ∖ {[i]})
    (upd_participants (List.filter (fun p => negb (has_pid i p))) w).

(** ** Host broadcast logic *)

Definition fallbackParticipant (cid : string) : Participant :=
  mkParticipant cid (userName cid) GUEST false.

(** The body of [connectedIds.forEach] in [broadcastParticipantList]. *)
Definition pushFallback (updatedList : list Participant) (cid : string)
  : list Participant :=
  if existsb (has_pid cid) updatedList
  then updatedList
  else updatedList ++ [fallbackParticipant cid].

(** [updatedList] of [broadcastParticipantList]. *)
Definition reconcile (me : string) (connectedIds : list string)
  (currentList : list Participant) : list Participant :=
  let activeIds := me :: connectedIds in
  let updatedList :=
    List.filter (fun p => existsb (String.eqb (pid p)) activeIds) currentList in
  fold_left pushFallback connectedIds updatedList.

(** [Object.values(connectionsRef.current).forEach(conn => ...)] with the
    guard of the loop body as [keep]. *)
Definition sendAll (w : World) (keep : Conn -> bool) (d : Data) : list Effect :=
  List.map (fun c => Send c d)
           (List.filter keep (obj_values (connectionsRef w))).

(** [const myId = peerInstance.current?.id; if (!myId) return;]: a missing
    id and the empty string are both falsy. *)
Definition broadcastParticipantList (w : World) : World :=
  match myId w with
  | None | Some EmptyString => w
  | Some me =>
      let updatedList :=
        reconcile me (obj_keys (connectionsRef w)) (participants w) in
      push (sendAll w (conn_open w) (SYNC_PARTICIPANTS updatedList))
           (upd_participants (fun _ => updatedList) w)
  end.

Definition broadcastData (d : Data) (excludePeerId : option string)
  (w : World) : World :=
  push (sendAll w (fun c => conn_open w c &&
                            negb (match excludePeerId with
                                  | Some x => String.eqb (peer c) x
                                  | None => false
                                  end)) d) w.

(** ** Admin actions (Host logic) *)

Definition kickEffects (c : Conn) (reason : string) : list Effect :=
  [Send c (KICKED (Some reason)); SetTimeout (CloseConn c) 500].

(** [if (conn && conn.open) { conn.send(KICKED); setTimeout(close, 500) }] *)
Definition kickIfOpen (conn : option Conn) (reason : string) (w : World)
  : World :=
  match conn with
  | Some c => if conn_open w c then push (kickEffects c reason) w else w
  | None => w
  end.

Definition setRole (targetId : string) (r : UserRole)
  (prev : list Participant) : list Participant :=
  List.map (fun p => if has_pid targetId p then with_role p r else p) prev.

Definition executeAdminAction (action targetId : string) (w : World) : World :=
  if negb (amHost w) then w
  else
    let conn := obj_get targetId (connectionsRef w) in
    if String.eqb action "PROMOTE" then
      push [SetTimeout RunBroadcastParticipantList 0]
           (upd_participants (setRole targetId MANAGER) w)
    else if String.eqb action "DEMOTE" then
      push [SetTimeout RunBroadcastParticipantList 0]
           (upd_participants (setRole targetId GUEST) w)
    else if String.eqb action "KICK" then
      kickIfOpen conn "You have been kicked by an admin." w
    else if String.eqb action "BAN" then
      kickIfOpen conn "You have been banned from this room."
                 (upd_bannedPeersRef (fun s => s ∪ {[targetId]}) w)
    else w.

(** [handleAdminRequest], reading the [participants] binding of its closure.
    [None] is one of the early [return]s; [Some w'] is the world after the
    call of [executeAdminAction] on the last line. *)
Definition handleAdminRequest (participants : list Participant)
  (payload : AdminPayload) (requesterId : string) (w : World) : option World :=
  match List.find (has_pid requesterId) participants with
  | None => None
  | Some requester =>
      if negb (role_eqb (role requester) MANAGER) &&
         negb (role_eqb (role requester) HOST)
      then None
      else
        match List.find (has_pid (targetId payload)) participants with
        | None => None
        | Some target =>
            if role_eqb (role target) HOST then None
            else if role_eqb (role requester) MANAGER &&
                    role_eqb (role target) MANAGER
            then None
            else Some (executeAdminAction (action payload) (targetId payload) w)
        end
  end.

(** ** Connection handling *)

Definition bannedReason : string := "You are banned from this room.".

(** [handleDataConnection], called with the render scope it closes over. *)
Definition handleDataConnection (scope : list Participant) (conn : Conn)
  (w : World) : World :=
  if amHost w && bool_decide (peer conn ∈ bannedPeersRef w)
  then attach conn Rejecting w
  else attach conn (Serving scope)
              (upd_connectionsRef (obj_set (peer conn) conn) w).

(** The ['open'] listener attached for a banned peer. *)
Definition on_open_banned (conn : Conn) (w : World) : World :=
  push (kickEffects conn bannedReason) w.

(** The ['open'] listener of an admitted connection. *)
Definition on_open (conn : Conn) (w : World) : World :=
  let isRemoteHost := String.eqb (peer conn) (hostPeerId w) in
  let w1 := addParticipant (peer conn) (if isRemoteHost then HOST else GUEST) w in
  if amHost w1 then broadcastParticipantList w1 else w1.

(** [data.reason || 'You have been kicked.'] *)
Definition reasonOrDefault (reason : option string) : string :=
  match reason with
  | Some EmptyString | None => "You have been kicked."
  | Some r => r
  end.

Definition relayIfHost (d : Data) (conn : Conn) (w : World) : World :=
  if amHost w then broadcastData d (Some (peer conn)) w else w.

(** The ['data'] listener of an admitted connection. *)
Definition on_data (scope : list Participant) (conn : Conn) (d : Data)
  (w : World) : World :=
  match d with
  | CHAT message =>
      relayIfHost d conn (upd_messages (receiveChat message) w)
  | SYNC_PARTICIPANTS payload =>
      upd_participants (fun _ => payload) w
  | REACTION payload =>
      relayIfHost d conn (upd_messages (receiveReaction payload) w)
  | TYPING userId isTyping =>
      relayIfHost d conn
        (upd_typingUsers (fun prev => if isTyping then prev ∪ {[userId]}
                                      else prev ∖ {[userId]}) w)
  | KICKED reason =>
      cleanup (upd_kickReason (fun _ => Some (reasonOrDefault reason)) w)
  | ADMIN_REQUEST payload =>
      if amHost w
      then match handleAdminRequest scope payload (peer conn) w with
           | Some w' => w'
           | None => w
           end
      else w
  | OTHER => w
  end.

(** The ['close'] listener of an admitted connection. *)
Definition on_close (conn : Conn) (w : World) : World :=
  let w1 := upd_connectionsRef (obj_delete (peer conn)) w in
  if amHost w1 then broadcastParticipantList w1 else removeParticipant (peer conn) w1.

(** ** UI triggers *)

Definition triggerAction (action targetId : string) (w : World) : World :=
  if isHost w then executeAdminAction action targetId w
  else
    match obj_get (hostPeerId w) (connectionsRef w) with
    | Some hostConn =>
        if conn_open w hostConn
        then push [Send hostConn (ADMIN_REQUEST (mkAdminPayload action targetId))] w
        else w
    | None => w
    end.

Definition myEntry (w : World) : option Participant :=
  List.find (has_pid (peerId w)) (participants w).

(** [me ? me.name : dflt] with [me = participants.find(p => p.id === peerId)] *)
Definition nameOr (dflt : string) (w : World) : string :=
  match myEntry w with
  | Some me => name me
  | None => dflt
  end.

(** [sendMessage]; [uuid] is the value of [uuidv4()] and [now] the value of
    [Date.now()] at the call. *)
Definition sendMessage (uuid : string) (now : nat) (txt : string)
  (type : MessageType) (w : World) : World :=
  let myName := nameOr (if isHost w then "Host" else "User") w in
  let newMessage :=
    mkMessage uuid (peerId w)
              (match type with AI => "Gemini" | _ => myName end)
              txt now type [] in
  broadcastData (CHAT newMessage) None (upd_messages (appendLocal newMessage) w).

Definition handleTyping (isTyping : bool) (w : World) : World :=
  broadcastData (TYPING (peerId w) isTyping) None w.

(** When React runs the updater that a handler passes to [setMessages]:
    inside the call, which it does when the component has no update pending,
    or at the next render, after the handler has returned. *)
Inductive UpdaterRun := DuringCall | AtRender.

(** [handleReaction].  The updater computes the new log and assigns the
    variable [action], declared as ['add']; [broadcastData] reads [action]
    in the statement after [setMessages], so it reads the assigned value
    only if the updater has run by then. *)
Definition handleReaction (updater : UpdaterRun) (messageId em : string)
  (w : World) : World :=
  let sName := nameOr "User" w in
  let '(act, log) := toggleReaction messageId em (peerId w) sName (messages w) in
  let action := match updater with
                | DuringCall => act
                | AtRender => add
                end in
  broadcastData
    (REACTION (mkReactionPayload messageId em (peerId w) sName
                                 (action_string action)))
    None (upd_messages (fun _ => log) w).

(** ** The event loop *)

(** What can happen to a process.  The transport hands over a connection
    ([Connection]: ['connection'] on the peer, or [connectToHost]), opens or
    closes it, or delivers data on it; a timer fires; the user acts. *)
Inductive Event :=
| Connection (scope : list Participant) (c : Conn)
| LinkOpen (c : Conn)
| LinkData (c : Conn) (d : Data)
| LinkClose (c : Conn)
| TimerFires (t : Task)
| UiTrigger (action targetId : string)
| UiSend (uuid : string) (now : nat) (txt : string) (type : MessageType)
| UiReact (updater : UpdaterRun) (messageId em : string)
| UiTyping (isTyping : bool).

(** What one set of listeners does with an event of its connection. *)
Inductive LinkEvent := EvOpen | EvData (d : Data) | EvClose.

Definition listen (c : Conn) (e : LinkEvent) (w : World) (l : Listeners)
  : World :=
  match l, e with
  | Rejecting, EvOpen => on_open_banned c w
  | Rejecting, _ => w
  | Serving _, EvOpen => on_open c w
  | Serving scope, EvData d => on_data scope c d w
  | Serving _, EvClose => on_close c w
  end.

(** [conn.emit(e)]: the listeners attached to [c] run in order. *)
Definition emit (c : Conn) (e : LinkEvent) (w : World) : World :=
  fold_left (listen c e) (default [] (listeners w !! connId c)) w.

(** The transport flips [conn.open] before it emits. *)
Definition closeLink (c : Conn) (w : World) : World :=
  emit c EvClose (upd_linkOpen (fun s => s ∖ {[connId c]}) w).

Definition runTask (t : Task) (w : World) : World :=
  match t with
  | CloseConn c => closeLink c w
  | RunBroadcastParticipantList => broadcastParticipantList w
  end.

Definition step (w : World) (ev : Event) : World :=
  match ev with
  | Connection scope c => handleDataConnection scope c w
  | LinkOpen c => emit c EvOpen (upd_linkOpen (fun s => s ∪ {[connId c]}) w)
  | LinkData c d => emit c (EvData d) w
  | LinkClose c => closeLink c w
  | TimerFires t => runTask t w
  | UiTrigger action targetId => triggerAction action targetId w
  | UiSend uuid now txt type => sendMessage uuid now txt type w
  | UiReact updater messageId em => handleReaction updater messageId em w
  | UiTyping isTyping => handleTyping isTyping w
  end.

Definition run (w : World) (evs : list Event) : World := fold_left step evs w.

(** ** The assistant service and the send path of the chat view

    A string is its sequence of character codes below 256. *)

Definition isWhiteSpace (a : ascii) : bool :=
  let n := nat_of_ascii a in
  ((9 <=? n) && (n <=? 13) || (n =? 32) || (n =? 160))%nat.

Fixpoint trimStart (s : string) : string :=
  match s with
  | String a rest => if isWhiteSpace a then trimStart rest else s
  | EmptyString => EmptyString
  end.

Definition reverse (s : string) : string :=
  string_of_list_ascii (List.rev (list_ascii_of_string s)).

Definition trim (s : string) : string :=
  reverse (trimStart (reverse (trimStart s))).

Definition lowerChar (a : ascii) : ascii :=
  let n := nat_of_ascii a in
  if ((65 <=? n) && (n <=? 90) ||
      (192 <=? n) && (n <=? 222) && negb (n =? 215))%nat
  then ascii_of_nat (n + 32)
  else a.

Fixpoint toLowerCase (s : string) : string :=
  match s with
  | String a rest => String (lowerChar a) (toLowerCase rest)
  | EmptyString => EmptyString
  end.

Definition startsWith (s p : string) : bool := String.prefix p s.

Fixpoint includes (s p : string) : bool :=
  String.prefix p s ||
  match s with
  | String _ rest => includes rest p
  | EmptyString => false
  end.

Definition nl : string := String (ascii_of_nat 10) EmptyString.

(** [xs.join("\n")] *)
Fixpoint join (sep : string) (xs : list string) : string :=
  match xs with
  | [] => EmptyString
  | [x] => x
  | x :: rest => String.append x (String.append sep (join sep rest))
  end.

(** What [ai.models.generateContent] does: it throws (or its promise
    rejects), or it resolves to a response whose [text] may be missing. *)
Inductive GenerateContent :=
| Throws
| Responds (responseText : option string).

(** How an awaited call completes. *)
Inductive Completion (A : Type) :=
| Returns (a : A)
| Raises.
Arguments Returns {A} a.
Arguments Raises {A}.

Definition buildPrompt (currentMessage : string) (history : list ChatMessage)
  : string :=
  let context :=
    join nl (List.map (fun msg => String.append (msg_senderName msg)
                                    (String.append ": " (text msg))) history) in
  join nl
    [ "";
      "      You are a helpful, friendly AI assistant participating in a group chat. ";
      "      Use the following conversation context to answer the user's request briefly and naturally.";
      "      ";
      "      CONTEXT:";
      String.append "      " context;
      "      ";
      "      USER REQUEST:";
      String.append "      " currentMessage;
      "      ";
      "      RESPONSE (Keep it under 100 words):";
      "    " ].

Definition apology : string :=
  "Sorry, I'm having trouble connecting to the AI right now.".

(** [generateAIResponse]; [model] is the external generative model, asked
    with the prompt.  The whole body is inside [try], whose [catch] returns
    the apology. *)
Definition generateAIResponse (model : string -> GenerateContent)
  (currentMessage : string) (history : list ChatMessage) : Completion string :=
  match model (buildPrompt currentMessage history) with
  | Responds (Some (String a rest)) => Returns (String a rest)
  | Responds _ => Returns "I couldn't generate a response."
  | Throws => Returns apology
  end.

(** The calls [handleSend] makes on the props of the chat view. *)
Inductive ChatCall :=
| OnTyping (isTyping : bool)
| OnSendMessage (txt : string) (type : MessageType).

Definition invokesAI (txt : string) : bool :=
  startsWith (toLowerCase txt) "@ai" || includes (toLowerCase txt) "gemini".

(** [handleSend]: [typingPending] says whether [typingTimeoutRef.current]
    holds a timer; [messages] is the [messages] prop of the render. *)
Definition handleSend (model : string -> GenerateContent)
  (inputValue : string) (typingPending : bool) (messages : list ChatMessage)
  : list ChatCall :=
  match trim inputValue with
  | EmptyString => []
  | txt =>
      (if typingPending then [OnTyping false] else []) ++
      [OnSendMessage txt USER] ++
      (if invokesAI txt
       then match generateAIResponse model txt messages with
            | Returns response => [OnSendMessage response AI]
            | Raises => [OnSendMessage "I had a glitch." SYSTEM]
            end
       else [])
  end.

(** The props are [sendMessage] and [handleTyping] of the room: the calls of
    the chat view applied to the world, each [sendMessage] drawing its
    [uuidv4()] and [Date.now()] from [fresh]. *)
Fixpoint performCalls (calls : list ChatCall) (fresh : list (string * nat))
  (w : World) : World :=
  match calls with
  | [] => w
  | OnTyping b :: rest => performCalls rest fresh (handleTyping b w)
  | OnSendMessage txt type :: rest =>
      match fresh with
      | (uuid, now) :: fresh' =>
          performCalls rest fresh' (sendMessage uuid now txt type w)
      | [] => w
      end
  end.

(** ** Vocabulary of the properties *)

Definition reactionKey (r : Reaction) : string * string := (senderId r, emoji r).

(** Invariant I3 on one reaction list and on the log. *)
Definition distinctReactions (rs : list Reaction) : Prop :=
  List.NoDup (List.map reactionKey rs).

Definition I3 (log : list ChatMessage) : Prop :=
  Forall (fun m => distinctReactions (reactions m)) log.

(** What the [map] callback of [handleReaction] makes of one message. *)
Definition toggleMsg (messageId em sid sName : string) (msg : ChatMessage)
  : ChatMessage :=
  snd (toggleOne messageId em sid sName add msg).

(** The sender's reaction to [em] is on the message whose id is [messageId]. *)
Definition hadReaction (log : list ChatMessage) (messageId sid em : string)
  : Prop :=
  exists m, In m log /\ msg_id m = messageId /\
            In (sid, em) (List.map reactionKey (reactions m)).

(** What two toggles in a row make of one message: nothing, unless it is the
    addressed message and the sender's reaction was on it; then that entry
    leaves its place and a new one stands at the end. *)
Definition toggledTwice (messageId em sid sName : string) (msg : ChatMessage)
  : ChatMessage :=
  if String.eqb (msg_id msg) messageId &&
     existsb (same_reaction sid em) (reactions msg)
  then with_reactions msg
         (List.filter (fun r => negb (same_reaction sid em r)) (reactions msg)
          ++ [mkReaction em sid sName])
  else msg.

(** ** Sample sessions *)

Definition roomHost : string := "gemini-chat-host-ABC234".

(** A Host that has just bound its identity. *)
Definition hostWorld : World :=
  mkWorld roomHost (Some (Some roomHost)) [] ∅ ∅ ∅ []
          [mkParticipant roomHost "Host" HOST true] ∅ None roomHost true [].

(** A Guest, before its link to the Host exists. *)
Definition guestWorld : World :=
  mkWorld roomHost (Some (Some "bob0-77")) [] ∅ ∅ ∅ []
          [mkParticipant "bob0-77" "User bob0" GUEST false] ∅ None "bob0-77"
          false [].

Definition thumbsOfBob : Reaction := mkReaction "+1" "bob0-77" "User bob0".
Definition heartOfAnn : Reaction := mkReaction "<3" "ann0-12" "User ann0".

Definition helloMessage (rs : list Reaction) : ChatMessage :=
  mkMessage "m1" "ann0-12" "User ann0" "hello" 10 USER rs.

(** The Guest with one message in its log, carrying the reactions [rs]. *)
Definition guestWith (rs : list Reaction) : World :=
  upd_messages (fun _ => [helloMessage rs]) guestWorld.

(** ** Vocabulary of the moderation and relay properties *)

(** The role a directory gives to an identity. *)
Definition lookupRole (directory : list Participant) (i : string)
  : option UserRole :=
  option_map role (List.find (has_pid i) directory).

(** The four checks on a request of [requesterId] against [target]. *)
Definition authorized (directory : list Participant)
  (requesterId target : string) : Prop :=
  exists rr rt,
    lookupRole directory requesterId = Some rr /\
    (rr = MANAGER \/ rr = HOST) /\
    lookupRole directory target = Some rt /\
    rt <> HOST /\
    ~ (rr = MANAGER /\ rt = MANAGER).

(** The messages the Host relays. *)
Definition replicable (d : Data) : bool :=
  match d with
  | CHAT _ | REACTION _ | TYPING _ _ => true
  | _ => false
  end.

(** A replicable message applied to the local state. *)
Definition applyLocal (d : Data) (w : World) : World :=
  match d with
  | CHAT message => upd_messages (receiveChat message) w
  | REACTION payload => upd_messages (receiveReaction payload) w
  | TYPING userId true => upd_typingUsers (fun prev => prev ∪ {[userId]}) w
  | TYPING userId false => upd_typingUsers (fun prev => prev ∖ {[userId]}) w
  | _ => w
  end.

(** A message of kind SYSTEM. *)
Definition isSystem (m : ChatMessage) : bool :=
  match msg_type m with SYSTEM => true | _ => false end.


(** A moderated room on the Host: a manager, a second manager and a guest,
    all three with an open link. *)
Definition annConn : Conn := mkConn 1 "ann0-12".
Definition bobConn : Conn := mkConn 2 "bob0-77".
Definition cidConn : Conn := mkConn 3 "cid0-40".

Definition moderatedDirectory : list Participant :=
  [ mkParticipant roomHost "Host" HOST true;
    mkParticipant "ann0-12" "User ann0" MANAGER false;
    mkParticipant "bob0-77" "User bob0" GUEST false;
    mkParticipant "cid0-40" "User cid0" MANAGER false ].

Definition moderatedRoom : World :=
  mkWorld roomHost (Some (Some roomHost))
          [("ann0-12", annConn); ("bob0-77", bobConn); ("cid0-40", cidConn)]
          ∅ {[1; 2; 3]}
          (<[1 := [Serving []]]> (<[2 := [Serving []]]> (<[3 := [Serving []]]> ∅)))
          [] moderatedDirectory ∅ None roomHost true [].

(** ** Vocabulary of the log and ban properties *)

(** The ids of the log, in order. *)
Definition logIds (w : World) : list string := List.map msg_id (messages w).

(** Along the events [evs] from [w], every [uuidv4()] drawn by a local send
    is the id of no message that is in the log at that moment. *)
Fixpoint freshSends (w : World) (evs : list Event) : Prop :=
  match evs with
  | [] => True
  | ev :: rest =>
      match ev with
      | UiSend uuid _ _ _ => ~ In uuid (logIds w)
      | _ => True
      end /\ freshSends (step w ev) rest
  end.

(** The identity [t] is kept out: the session is gone, or this is the Host,
    [t] is banned and no connection of [t] is in the registry. *)
Definition keptOut (t : string) (w : World) : Prop :=
  peerInstance w = None \/
  (amHost w = true /\ t ∈ bannedPeersRef w /\
   ~ In t (obj_keys (connectionsRef w)) /\ t <> hostPeerId w).

(** No SYNC_PARTICIPANTS among the effects [es] lists [t]. *)
Definition neverListed (t : string) (es : list Effect) : Prop :=
  forall c l, In (Send c (SYNC_PARTICIPANTS l)) es -> ~ In t (List.map pid l).

(** From [w] to [w'] the identity [t] stays out and the outbox only grows,
    by effects that do not list [t]. *)
Definition staysOut (t : string) (w w' : World) : Prop :=
  keptOut t w' /\
  exists new, outbox w' = outbox w ++ new /\ neverListed t new.

(** A banned guest whose first link is still registered, a second link of
    the same identity, and a newcomer. *)
Definition bobAgain : Conn := mkConn 4 "bob0-77".
Definition danConn : Conn := mkConn 5 "dan0-03".

Definition bobBanned : World :=
  run hostWorld [Connection [] bobConn; LinkOpen bobConn;
                 UiTrigger "BAN" "bob0-77"].

(** The same room once the timer has closed the first link of the banned
    guest. *)
Definition bobGone : World := run bobBanned [TimerFires (CloseConn bobConn)].

(** * The rest of the room, the lobby and the chat view *)

(** ** Peer setup and what the sidebar computes *)

Definition upd_peerId (f : string -> string) (w : World) : World :=
  mkWorld (hostPeerId w) (peerInstance w) (connectionsRef w)
          (bannedPeersRef w) (linkOpen w) (listeners w)
          (messages w) (participants w) (typingUsers w)
          (kickReason w) (f (peerId w)) (isHost w) (outbox w).

Definition upd_isHost (f : bool -> bool) (w : World) : World :=
  mkWorld (hostPeerId w) (peerInstance w) (connectionsRef w)
          (bannedPeersRef w) (linkOpen w) (listeners w)
          (messages w) (participants w) (typingUsers w)
          (kickReason w) (peerId w) (f (isHost w)) (outbox w).

(** The ['open'] listener of the peer made by [setupHost]:
    [setPeerId(id); setIsHost(true); addParticipant(id, UserRole.HOST)]. *)
Definition onHostPeerOpen (i : string) (w : World) : World :=
  addParticipant i HOST (upd_isHost (fun _ => true) (upd_peerId (fun _ => i) w)).

(** The ['open'] listener of the peer made by [setupGuest]; [conn] is the
    connection [peer.connect(hostPeerId)] returns to [connectToHost]. *)
Definition onGuestPeerOpen (scope : list Participant) (i : string)
  (conn : Conn) (w : World) : World :=
  handleDataConnection scope conn
    (addParticipant i GUEST
       (upd_isHost (fun _ => false) (upd_peerId (fun _ => i) w))).

Definition getMyRole (w : World) : UserRole :=
  if isHost w then HOST
  else match myEntry w with
       | Some me => role me
       | None => GUEST
       end.



(** [getTypingNames]; [order] is the typing set in the order in which
    [typingUsers.forEach] visits it. *)
Definition getTypingNames (order : list string) (w : World) : list string :=
  List.flat_map
    (fun i => if String.eqb i (peerId w) then []
              else match List.find (has_pid i) (participants w) with
                   | Some p => [name p]
                   | None => []
                   end) order.

(** ** The lobby *)

Definition roomChars : string := "ABCDEFGHJKLMNPQRSTUVWXYZ23456789".

(** [s.charAt(i)]: the empty string when [i] is out of range. *)
Definition charAt (s : string) (i : nat) : string := substring i 1 s.

(** [generateRoomCode]; [draw k] is the value of
    [Math.floor(Math.random() * chars.length)] in round [k] of the loop. *)
Definition generateRoomCode (draw : nat -> nat) : string :=
  fold_left (fun result k => String.append result (charAt roomChars (draw k)))
            (seq 0 6) EmptyString.

(** [checkRoomExists]: the probing peer, its [resolved] flag, the value the
    promise was resolved with and the number of [peer.destroy()] calls. *)
Record Probe := mkProbe {
  resolved : bool;
  destroyed : bool;
  outcome : option bool;
  destroyCalls : nat }.

Inductive ProbeEvent :=
| ProbeOpen
| ProbeError (errType : string)
| ProbeTimeout.

Definition probeDestroy (p : Probe) : Probe :=
  mkProbe (resolved p) true (outcome p) (S (destroyCalls p)).

(** [resolve(v)]: a promise keeps the first value. *)
Definition probeResolve (v : bool) (p : Probe) : Probe :=
  mkProbe (resolved p) (destroyed p)
          (match outcome p with Some o => Some o | None => Some v end)
          (destroyCalls p).

Definition probeMark (p : Probe) : Probe :=
  mkProbe true (destroyed p) (outcome p) (destroyCalls p).

Definition probeDestroyUnlessDestroyed (p : Probe) : Probe :=
  if destroyed p then p else probeDestroy p.

Definition probeStep (p : Probe) (e : ProbeEvent) : Probe :=
  match e with
  | ProbeOpen =>
      if resolved p then p
      else probeResolve false (probeDestroy (probeMark p))
  | ProbeError errType =>
      if resolved p then p
      else if String.eqb errType "unavailable-id"
           then probeResolve true (probeDestroy (probeMark p))
           else probeResolve false (probeDestroyUnlessDestroyed (probeMark p))
  | ProbeTimeout =>
      if negb (resolved p)
      then probeResolve false (probeDestroyUnlessDestroyed (probeMark p))
      else p
  end.

Definition checkRoomExists (alreadyDestroyed : bool) (evs : list ProbeEvent)
  : Probe :=
  fold_left probeStep evs (mkProbe false alreadyDestroyed None 0).

(** ** The chat view *)

(** [handleInput]: the calls of [onTyping] and whether a typing timer is
    pending afterwards. *)
Definition handleInput (typingPending : bool) : list bool * bool :=
  ((if typingPending then [] else [true]), true).

(** The callback of the pending typing timer. *)
Definition typingTimeout (typingPending : bool) : list bool * bool :=
  if typingPending then ([false], false) else ([], false).

(** What [handleSend] leaves in [typingTimeoutRef]. *)
Definition pendingAfterSend (inputValue : string) (typingPending : bool)
  : bool :=
  match trim inputValue with
  | EmptyString => typingPending
  | _ => false
  end.

Definition typingCalls (calls : list ChatCall) : list bool :=
  List.flat_map (fun c => match c with
                          | OnTyping b => [b]
                          | OnSendMessage _ _ => []
                          end) calls.

(** What happens in the chat view: a key is typed, the pending typing timer
    fires, or the text is sent. *)
Inductive ViewEvent :=
| KeyTyped
| TypingTimerFires
| SendPressed (model : string -> GenerateContent) (inputValue : string)
              (history : list ChatMessage).

Definition viewStep (st : list bool * bool) (e : ViewEvent)
  : list bool * bool :=
  let '(signals, pending) := st in
  match e with
  | KeyTyped =>
      let '(calls, pending') := handleInput pending in
      (signals ++ calls, pending')
  | TypingTimerFires =>
      let '(calls, pending') := typingTimeout pending in
      (signals ++ calls, pending')
  | SendPressed model inputValue history =>
      (signals ++ typingCalls (handleSend model inputValue pending history),
       pendingAfterSend inputValue pending)
  end.

(** The [onTyping] signals of a chat view that starts without a timer. *)
Definition viewRun (evs : list ViewEvent) : list bool * bool :=
  fold_left viewStep evs ([], false).

Definition starterFallback : string := "What's the best meal you've ever had?".

(** [generateConversationStarter]. *)
Definition generateConversationStarter (model : string -> GenerateContent)
  : Completion string :=
  match model "Generate a fun, unique, and engaging conversation starter question for a group of friends. Just the question." with
  | Responds (Some (String a rest)) => Returns (String a rest)
  | Responds _ => Returns starterFallback
  | Throws => Returns starterFallback
  end.

(** [handleMagicStarter]: its [catch] ignores the error. *)
Definition handleMagicStarter (model : string -> GenerateContent)
  : list ChatCall :=
  match generateConversationStarter model with
  | Returns starter => [OnSendMessage starter AI]
  | Raises => []
  end.

(** One entry of [groups] in [groupReactions]. *)
Record ReactionGroup := mkReactionGroup {
  count : nat;
  hasReacted : bool;
  senders : list string }.

(** The property names that an object literal inherits from
    [Object.prototype] in a browser.  Each of them holds a function, and
    [__proto__] gives the prototype itself: on an object without an own
    property of that name, [groups[name]] is truthy and has no [senders]. *)
Definition objectPrototypeNames : list string :=
  [ "constructor"; "__defineGetter__"; "__defineSetter__"; "hasOwnProperty";
    "__lookupGetter__"; "__lookupSetter__"; "isPrototypeOf";
    "propertyIsEnumerable"; "toString"; "valueOf"; "__proto__";
    "toLocaleString" ].

Definition inherited (k : string) : bool :=
  existsb (String.eqb k) objectPrototypeNames.

(** The body of [reactions.forEach] in [groupReactions] for an emoji under
    which [groups] has an own property or reads [undefined]: the group is
    created if it is missing, then counted up.  [groups] holds the own
    properties of the object in the order of their creation. *)
Definition addOwn (currentUserId : string)
  (groups : list (string * ReactionGroup)) (r : Reaction)
  : list (string * ReactionGroup) :=
  let g := match obj_get (emoji r) groups with
           | Some g => g
           | None => mkReactionGroup 0 false []
           end in
  obj_set (emoji r)
          (mkReactionGroup (S (count g))
                           (hasReacted g || String.eqb (senderId r) currentUserId)
                           (senders g ++ [senderName r]))
          groups.

(** The body of [reactions.forEach].  [groups[r.emoji]] is the own property
    when there is one, and else what the prototype holds under that name.
    For an inherited name the test [!groups[r.emoji]] fails, no group is
    created, [count++] lands on the inherited value, and
    [groups[r.emoji].senders.push] throws a TypeError: [None]. *)
Definition addToGroup (currentUserId : string)
  (groups : list (string * ReactionGroup)) (r : Reaction)
  : option (list (string * ReactionGroup)) :=
  match obj_get (emoji r) groups with
  | Some _ => Some (addOwn currentUserId groups r)
  | None =>
      if inherited (emoji r) then None
      else Some (addOwn currentUserId groups r)
  end.

(** [reactions.forEach(r => ...)] from the object [groups]; the loop ends
    at the first exception. *)
Fixpoint collectGroups (currentUserId : string) (rs : list Reaction)
  (groups : list (string * ReactionGroup))
  : option (list (string * ReactionGroup)) :=
  match rs with
  | [] => Some groups
  | r :: rest =>
      match addToGroup currentUserId groups r with
      | Some groups' => collectGroups currentUserId rest groups'
      | None => None
      end
  end.

(** An array index as a property name: decimal digits without a leading
    zero, of value at most [2^32 - 2]. *)
Definition isDigit (a : ascii) : bool :=
  let n := nat_of_ascii a in ((48 <=? n) && (n <=? 57))%nat.

Fixpoint decimalValue (s : string) (acc : N) : option N :=
  match s with
  | EmptyString => Some acc
  | String a rest =>
      if isDigit a
      then decimalValue rest (acc * 10 + N.of_nat (nat_of_ascii a - 48))%N
      else None
  end.

Definition arrayIndex (k : string) : option N :=
  match k with
  | EmptyString => None
  | String a rest =>
      if (nat_of_ascii a =? 48)%nat && negb (String.eqb rest EmptyString)
      then None
      else match decimalValue k 0 with
           | Some n => if (n <=? 4294967294)%N then Some n else None
           | None => None
           end
  end.

Definition isArrayIndex (k : string) : bool :=
  match arrayIndex k with Some _ => true | None => false end.

Definition indexValue (k : string) : N :=
  match arrayIndex k with Some n => n | None => 0%N end.

(** [Object.entries]: the own properties whose names are array indices come
    first, by ascending index, and the others follow in the order of their
    creation. *)
Fixpoint insertByIndex {A} (kv : string * A) (l : list (string * A))
  : list (string * A) :=
  match l with
  | [] => [kv]
  | kv' :: rest =>
      if (indexValue (fst kv) <? indexValue (fst kv'))%N
      then kv :: l
      else kv' :: insertByIndex kv rest
  end.

Definition sortByIndex {A} (l : list (string * A)) : list (string * A) :=
  fold_right insertByIndex [] l.

Definition obj_entries {A} (o : list (string * A)) : list (string * A) :=
  sortByIndex (List.filter (fun kv => isArrayIndex (fst kv)) o) ++
  List.filter (fun kv => negb (isArrayIndex (fst kv))) o.

(** [groupReactions]: the entries of [groups], each with its emoji, or
    [None] when the loop throws. *)
Definition groupReactions (currentUserId : string) (rs : list Reaction)
  : option (list (string * ReactionGroup)) :=
  option_map obj_entries (collectGroups currentUserId rs []).

(** ** Vocabulary of the further properties *)

(** The ids of a directory, in order. *)
Definition directoryIds (ps : list Participant) : list string :=
  List.map pid ps.

(** [alternating b l]: the signals [l] are [b], then its negation, and so on
    in turn. *)
Fixpoint alternating (b : bool) (l : list bool) : Prop :=
  match l with
  | [] => True
  | x :: rest => x = b /\ alternating (negb b) rest
  end.

(** The reactions of [rs] that carry the emoji [e]. *)
Definition withEmoji (e : string) (rs : list Reaction) : list Reaction :=
  List.filter (fun r => String.eqb (emoji r) e) rs.

Definition totalCount (groups : list (string * ReactionGroup)) : nat :=
  list_sum (List.map (fun kv => count (snd kv)) groups).

(** The distinct elements of a list, each at the place where it is seen
    first. *)
Fixpoint firstSeen (l : list string) : list string :=
  match l with
  | [] => []
  | x :: rest =>
      x :: List.filter (fun y => negb (String.eqb y x)) (firstSeen rest)
  end.

(** The numbers of [l] do not go down. *)
Fixpoint ascending (l : list N) : Prop :=
  match l with
  | [] => True
  | x :: rest => Forall (N.le x) rest /\ ascending rest
  end.

(** An event that does not bring a directory with two entries of one id. *)
Definition cleanSync (ev : Event) : Prop :=
  match ev with
  | LinkData _ (SYNC_PARTICIPANTS l) => List.NoDup (directoryIds l)
  | _ => True
  end.

(** The registry holds one connection per peer id, each under the id of its
    peer. *)
Definition registryOk (w : World) : Prop :=
  List.NoDup (obj_keys (connectionsRef w)) /\
  forall k c, In (k, c) (connectionsRef w) -> peer c = k.

(** From [w] to [w'] the session is the same or gone: the room is the same,
    and unless the peer has been destroyed it is the same peer and every
    banned id is still banned. *)
Definition sessionGoesOn (w w' : World) : Prop :=
  hostPeerId w' = hostPeerId w /\
  (peerInstance w' = None \/
   (peerInstance w' = peerInstance w /\
    bannedPeersRef w ⊆ bannedPeersRef w')).

(** The actions of the user of the room. *)
Definition uiEvent (ev : Event) : bool :=
  match ev with
  | UiTrigger _ _ | UiSend _ _ _ _ | UiReact _ _ _ | UiTyping _ => true
  | _ => false
  end.

(** The group that [groupReactions] should hold for the emoji [e]. *)
Definition groupOf (currentUserId e : string) (rs : list Reaction)
  : ReactionGroup :=
  mkReactionGroup
    (length (withEmoji e rs))
    (existsb (fun r => String.eqb (senderId r) currentUserId) (withEmoji e rs))
    (List.map senderName (withEmoji e rs)).

(** An ['add'] as it travels: the payload [handleReaction] builds for a
    sender who had not reacted. *)
Definition addPayload (messageId em sid sName : string) : ReactionPayload :=
  mkReactionPayload messageId em sid sName "add".

(** ** Further sample sessions *)

(** The manager of the moderated room, as its own process sees the room. *)
Definition hostLink : Conn := mkConn 7 roomHost.

Definition managerView : World :=
  mkWorld roomHost (Some (Some "ann0-12")) [(roomHost, hostLink)] ∅ {[7]}
          (<[7 := [Serving []]]> ∅) [] moderatedDirectory ∅ None "ann0-12"
          false [].

Definition bobEntry : Participant :=
  mkParticipant "bob0-77" "User bob0" GUEST false.

(** A process whose peer has just opened under the id of bob. *)
Definition newPeer : World :=
  mkWorld roomHost (Some (Some "bob0-77")) [] ∅ ∅ ∅ [] [] ∅ None "" false [].

(** A directory in which bob has made himself the host. *)
Definition forgedDirectory : list Participant :=
  [mkParticipant "bob0-77" "root" HOST true].

(** What an inbound REACTION makes of one message of the log: [m'] is [m]
    but for its reactions.  On a message the payload addresses, ['remove']
    takes out the reactions of the sender with the emoji and no other, and
    any other action leaves the list alone when the sender's reaction is on
    it and puts the reaction at its end when it is not; the reactions of a
    message of another id stay. *)
Definition reactedTo (p : ReactionPayload) (m m' : ChatMessage) : Prop :=
  m' = with_reactions m (reactions m') /\
  if String.eqb (msg_id m) (rp_messageId p) then
    let key := (rp_senderId p, rp_emoji p) in
    if String.eqb (rp_action p) "remove" then
      forall r, In r (reactions m') <->
                In r (reactions m) /\ reactionKey r <> key
    else
      (In key (List.map reactionKey (reactions m)) /\
       reactions m' = reactions m) \/
      (~ In key (List.map reactionKey (reactions m)) /\
       reactions m' =
       reactions m ++ [mkReaction (rp_emoji p) (rp_senderId p) (rp_senderName p)])
  else reactions m' = reactions m.

(** From [w] to [w'] the role of [target] has been set to [r] and a
    directory broadcast has been scheduled: the directory has the same
    entries in the same order, each with its id, name and host flag, the
    entries of [target] with the role [r] and the others with their own;
    nothing else in the world has changed. *)
Definition roleSet (target : string) (r : UserRole) (w w' : World) : Prop :=
  Forall2 (fun p p' =>
             pid p' = pid p /\ name p' = name p /\
             isHostFlag p' = isHostFlag p /\
             role p' = if String.eqb (pid p) target then r else role p)
          (participants w) (participants w') /\
  hostPeerId w' = hostPeerId w /\ peerInstance w' = peerInstance w /\
  connectionsRef w' = connectionsRef w /\
  bannedPeersRef w' = bannedPeersRef w /\
  linkOpen w' = linkOpen w /\ listeners w' = listeners w /\
  messages w' = messages w /\ typingUsers w' = typingUsers w /\
  kickReason w' = kickReason w /\ peerId w' = peerId w /\
  isHost w' = isHost w /\
  outbox w' = outbox w ++ [SetTimeout RunBroadcastParticipantList 0].

(** The Host with the guest ann; bob, banned and gone, has come back on a
    second link, which the Host has turned away and not yet closed. *)
Definition bannedKnocks : World :=
  run hostWorld [Connection [] annConn; LinkOpen annConn;
                 Connection [] bobConn; LinkOpen bobConn;
                 UiTrigger "BAN" "bob0-77"; TimerFires (CloseConn bobConn);
                 Connection [] bobAgain; LinkOpen bobAgain].

(** ** The first render and the deferred updater *)

(** [useState<Participant[]>([])]: the [participants] of the first render.
    The mount effect of [Room] runs once and registers
    [conn => handleDataConnection(conn)] with the handlers of that render,
    so this is the binding that every data listener reads. *)
Definition initialParticipants : list Participant := [].

(** An event of a session in which every connection is taken by the
    handlers of the mount effect. *)
Definition mountEvent (ev : Event) : Prop :=
  match ev with
  | Connection scope _ => scope = initialParticipants
  | _ => True
  end.

(** Every listener of the world was created by the mount effect. *)
Definition mountListeners (w : World) : Prop :=
  forall k ls l, listeners w !! k = Some ls -> In l ls ->
                 l = Rejecting \/ l = Serving initialParticipants.

(** The Host with two guests, ann and bob, after it has promoted ann and
    the scheduled directory broadcast has run. *)
Definition annPromoted : World :=
  run hostWorld [Connection initialParticipants annConn; LinkOpen annConn;
                 Connection initialParticipants bobConn; LinkOpen bobConn;
                 UiTrigger "PROMOTE" "ann0-12";
                 TimerFires RunBroadcastParticipantList].

(** The Guest bob with an open link to the Host, one message in the log and
    his own reaction on it. *)
Definition reactingGuest : World :=
  run guestWorld [Connection initialParticipants hostLink; LinkOpen hostLink;
                  LinkData hostLink (CHAT (helloMessage []));
                  UiReact DuringCall "m1" "+1"].

(** * Properties *)

(** ** Reactions: the inbound mutation *)

Lemma same_reaction_key sid em r :
  same_reaction sid em r = true <-> reactionKey r = (sid, em).
Proof.
  unfold same_reaction, reactionKey.
  rewrite andb_true_iff, !String.eqb_eq. split.
  - intros [-> ->]. reflexivity.
  - intros H. injection H as -> ->. split; reflexivity.
Qed.

Lemma has_reaction_key sid em rs :
  existsb (same_reaction sid em) rs = true <->
  In (sid, em) (List.map reactionKey rs).
Proof.
  rewrite existsb_exists, in_map_iff. split.
  - intros (r & Hr & Hs). exists r. split; [now apply same_reaction_key | exact Hr].
  - intros (r & Hk & Hr). exists r. split; [exact Hr | now apply same_reaction_key].
Qed.

Lemma with_reactions_same msg : with_reactions msg (reactions msg) = msg.
Proof. destruct msg; reflexivity. Qed.

Lemma keys_filter_out sid em rs k :
  In k (List.map reactionKey
          (List.filter (fun r => negb (same_reaction sid em r)) rs)) <->
  In k (List.map reactionKey rs) /\ k <> (sid, em).
Proof.
  rewrite !in_map_iff. split.
  - intros (r & <- & Hr). apply filter_In in Hr as [Hr Hn]. split.
    + exists r. split; [reflexivity | exact Hr].
    + intros Hk. apply same_reaction_key in Hk. rewrite Hk in Hn. discriminate.
  - intros [(r & <- & Hr) Hne]. exists r. split; [reflexivity |].
    apply filter_In. split; [exact Hr |].
    destruct (same_reaction sid em r) eqn:E; [| reflexivity].
    apply same_reaction_key in E. contradiction.
Qed.

Lemma distinct_filter (f : Reaction -> bool) rs :
  distinctReactions rs -> distinctReactions (List.filter f rs).
Proof.
  unfold distinctReactions. induction rs as [| r rs IH]; simpl; intros H.
  - exact H.
  - apply NoDup_cons_iff in H as [Hn Hd]. destruct (f r); simpl.
    + apply NoDup_cons_iff. split; [| now apply IH].
      intros Hin. apply Hn. apply in_map_iff in Hin as (r' & Hk & Hr').
      apply filter_In in Hr' as [Hr' _]. apply in_map_iff. now exists r'.
    + now apply IH.
Qed.

Lemma distinct_snoc rs r :
  distinctReactions rs -> ~ In (reactionKey r) (List.map reactionKey rs) ->
  distinctReactions (rs ++ [r]).
Proof.
  unfold distinctReactions. intros Hd Hn. rewrite List.map_app. simpl.
  induction (List.map reactionKey rs) as [| k ks IH]; simpl.
  - constructor; [intros [] | constructor].
  - apply NoDup_cons_iff in Hd as [Hk Hd]. apply NoDup_cons_iff. split.
    + intros Hin. apply in_app_or in Hin as [Hin | [Heq | []]].
      * now apply Hk.
      * apply Hn. left. symmetry. exact Heq.
    + apply IH; [exact Hd |]. intros Hin. apply Hn. now right.
Qed.

Lemma receiveReactionList_distinct p rs :
  distinctReactions rs -> distinctReactions (receiveReactionList p rs).
Proof.
  intros H. unfold receiveReactionList.
  destruct (String.eqb (rp_action p) "remove").
  - now apply distinct_filter.
  - destruct (existsb _ rs) eqn:E; [exact H |].
    apply distinct_snoc; [exact H |]. intros Hin.
    change (reactionKey _) with (rp_senderId p, rp_emoji p) in Hin at 1.
    apply has_reaction_key in Hin. rewrite Hin in E. discriminate.
Qed.

Lemma map_unchanged {A} (f : A -> A) (l : list A) :
  (forall x, In x l -> f x = x) -> List.map f l = l.
Proof.
  induction l as [| x l IH]; simpl; intros H; [reflexivity |].
  rewrite H by now left. f_equal. apply IH. intros y Hy. apply H. now right.
Qed.

(** C8. Applying an inbound REACTION to a log whose reaction lists have no
    two entries with the same (senderId, emoji) pair gives such a log again;
    an ['add'] whose pair is already present on the messages it addresses
    leaves the log as it was, and so does a REACTION whose [messageId] is
    the id of no entry. *)
Theorem receiveReaction_preserves_I3 (p : ReactionPayload) (log : list ChatMessage) :
  I3 log ->
  I3 (receiveReaction p log) /\
  (rp_action p = "add" ->
   (forall m, In m log -> msg_id m = rp_messageId p ->
              In (rp_senderId p, rp_emoji p) (List.map reactionKey (reactions m))) ->
   receiveReaction p log = log) /\
  ((forall m, In m log -> msg_id m <> rp_messageId p) ->
   receiveReaction p log = log).
Proof.
  intros HI. split; [| split].
  - unfold I3, receiveReaction in *. rewrite List.Forall_forall in *.
    intros m' Hm'. apply in_map_iff in Hm' as (m & <- & Hm).
    destruct (String.eqb (msg_id m) (rp_messageId p)); simpl.
    + apply receiveReactionList_distinct. now apply HI.
    + now apply HI.
  - intros Hadd Hpresent. apply map_unchanged. intros m Hm.
    destruct (String.eqb (msg_id m) (rp_messageId p)) eqn:E; [| reflexivity].
    apply String.eqb_eq in E. unfold receiveReactionList. rewrite Hadd. simpl.
    apply (Hpresent m Hm) in E. apply has_reaction_key in E. rewrite E.
    apply with_reactions_same.
  - intros Hnone. apply map_unchanged. intros m Hm.
    destruct (String.eqb (msg_id m) (rp_messageId p)) eqn:E; [| reflexivity].
    apply String.eqb_eq in E. now apply Hnone in E.
Qed.

(** ** Reactions: the local toggle *)

Lemma toggleOne_snd messageId em sid sName st msg :
  snd (toggleOne messageId em sid sName st msg) = toggleMsg messageId em sid sName msg.
Proof.
  unfold toggleMsg, toggleOne.
  destruct (String.eqb (msg_id msg) messageId); reflexivity.
Qed.

Lemma toggleFrom_snd messageId em sid sName log : forall st,
  snd (toggleFrom messageId em sid sName st log) =
  List.map (toggleMsg messageId em sid sName) log.
Proof.
  induction log as [| msg rest IH]; intros st; simpl; [reflexivity |].
  rewrite <- (toggleOne_snd messageId em sid sName st msg).
  destruct (toggleOne messageId em sid sName st msg) as [st1 msg'].
  specialize (IH st1).
  destruct (toggleFrom messageId em sid sName st1 rest) as [st2 rest'].
  simpl in *. now rewrite IH.
Qed.

Lemma toggleFrom_no_match messageId em sid sName log : forall st,
  ~ In messageId (List.map msg_id log) ->
  toggleFrom messageId em sid sName st log = (st, log).
Proof.
  induction log as [| msg rest IH]; intros st Hn; simpl; [reflexivity |].
  unfold toggleOne. destruct (String.eqb (msg_id msg) messageId) eqn:E.
  - apply String.eqb_eq in E. exfalso. apply Hn. now left.
  - rewrite IH; [reflexivity |]. intros Hin. apply Hn. now right.
Qed.

Lemma filter_out_absent sid em rs :
  existsb (same_reaction sid em) rs = false ->
  List.filter (fun r => negb (same_reaction sid em r)) rs = rs.
Proof.
  induction rs as [| r rs IH]; simpl; [reflexivity |].
  intros H. apply orb_false_iff in H as [Hr Hrs].
  rewrite Hr. simpl. now rewrite IH.
Qed.

Lemma filter_out_gone sid em rs :
  existsb (same_reaction sid em)
          (List.filter (fun r => negb (same_reaction sid em r)) rs) = false.
Proof.
  induction rs as [| r rs IH]; simpl; [reflexivity |].
  destruct (same_reaction sid em r) eqn:E; simpl; [exact IH |].
  now rewrite E, IH.
Qed.

Lemma same_reaction_own sid em sName :
  same_reaction sid em (mkReaction em sid sName) = true.
Proof. unfold same_reaction. simpl. now rewrite !String.eqb_refl. Qed.

(** The local mutation is the one a receiver of the resolved action makes. *)
Lemma toggleMsg_as_received messageId em sid sName msg :
  msg_id msg = messageId ->
  let act := if existsb (same_reaction sid em) (reactions msg)
             then remove else add in
  toggleMsg messageId em sid sName msg =
  with_reactions msg
    (receiveReactionList
       (mkReactionPayload messageId em sid sName (action_string act))
       (reactions msg)).
Proof.
  intros Hid. unfold toggleMsg, toggleOne, receiveReactionList.
  rewrite Hid, String.eqb_refl.
  cbn [snd rp_action rp_senderId rp_emoji rp_senderName].
  destruct (existsb (same_reaction sid em) (reactions msg)) eqn:E;
    cbn [action_string].
  - reflexivity.
  - reflexivity.
Qed.

Lemma toggleFrom_resolved messageId em sid sName log : forall st,
  List.NoDup (List.map msg_id log) ->
  exists act,
    toggleFrom messageId em sid sName st log =
    (act, receiveReaction
            (mkReactionPayload messageId em sid sName (action_string act)) log) /\
    (In messageId (List.map msg_id log) ->
     (act = remove <-> hadReaction log messageId sid em)) /\
    (~ In messageId (List.map msg_id log) -> act = st).
Proof.
  induction log as [| msg rest IH]; intros st Hnd.
  - exists st. simpl. split; [reflexivity |]. split; [intros [] | reflexivity].
  - simpl in Hnd. apply NoDup_cons_iff in Hnd as [Hfresh Hnd].
    destruct (String.eqb (msg_id msg) messageId) eqn:E.
    + apply String.eqb_eq in E. rewrite E in Hfresh.
      set (act := if existsb (same_reaction sid em) (reactions msg)
                  then remove else add).
      exists act. split; [| split].
      * simpl.
        pose proof (toggleOne_snd messageId em sid sName st msg) as Hs.
        assert (Hf : fst (toggleOne messageId em sid sName st msg) = act).
        { unfold toggleOne. rewrite E, String.eqb_refl. reflexivity. }
        destruct (toggleOne messageId em sid sName st msg) as [st1 msg'].
        simpl in Hs, Hf. subst st1 msg'.
        rewrite toggleFrom_no_match by exact Hfresh.
        rewrite E, String.eqb_refl.
        rewrite (toggleMsg_as_received messageId em sid sName msg E).
        fold act. f_equal. f_equal.
        symmetry. apply map_unchanged. intros m Hm. simpl.
        destruct (String.eqb (msg_id m) messageId) eqn:Em; [| reflexivity].
        apply String.eqb_eq in Em. exfalso. apply Hfresh.
        apply in_map_iff. now exists m.
      * intros _. unfold act. split.
        -- destruct (existsb (same_reaction sid em) (reactions msg)) eqn:Ex;
             [| discriminate].
           intros _. exists msg. split; [now left |]. split; [exact E |].
           now apply has_reaction_key.
        -- intros (m & [<- | Hm] & Hid & Hk).
           ++ apply has_reaction_key in Hk. now rewrite Hk.
           ++ exfalso. apply Hfresh. apply in_map_iff. now exists m.
      * intros Hn. exfalso. apply Hn. simpl. now left.
    + destruct (IH st Hnd) as (act & Heq & Hin & Hout).
      assert (Hne : msg_id msg <> messageId).
      { intros Hid. apply String.eqb_eq in Hid. congruence. }
      exists act. split; [| split].
      * simpl. unfold toggleOne. rewrite E. rewrite Heq. reflexivity.
      * simpl. intros [Hid | Hmem]; [contradiction |].
        rewrite (Hin Hmem). unfold hadReaction. split.
        -- intros (m & Hm & Hr). exists m. split; [now right | exact Hr].
        -- intros (m & [<- | Hm] & Hid & Hk); [contradiction |].
           exists m. now split.
      * simpl. intros Hn. apply Hout. intros Hmem. apply Hn. now right.
Qed.

Lemma handleReaction_messages updater messageId em w :
  messages (handleReaction updater messageId em w) =
  List.map (toggleMsg messageId em (peerId w) (nameOr "User" w)) (messages w).
Proof.
  unfold handleReaction, toggleReaction.
  rewrite <- (toggleFrom_snd messageId em (peerId w) (nameOr "User" w)
                             (messages w) add).
  destruct (toggleFrom messageId em (peerId w) (nameOr "User" w) add (messages w)).
  reflexivity.
Qed.

Lemma handleReaction_identity updater messageId em w :
  peerId (handleReaction updater messageId em w) = peerId w /\
  nameOr "User" (handleReaction updater messageId em w) = nameOr "User" w.
Proof.
  unfold handleReaction.
  destruct (toggleReaction messageId em (peerId w) (nameOr "User" w) (messages w)).
  split; reflexivity.
Qed.

(** When React runs the updater inside the call of [setMessages], and the
    log has no two entries of one id, the payload carries the resolved
    action: the local log is changed as a receiver of that payload changes
    its own, and the action is ['remove'] if and only if the sender's
    reaction with that emoji was on the message. *)
Lemma handleReaction_during_call (w : World) (messageId em : string) :
  List.NoDup (List.map msg_id (messages w)) ->
  exists act : ToggleAction,
    let payload :=
      mkReactionPayload messageId em (peerId w) (nameOr "User" w)
                        (action_string act) in
    handleReaction DuringCall messageId em w =
      broadcastData (REACTION payload) None
                    (upd_messages (receiveReaction payload) w) /\
    (act = remove <-> hadReaction (messages w) messageId (peerId w) em).
Proof.
  intros Hnd.
  destruct (toggleFrom_resolved messageId em (peerId w) (nameOr "User" w)
              (messages w) add Hnd) as (act & Heq & Hin & Hout).
  exists act. split.
  - unfold handleReaction, toggleReaction. rewrite Heq. reflexivity.
  - destruct (in_dec string_dec messageId (List.map msg_id (messages w)))
      as [Hmem | Hmem].
    + exact (Hin Hmem).
    + rewrite (Hout Hmem). split; [discriminate |].
      intros (m & Hm & Hid & _). exfalso. apply Hmem.
      apply in_map_iff. now exists m.
Qed.

Lemma toggleMsg_twice messageId em sid sName msg :
  toggleMsg messageId em sid sName (toggleMsg messageId em sid sName msg) =
  toggledTwice messageId em sid sName msg.
Proof.
  unfold toggleMsg, toggleOne, toggledTwice.
  destruct (String.eqb (msg_id msg) messageId) eqn:E; simpl; [| now rewrite E].
  destruct (existsb (same_reaction sid em) (reactions msg)) eqn:Ex; simpl.
  - rewrite E. simpl. now rewrite filter_out_gone.
  - rewrite E. simpl. rewrite existsb_app. simpl.
    rewrite same_reaction_own, orb_true_r. simpl.
    rewrite List.filter_app. simpl. rewrite same_reaction_own. simpl.
    rewrite app_nil_r, filter_out_absent by exact Ex.
    destruct msg; reflexivity.
Qed.

(** C6 (amended). Two local toggles in a row by the same sender change each
    message as [toggledTwice] says, whenever React runs the two updaters.
    Every message keeps its set of (senderId, emoji) pairs, and the log is
    the original one when the sender's reaction was not on the addressed
    message before. *)
Theorem handleReaction_twice (first second : UpdaterRun) (w : World)
  (messageId em : string) :
  let w2 := handleReaction second messageId em
              (handleReaction first messageId em w) in
  let twice := toggledTwice messageId em (peerId w) (nameOr "User" w) in
  messages w2 = List.map twice (messages w) /\
  (forall m k, In k (List.map reactionKey (reactions (twice m))) <->
               In k (List.map reactionKey (reactions m))) /\
  (~ hadReaction (messages w) messageId (peerId w) em ->
   messages w2 = messages w).
Proof.
  intros w2 twice.
  assert (Hw2 : messages w2 = List.map twice (messages w)).
  { unfold w2, twice. rewrite handleReaction_messages.
    destruct (handleReaction_identity first messageId em w) as [-> ->].
    rewrite handleReaction_messages, List.map_map.
    apply map_ext. intros m. apply toggleMsg_twice. }
  split; [exact Hw2 |]. split.
  - intros m k. unfold twice, toggledTwice.
    destruct (String.eqb (msg_id m) messageId &&
              existsb (same_reaction (peerId w) em) (reactions m)) eqn:E;
      [| reflexivity].
    apply andb_true_iff in E as [_ Ex]. apply has_reaction_key in Ex.
    simpl. rewrite List.map_app, in_app_iff, keys_filter_out. simpl.
    destruct (prod_eq_dec k (peerId w, em)) as [-> | Hne].
    + split; [intros _; exact Ex | intros _; right; now left].
    + split.
      * intros [[Hk _] | [Heq | []]]; [exact Hk |].
        exfalso. apply Hne. symmetry. exact Heq.
      * intros Hk. left. now split.
  - intros Hnot. rewrite Hw2. apply map_unchanged. intros m Hm.
    unfold twice, toggledTwice.
    destruct (String.eqb (msg_id m) messageId) eqn:E; [| reflexivity].
    destruct (existsb (same_reaction (peerId w) em) (reactions m)) eqn:Ex;
      [| reflexivity].
    exfalso. apply Hnot. exists m. split; [exact Hm |].
    split; [now apply String.eqb_eq | now apply has_reaction_key].
Qed.

(** ** Worked cases of the reaction properties *)

Ltac distinct_strings :=
  repeat (apply List.NoDup_cons; [simpl; intuition discriminate |]);
  apply List.NoDup_nil.

Lemma receiveReaction_preserves_I3_witness :
  let log := [helloMessage [thumbsOfBob]] in
  I3 (receiveReaction (mkReactionPayload "m1" "+1" "bob0-77" "Bob" "add") log) /\
  receiveReaction (mkReactionPayload "m1" "+1" "bob0-77" "Bob" "add") log = log /\
  receiveReaction (mkReactionPayload "m9" "+1" "bob0-77" "Bob" "remove") log = log.
Proof.
  intros log.
  assert (HI : I3 log).
  { constructor; [| constructor]. unfold distinctReactions. simpl.
    apply List.NoDup_cons; [intros [] | apply List.NoDup_nil]. }
  split; [| split].
  - exact (proj1 (receiveReaction_preserves_I3
                    (mkReactionPayload "m1" "+1" "bob0-77" "Bob" "add") log HI)).
  - apply (proj1 (proj2 (receiveReaction_preserves_I3
                    (mkReactionPayload "m1" "+1" "bob0-77" "Bob" "add") log HI))).
    + reflexivity.
    + intros m [<- | []] _. simpl. left. reflexivity.
  - apply (proj2 (proj2 (receiveReaction_preserves_I3
                    (mkReactionPayload "m9" "+1" "bob0-77" "Bob" "remove") log HI))).
    intros m [<- | []]. simpl. discriminate.
Defined.

(** C6, as stated, fails: the sender's reaction stood first; after two
    toggles it stands last. *)
Lemma handleReaction_twice_reorders :
  let w := guestWith [thumbsOfBob; heartOfAnn] in
  List.map reactions
    (messages (handleReaction DuringCall "m1" "+1"
                 (handleReaction DuringCall "m1" "+1" w))) =
    [[heartOfAnn; thumbsOfBob]] /\
  List.map reactions (messages w) = [[thumbsOfBob; heartOfAnn]] /\
  List.map reactions
    (messages (handleReaction DuringCall "m1" "+1"
                 (handleReaction DuringCall "m1" "+1" w))) <>
  List.map reactions (messages w).
Proof.
  split; [vm_compute; reflexivity |]. split; [reflexivity |].
  vm_compute. discriminate.
Qed.

Lemma handleReaction_twice_witness :
  messages (handleReaction AtRender "m1" "+1"
              (handleReaction DuringCall "m1" "+1" (guestWith [heartOfAnn]))) =
  messages (guestWith [heartOfAnn]).
Proof.
  apply (proj2 (proj2 (handleReaction_twice DuringCall AtRender
                         (guestWith [heartOfAnn]) "m1" "+1"))).
  intros (m & [<- | []] & _ & Hk). simpl in Hk.
  destruct Hk as [Hk | []]. discriminate Hk.
Defined.

(** ** Moderation: the authorization of admin requests *)

Lemma lookupRole_find directory i :
  lookupRole directory i =
  match List.find (has_pid i) directory with
  | Some p => Some (role p)
  | None => None
  end.
Proof. unfold lookupRole. destruct (List.find _ _); reflexivity. Qed.

Lemma handleAdminRequest_spec directory payload requesterId w :
  (authorized directory requesterId (targetId payload) /\
   handleAdminRequest directory payload requesterId w =
   Some (executeAdminAction (action payload) (targetId payload) w)) \/
  (~ authorized directory requesterId (targetId payload) /\
   handleAdminRequest directory payload requesterId w = None).
Proof.
  unfold handleAdminRequest, authorized. rewrite !lookupRole_find.
  destruct (List.find (has_pid requesterId) directory) as [r |].
  2: { right. split; [| reflexivity]. intros (rr & rt & H & _). discriminate. }
  destruct (List.find (has_pid (targetId payload)) directory) as [t |].
  2: { right. split.
       - intros (rr & rt & _ & _ & H & _). discriminate.
       - destruct (negb _ && negb _); reflexivity. }
  destruct (role r) eqn:Er, (role t) eqn:Et; simpl;
    first
      [ left; split; [| reflexivity];
        exists (role r), (role t); rewrite Er, Et;
        repeat split; try congruence; intuition congruence
      | right; split; [| reflexivity];
        intros (rr & rt & Hr & Hrole & Ht & Hnh & Hmm);
        injection Hr as <-; injection Ht as <-;
        intuition congruence ].
Qed.

(** What the data listener of the Host does with an ADMIN_REQUEST, given the
    directory it reads: [executeAdminAction] is called with the action and
    the target if and only if the four checks pass on that directory, and
    when a check fails the world of the Host stays as it was. *)
Lemma handleAdminRequest_on_directory (directory : list Participant)
  (conn : Conn) (payload : AdminPayload) (w : World) :
  amHost w = true ->
  (authorized directory (peer conn) (targetId payload) <->
   handleAdminRequest directory payload (peer conn) w =
   Some (executeAdminAction (action payload) (targetId payload) w)) /\
  (authorized directory (peer conn) (targetId payload) ->
   on_data directory conn (ADMIN_REQUEST payload) w =
   executeAdminAction (action payload) (targetId payload) w) /\
  (~ authorized directory (peer conn) (targetId payload) ->
   handleAdminRequest directory payload (peer conn) w = None /\
   on_data directory conn (ADMIN_REQUEST payload) w = w) /\
  (lookupRole directory (peer conn) = Some MANAGER ->
   lookupRole directory (targetId payload) = Some MANAGER ->
   action payload = "BAN" ->
   on_data directory conn (ADMIN_REQUEST payload) w = w).
Proof.
  intros Hhost.
  pose proof (handleAdminRequest_spec directory payload (peer conn) w) as Hspec.
  assert (Hdrop : ~ authorized directory (peer conn) (targetId payload) ->
                  handleAdminRequest directory payload (peer conn) w = None /\
                  on_data directory conn (ADMIN_REQUEST payload) w = w).
  { intros Hn. destruct Hspec as [[Ha _] | [_ Hnone]]; [contradiction |].
    split; [exact Hnone |]. simpl. now rewrite Hhost, Hnone. }
  split; [| split; [| split]].
  - split.
    + intros Ha. destruct Hspec as [[_ Hs] | [Hn _]]; [exact Hs | contradiction].
    + intros Hs. destruct Hspec as [[Ha _] | [_ Hnone]]; [exact Ha | congruence].
  - intros Ha. destruct Hspec as [[_ Hs] | [Hn _]]; [| contradiction].
    simpl. now rewrite Hhost, Hs.
  - exact Hdrop.
  - intros Hr Ht _. apply Hdrop.
    intros (rr & rt & Hr' & _ & Ht' & _ & Hmm). apply Hmm. split; congruence.
Qed.

(** A data listener whose [participants] binding is still the empty list
    of the first render finds no requester in it and drops every request. *)
Lemma empty_scope_drops_every_request conn payload w :
  on_data [] conn (ADMIN_REQUEST payload) w = w.
Proof. simpl. destruct (amHost w); reflexivity. Qed.

(** ** The relay *)

Lemma sendAll_In w keep d e :
  In e (sendAll w keep d) <->
  exists c, e = Send c d /\ In c (obj_values (connectionsRef w)) /\ keep c = true.
Proof.
  unfold sendAll. rewrite in_map_iff. split.
  - intros (c & <- & Hc). apply filter_In in Hc. now exists c.
  - intros (c & -> & Hc). exists c. split; [reflexivity |]. now apply filter_In.
Qed.

Lemma on_data_relay directory conn d w :
  replicable d = true ->
  on_data directory conn d w = relayIfHost d conn (applyLocal d w).
Proof.
  destruct d as [m | l | p | u b | r | a |]; try discriminate; intros _;
    try reflexivity.
  destruct b; reflexivity.
Qed.

Lemma applyLocal_frame d w :
  amHost (applyLocal d w) = amHost w /\
  connectionsRef (applyLocal d w) = connectionsRef w /\
  linkOpen (applyLocal d w) = linkOpen w /\
  outbox (applyLocal d w) = outbox w.
Proof.
  destruct d as [m | l | p | u b | r | a |]; try (repeat split; reflexivity).
  destruct b; repeat split; reflexivity.
Qed.

Lemma cleanup_sends_nothing w c x :
  In (Send c x) (outbox (cleanup w)) -> In (Send c x) (outbox w).
Proof.
  unfold cleanup. destruct (peerInstance w); simpl; [| tauto].
  intros H. apply in_app_or in H as [H | [H | []]]; [exact H | discriminate H].
Qed.

(** ** Frames: what the handlers leave alone *)

Ltac case_all :=
  repeat match goal with
         | |- context [match ?x with _ => _ end] => destruct x
         end.

Ltac open_handlers :=
  unfold emit, listen, on_open, on_open_banned, on_data, on_close, relayIfHost,
    handleAdminRequest, executeAdminAction, kickIfOpen, triggerAction,
    sendMessage, handleTyping, broadcastParticipantList, broadcastData,
    cleanup, addParticipant, removeParticipant, push.

Lemma handleAdminRequest_cases directory payload requesterId w :
  handleAdminRequest directory payload requesterId w = None \/
  handleAdminRequest directory payload requesterId w =
  Some (executeAdminAction (action payload) (targetId payload) w).
Proof.
  destruct (handleAdminRequest_spec directory payload requesterId w)
    as [[_ H] | [_ H]]; [now right | now left].
Qed.

Lemma on_data_admin directory conn payload w :
  on_data directory conn (ADMIN_REQUEST payload) w = w \/
  on_data directory conn (ADMIN_REQUEST payload) w =
  executeAdminAction (action payload) (targetId payload) w.
Proof.
  simpl. destruct (amHost w); [| now left].
  destruct (handleAdminRequest_cases directory payload (peer conn) w)
    as [-> | ->]; [now left | now right].
Qed.

Lemma executeAdminAction_listeners action target w :
  listeners (executeAdminAction action target w) = listeners w.
Proof. open_handlers. case_all; reflexivity. Qed.

Lemma listen_listeners c e w l : listeners (listen c e w l) = listeners w.
Proof.
  destruct l as [| scope], e as [| d |]; try reflexivity.
  - open_handlers. case_all; reflexivity.
  - destruct d as [m | ps | p | u b | r | a |];
      try (open_handlers; case_all; reflexivity).
    unfold listen.
    destruct (on_data_admin scope c a w) as [-> | ->];
      [reflexivity | apply executeAdminAction_listeners].
  - open_handlers. case_all; reflexivity.
Qed.

Lemma fold_listen_listeners c e ls : forall w,
  listeners (fold_left (listen c e) ls w) = listeners w.
Proof.
  induction ls as [| l ls IH]; intros w; simpl; [reflexivity |].
  now rewrite IH, listen_listeners.
Qed.

Lemma emit_listeners c e w : listeners (emit c e w) = listeners w.
Proof. unfold emit. apply fold_listen_listeners. Qed.




(** ** Typing presence *)

(** After a TYPING event for [u] is applied, [u] is in the typing set exactly
    when the event said so, and nobody else has moved. *)
Lemma typing_last_event directory conn u b w :
  let w' := on_data directory conn (TYPING u b) w in
  (u ∈ typingUsers w' <-> b = true) /\
  (forall v, v <> u -> v ∈ typingUsers w' <-> v ∈ typingUsers w).
Proof.
  intros w'. unfold w'. rewrite on_data_relay by reflexivity.
  assert (Ht : typingUsers (relayIfHost (TYPING u b) conn
                              (applyLocal (TYPING u b) w)) =
               typingUsers (applyLocal (TYPING u b) w)).
  { unfold relayIfHost. destruct (amHost _); reflexivity. }
  rewrite Ht. destruct b; simpl; split.
  - rewrite elem_of_union, elem_of_singleton. tauto.
  - intros v Hv. rewrite elem_of_union, elem_of_singleton. tauto.
  - rewrite elem_of_difference, elem_of_singleton. split; [tauto | discriminate].
  - intros v Hv. rewrite elem_of_difference, elem_of_singleton. tauto.
Qed.

(** Off the Host, the close of a link takes its peer out of the typing set. *)
Lemma guest_close_clears_typing conn w :
  amHost w = false -> peer conn ∉ typingUsers (on_close conn w).
Proof.
  intros H. unfold on_close.
  change (amHost (upd_connectionsRef _ w)) with (amHost w). rewrite H.
  simpl. rewrite elem_of_difference, elem_of_singleton. tauto.
Qed.

(** On the Host, the close of a link leaves the typing set as it was. *)
Lemma host_close_keeps_typing conn w :
  amHost w = true -> typingUsers (on_close conn w) = typingUsers w.
Proof.
  intros H. unfold on_close.
  change (amHost (upd_connectionsRef _ w)) with (amHost w). rewrite H.
  unfold broadcastParticipantList. destruct (myId _) as [[| a rest] |];
    reflexivity.
Qed.

(** C10, at the failing input. A guest joins the Host, says it is typing, and
    its link closes: the guest has left the registry and the directory, but
    it is still in the typing set of the Host. *)
Theorem host_typing_survives_close :
  let w := run hostWorld [Connection [] bobConn; LinkOpen bobConn;
                          LinkData bobConn (TYPING "bob0-77" true);
                          LinkClose bobConn] in
  connectionsRef w = [] /\
  List.map pid (participants w) = [roomHost] /\
  typingUsers w = {["bob0-77"]}.
Proof. vm_compute. repeat split; reflexivity. Qed.

(** ** The assistant *)

Lemma generateAIResponse_returns model currentMessage history :
  exists s, generateAIResponse model currentMessage history = Returns s.
Proof.
  unfold generateAIResponse.
  destruct (model _) as [| [[| a rest] |]]; eexists; reflexivity.
Qed.

Lemma sendMessage_messages uuid now txt type w :
  messages (sendMessage uuid now txt type w) =
  messages w ++
  [mkMessage uuid (peerId w)
             (match type with
              | AI => "Gemini"
              | _ => nameOr (if isHost w then "Host" else "User") w
              end) txt now type []].
Proof. reflexivity. Qed.

(** C9 (amended). When the call of the generative model fails for a sent
    text that invokes the assistant, [generateAIResponse] returns its fixed
    apology and [handleSend] passes on the user's text and then that apology
    as a message of kind AI; the log grows by these two messages, the second
    under the name of the assistant.  No call of [handleSend] ever carries
    the kind SYSTEM, whatever the model does. *)
Theorem assistant_failure_is_an_ai_message
  (model : string -> GenerateContent) (inputValue txt : string)
  (typingPending : bool) (history : list ChatMessage)
  (u1 u2 : string) (t1 t2 : nat) (w : World) :
  trim inputValue = txt -> txt <> EmptyString -> invokesAI txt = true ->
  model (buildPrompt txt history) = Throws ->
  handleSend model inputValue typingPending history =
    (if typingPending then [OnTyping false] else []) ++
    [OnSendMessage txt USER; OnSendMessage apology AI] /\
  messages (performCalls (handleSend model inputValue typingPending history)
                         [(u1, t1); (u2, t2)] w) =
    messages w ++
    [mkMessage u1 (peerId w) (nameOr (if isHost w then "Host" else "User") w)
               txt t1 USER [];
     mkMessage u2 (peerId w) "Gemini" apology t2 AI []] /\
  (forall model' input' pending' history' s,
     ~ In (OnSendMessage s SYSTEM)
          (handleSend model' input' pending' history')).
Proof.
  intros Htrim Hne Hai Hfail.
  assert (Hcalls : handleSend model inputValue typingPending history =
                   (if typingPending then [OnTyping false] else []) ++
                   [OnSendMessage txt USER; OnSendMessage apology AI]).
  { unfold handleSend. rewrite Htrim.
    destruct txt as [| a rest]; [contradiction |].
    rewrite Hai. unfold generateAIResponse. rewrite Hfail. reflexivity. }
  split; [exact Hcalls |]. split.
  - rewrite Hcalls.
    destruct typingPending; simpl; unfold appendLocal;
      rewrite <- app_assoc; reflexivity.
  - intros model' input' pending' history' s. unfold handleSend.
    destruct (trim input') as [| a rest]; [intros [] |].
    intros Hin. apply in_app_or in Hin as [Hin | Hin].
    { destruct pending'; simpl in Hin; [| exact Hin].
      destruct Hin as [Hin | []]. discriminate Hin. }
    apply in_app_or in Hin as [Hin | Hin].
    { simpl in Hin. destruct Hin as [Hin | []]. discriminate Hin. }
    destruct (invokesAI (String a rest)); [| exact Hin].
    destruct (generateAIResponse_returns model' (String a rest) history')
      as (r & Hr).
    rewrite Hr in Hin. simpl in Hin. destruct Hin as [Hin | []].
    discriminate Hin.
Qed.

(** C9, as stated, fails: the model throws, and the log gains the user's
    message and the apology of kind AI; it gains no SYSTEM message. *)
Lemma assistant_failure_no_system_message :
  let calls := handleSend (fun _ => Throws) "@ai hello" false [] in
  let w := performCalls calls [("u1", 1); ("u2", 2)] guestWorld in
  calls = [OnSendMessage "@ai hello" USER; OnSendMessage apology AI] /\
  List.map msg_type (messages w) = [USER; AI] /\
  List.length (List.filter isSystem (messages w)) <> 1.
Proof. vm_compute. repeat split; try reflexivity. discriminate. Qed.

Lemma assistant_failure_is_an_ai_message_witness :
  handleSend (fun _ => Throws) "  Ask Gemini  " true [] =
  [OnTyping false; OnSendMessage "Ask Gemini" USER; OnSendMessage apology AI].
Proof.
  apply (proj1 (assistant_failure_is_an_ai_message (fun _ => Throws)
                  "  Ask Gemini  " "Ask Gemini" true [] "u1" "u2" 1 2 guestWorld
                  eq_refl ltac:(discriminate) eq_refl eq_refl)).
Defined.

(** ** The log holds one entry per id *)

Lemma receiveChat_ids message prev :
  List.NoDup (List.map msg_id prev) ->
  List.NoDup (List.map msg_id (receiveChat message prev)).
Proof.
  intros H. unfold receiveChat.
  destruct (existsb _ prev) eqn:E; [exact H |].
  rewrite List.map_app. simpl.
  assert (Hn : ~ In (msg_id message) (List.map msg_id prev)).
  { intros Hin. apply in_map_iff in Hin as (m & Hid & Hm).
    assert (Ht : existsb (fun m0 => String.eqb (msg_id m0) (msg_id message))
                         prev = true).
    { apply existsb_exists. exists m. split; [exact Hm |].
      now apply String.eqb_eq. }
    congruence. }
  clear E. induction (List.map msg_id prev) as [| k ks IH]; simpl.
  - apply List.NoDup_cons; [intros [] | apply List.NoDup_nil].
  - apply NoDup_cons_iff in H as [Hk Hks]. apply List.NoDup_cons.
    + intros Hin. apply in_app_or in Hin as [Hin | [Heq | []]];
        [now apply Hk | apply Hn; left; now symmetry].
    + apply IH; [exact Hks |]. intros Hin. apply Hn. now right.
Qed.

Lemma receiveChat_known message prev :
  In (msg_id message) (List.map msg_id prev) ->
  receiveChat message prev = prev.
Proof.
  intros Hin. unfold receiveChat.
  apply in_map_iff in Hin as (m & Hid & Hm).
  assert (Ht : existsb (fun m0 => String.eqb (msg_id m0) (msg_id message))
                       prev = true).
  { apply existsb_exists. exists m. split; [exact Hm |]. now apply String.eqb_eq. }
  now rewrite Ht.
Qed.

Lemma receiveReaction_ids p prev :
  List.map msg_id (receiveReaction p prev) = List.map msg_id prev.
Proof.
  unfold receiveReaction. rewrite List.map_map. apply map_ext.
  intros m. destruct (String.eqb _ _); reflexivity.
Qed.

Lemma toggleMsg_id messageId em sid sName m :
  msg_id (toggleMsg messageId em sid sName m) = msg_id m.
Proof.
  unfold toggleMsg, toggleOne. destruct (String.eqb _ _); reflexivity.
Qed.

Lemma executeAdminAction_messages action target w :
  messages (executeAdminAction action target w) = messages w.
Proof. open_handlers. case_all; reflexivity. Qed.

Lemma listen_distinct c e w l :
  List.NoDup (logIds w) -> List.NoDup (logIds (listen c e w l)).
Proof.
  unfold logIds. intros H.
  destruct l as [| scope], e as [| d |]; try exact H.
  - unfold listen, on_open, addParticipant, broadcastParticipantList.
    case_all; exact H.
  - destruct d as [m | ps | p | u b | r | a |].
    + unfold listen, on_data, relayIfHost. case_all; simpl;
        now apply receiveChat_ids.
    + exact H.
    + unfold listen, on_data, relayIfHost. case_all; simpl;
        now rewrite receiveReaction_ids.
    + unfold listen, on_data, relayIfHost. case_all; exact H.
    + unfold listen, on_data, cleanup. case_all; apply List.NoDup_nil.
    + unfold listen. destruct (on_data_admin scope c a w) as [-> | ->];
        [exact H | now rewrite executeAdminAction_messages].
    + exact H.
  - unfold listen, on_close, broadcastParticipantList, removeParticipant.
    case_all; exact H.
Qed.

Lemma emit_distinct c e w :
  List.NoDup (logIds w) -> List.NoDup (logIds (emit c e w)).
Proof.
  unfold emit. generalize (default [] (listeners w !! connId c)) as ls.
  intros ls. revert w. induction ls as [| l ls IH]; intros w H; simpl.
  - exact H.
  - apply IH. now apply listen_distinct.
Qed.

Lemma step_distinct w ev :
  List.NoDup (logIds w) ->
  match ev with
  | UiSend uuid _ _ _ => ~ In uuid (logIds w)
  | _ => True
  end ->
  List.NoDup (logIds (step w ev)).
Proof.
  intros H Hfresh. destruct ev as [scope c | c | c d | c | t | a target
                                  | uuid now txt type | updater messageId em | b].
  - unfold step, handleDataConnection. case_all; exact H.
  - apply emit_distinct. exact H.
  - apply emit_distinct. exact H.
  - apply emit_distinct. exact H.
  - destruct t as [c |].
    + apply emit_distinct. exact H.
    + unfold step, runTask, broadcastParticipantList. case_all; exact H.
  - unfold step, triggerAction. case_all; try exact H.
    unfold logIds. now rewrite executeAdminAction_messages.
  - unfold step, logIds. rewrite sendMessage_messages, List.map_app. simpl.
    unfold logIds in *.
    induction (List.map msg_id (messages w)) as [| k ks IH]; simpl.
    + apply List.NoDup_cons; [intros [] | apply List.NoDup_nil].
    + apply NoDup_cons_iff in H as [Hk Hks]. apply List.NoDup_cons.
      * intros Hin. apply in_app_or in Hin as [Hin | [Heq | []]];
          [now apply Hk | apply Hfresh; left; now symmetry].
      * apply IH; [exact Hks |]. intros Hin. apply Hfresh. now right.
  - unfold step, logIds. rewrite handleReaction_messages, List.map_map.
    erewrite map_ext; [exact H |]. intros m. apply toggleMsg_id.
  - exact H.
Qed.

(** C2 (amended). An inbound CHAT whose id is already in the log leaves the
    log as it was.  A local send appends its message without a look at the
    log, under the id it has just drawn.  So a log with one entry per id
    keeps one entry per id along every sequence of events, local sends and
    inbound messages among them, provided each local send draws an id that
    is not in the log at that moment. *)
Theorem log_one_entry_per_id (w : World) (evs : list Event) :
  List.NoDup (logIds w) -> freshSends w evs ->
  List.NoDup (logIds (run w evs)) /\
  (forall directory conn message,
     In (msg_id message) (logIds w) ->
     messages (on_data directory conn (CHAT message) w) = messages w) /\
  (forall uuid now txt type,
     logIds (sendMessage uuid now txt type w) = logIds w ++ [uuid]).
Proof.
  intros Hnd Hfresh. split; [| split].
  - revert w Hnd Hfresh. induction evs as [| ev rest IH]; intros w Hnd Hfresh.
    + exact Hnd.
    + destruct Hfresh as [Hev Hrest]. simpl. apply IH; [| exact Hrest].
      now apply step_distinct.
  - intros directory conn message Hin. unfold on_data, relayIfHost.
    case_all; simpl; now apply receiveChat_known.
  - intros uuid now txt type. unfold logIds.
    rewrite sendMessage_messages, List.map_app. reflexivity.
Qed.

(** C2, as stated, fails for the local send: the id drawn is already in the
    log, and the log gains a second entry with it. *)
Lemma local_send_repeats_id :
  let w := guestWith [] in
  let w' := sendMessage "m1" 11 "again" USER w in
  logIds w = ["m1"] /\ logIds w' = ["m1"; "m1"] /\
  messages w' <> messages w /\ ~ List.NoDup (logIds w').
Proof.
  split; [reflexivity |]. split; [reflexivity |]. split.
  - vm_compute. discriminate.
  - vm_compute. intros H. apply NoDup_cons_iff in H as [H _].
    apply H. now left.
Qed.

Lemma log_one_entry_per_id_witness :
  let evs := [UiSend "u1" 1 "hi" USER;
              LinkData annConn (CHAT (helloMessage []));
              LinkData bobConn (CHAT (helloMessage []))] in
  List.NoDup (logIds (run moderatedRoom evs)) /\
  logIds (run moderatedRoom evs) = ["u1"; "m1"].
Proof.
  intros evs. split; [| vm_compute; reflexivity].
  refine (proj1 (log_one_entry_per_id moderatedRoom evs _ _)).
  - vm_compute. apply List.NoDup_nil.
  - vm_compute. repeat split. intros [].
Defined.

(** ** A banned identity stays out of the directory broadcasts *)

Lemma obj_keys_set {A} k k' (v : A) o :
  In k (obj_keys (obj_set k' v o)) <-> k = k' \/ In k (obj_keys o).
Proof.
  unfold obj_keys. induction o as [| [k0 v0] rest IH]; simpl.
  - intuition congruence.
  - destruct (String.eqb k0 k') eqn:E; simpl.
    + apply String.eqb_eq in E. subst k0. intuition congruence.
    + rewrite IH. tauto.
Qed.

Lemma obj_keys_delete {A} k k' (o : list (string * A)) :
  In k (obj_keys (obj_delete k' o)) -> In k (obj_keys o).
Proof.
  unfold obj_keys, obj_delete. rewrite !in_map_iff.
  intros (kv & Hk & Hin). apply filter_In in Hin as [Hin _]. now exists kv.
Qed.

Lemma pushFallback_ids i acc cid :
  In i (List.map pid (pushFallback acc cid)) ->
  In i (List.map pid acc) \/ i = cid.
Proof.
  unfold pushFallback. destruct (existsb _ acc); [now left |].
  rewrite List.map_app, in_app_iff. simpl. intuition.
Qed.

Lemma reconcile_ids me keys ps i :
  In i (List.map pid (reconcile me keys ps)) -> i = me \/ In i keys.
Proof.
  unfold reconcile.
  set (kept := List.filter _ ps).
  assert (Hkept : forall j, In j (List.map pid kept) -> j = me \/ In j keys).
  { intros j Hj. apply in_map_iff in Hj as (p & <- & Hp).
    apply filter_In in Hp as [_ Hp]. simpl in Hp.
    apply orb_true_iff in Hp as [Hp | Hp].
    - left. now apply String.eqb_eq.
    - right. apply existsb_exists in Hp as (k & Hk & Heq).
      apply String.eqb_eq in Heq. now subst. }
  assert (Hgen : forall ks acc,
             (forall j, In j (List.map pid acc) -> j = me \/ In j keys) ->
             (forall k, In k ks -> In k keys) ->
             forall j, In j (List.map pid (fold_left pushFallback ks acc)) ->
                       j = me \/ In j keys).
  { induction ks as [| k ks IH]; intros acc Hacc Hsub j Hj; simpl in Hj.
    - now apply Hacc.
    - apply (IH (pushFallback acc k)); [| | exact Hj].
      + intros j' Hj'. apply pushFallback_ids in Hj' as [Hj' | ->].
        * now apply Hacc.
        * right. apply Hsub. now left.
      + intros k' Hk'. apply Hsub. now right. }
  apply (Hgen keys kept Hkept). auto.
Qed.

Lemma amHost_myId w : amHost w = true -> myId w = Some (hostPeerId w).
Proof.
  unfold amHost. destruct (myId w) as [i |]; [| discriminate].
  intros H. apply String.eqb_eq in H. now subst.
Qed.

(** The identity [t] that is kept out is fixed. *)
Section KeptOut.

Variable t : string.

Lemma staysOut_refl w : keptOut t w -> staysOut t w w.
Proof.
  intros H. split; [exact H |]. exists []. split; [now rewrite app_nil_r |].
  intros c l [].
Qed.

Lemma staysOut_trans w1 w2 w3 :
  staysOut t w1 w2 -> staysOut t w2 w3 -> staysOut t w1 w3.
Proof.
  intros (_ & n1 & H1 & N1) (K & n2 & H2 & N2). split; [exact K |].
  exists (n1 ++ n2). split; [now rewrite H2, H1, app_assoc |].
  intros c l Hin. apply in_app_or in Hin as [Hin | Hin]; eauto.
Qed.

Lemma neverListed_sendAll w keep d :
  (forall l, d = SYNC_PARTICIPANTS l -> ~ In t (List.map pid l)) ->
  neverListed t (sendAll w keep d).
Proof.
  intros Hd c l Hin. apply sendAll_In in Hin as (c' & Heq & _).
  injection Heq as _ Heq. now apply Hd.
Qed.

Lemma neverListed_kick c reason : neverListed t (kickEffects c reason).
Proof. intros c' l [H | [H | []]]; discriminate H. Qed.

Ltac grows_by :=
  eexists; split; [reflexivity |].

Lemma broadcastParticipantList_staysOut w :
  keptOut t w -> staysOut t w (broadcastParticipantList w).
Proof.
  intros K. unfold broadcastParticipantList.
  destruct (myId w) as [me |] eqn:Eme; [| now apply staysOut_refl].
  destruct me as [| a rest]; [now apply staysOut_refl |].
  set (me := String a rest) in *.
  split; [exact K |]. grows_by.
  apply neverListed_sendAll. intros l Hl. injection Hl as <-.
  intros Hin. apply reconcile_ids in Hin.
  destruct K as [K | (Hh & _ & Hk & Hne)].
  - unfold myId in Eme. rewrite K in Eme. discriminate.
  - apply amHost_myId in Hh. rewrite Hh in Eme. injection Eme as <-.
    destruct Hin as [Hin | Hin]; [now apply Hne | now apply Hk].
Qed.

Lemma broadcastData_staysOut d x w :
  keptOut t w -> replicable d = true -> staysOut t w (broadcastData d x w).
Proof.
  intros K Hd. split; [exact K |]. grows_by.
  apply neverListed_sendAll. intros l ->. discriminate Hd.
Qed.

Lemma cleanup_staysOut w : staysOut t w (cleanup w).
Proof.
  unfold cleanup. destruct (peerInstance w) eqn:E.
  - split; [now left |]. grows_by. intros c l [H | []]. discriminate H.
  - split; [left; exact E |]. exists []. split; [simpl; now rewrite app_nil_r |].
    intros c l [].
Qed.

Lemma kickIfOpen_staysOut conn reason w :
  keptOut t w -> staysOut t w (kickIfOpen conn reason w).
Proof.
  intros K. unfold kickIfOpen.
  destruct conn as [c |]; [| now apply staysOut_refl].
  destruct (conn_open w c); [| now apply staysOut_refl].
  split; [exact K |]. grows_by. apply neverListed_kick.
Qed.

Lemma executeAdminAction_staysOut action target w :
  keptOut t w -> staysOut t w (executeAdminAction action target w).
Proof.
  intros K. unfold executeAdminAction.
  destruct (amHost w) eqn:Eh; simpl; [| now apply staysOut_refl].
  destruct (String.eqb action "PROMOTE").
  { split; [exact K |]. grows_by. intros c l [H | []]. discriminate H. }
  destruct (String.eqb action "DEMOTE").
  { split; [exact K |]. grows_by. intros c l [H | []]. discriminate H. }
  destruct (String.eqb action "KICK"); [now apply kickIfOpen_staysOut |].
  destruct (String.eqb action "BAN"); [| now apply staysOut_refl].
  set (w1 := upd_bannedPeersRef _ w).
  assert (K1 : keptOut t w1).
  { destruct K as [K | (Hh & Hb & Hk & Hne)]; [now left | right].
    repeat split; try assumption. unfold w1. simpl.
    apply elem_of_union. now left. }
  destruct (kickIfOpen_staysOut (obj_get target (connectionsRef w))
              "You have been banned from this room." w1 K1) as (K2 & new & Ho & Hn).
  split; [exact K2 |]. exists new. split; [exact Ho | exact Hn].
Qed.

Lemma relayIfHost_staysOut d conn w0 w :
  keptOut t w -> outbox w = outbox w0 -> replicable d = true ->
  staysOut t w0 (relayIfHost d conn w).
Proof.
  intros K Ho Hd. unfold relayIfHost. destruct (amHost w).
  - destruct (broadcastData_staysOut d (Some (peer conn)) w K Hd)
      as (K' & new & Hnew & Hn).
    split; [exact K' |]. exists new. split; [now rewrite Hnew, Ho | exact Hn].
  - split; [exact K |]. exists []. split; [now rewrite app_nil_r |].
    intros c l [].
Qed.

Lemma on_data_staysOut directory conn d w :
  keptOut t w -> staysOut t w (on_data directory conn d w).
Proof.
  intros K. destruct d as [m | ps | p | u b | r | a |].
  - apply relayIfHost_staysOut; [exact K | reflexivity | reflexivity].
  - apply staysOut_refl in K. exact K.
  - apply relayIfHost_staysOut; [exact K | reflexivity | reflexivity].
  - apply relayIfHost_staysOut; [exact K | reflexivity | reflexivity].
  - exact (cleanup_staysOut (upd_kickReason _ w)).
  - destruct (on_data_admin directory conn a w) as [-> | ->].
    + now apply staysOut_refl.
    + now apply executeAdminAction_staysOut.
  - now apply staysOut_refl.
Qed.

Lemma on_open_staysOut conn w : keptOut t w -> staysOut t w (on_open conn w).
Proof.
  intros K. unfold on_open.
  set (w1 := addParticipant _ _ w).
  assert (K1 : keptOut t w1) by exact K.
  destruct (amHost w1).
  - destruct (broadcastParticipantList_staysOut w1 K1) as (K2 & new & Ho & Hn).
    split; [exact K2 |]. exists new. split; [exact Ho | exact Hn].
  - apply staysOut_refl in K1. exact K1.
Qed.

Lemma on_close_staysOut conn w : keptOut t w -> staysOut t w (on_close conn w).
Proof.
  intros K. unfold on_close.
  set (w1 := upd_connectionsRef _ w).
  assert (K1 : keptOut t w1).
  { destruct K as [K | (Hh & Hb & Hk & Hne)]; [now left | right].
    repeat split; try assumption. intros Hin. apply Hk.
    unfold w1 in Hin. simpl in Hin. now apply obj_keys_delete in Hin. }
  destruct (amHost w1).
  - destruct (broadcastParticipantList_staysOut w1 K1) as (K2 & new & Ho & Hn).
    split; [exact K2 |]. exists new. split; [exact Ho | exact Hn].
  - assert (K2 : keptOut t (removeParticipant (peer conn) w1)) by exact K1.
    apply staysOut_refl in K2. exact K2.
Qed.

Lemma listen_staysOut c e w l : keptOut t w -> staysOut t w (listen c e w l).
Proof.
  intros K. destruct l as [| scope], e as [| d |]; simpl;
    try (now apply staysOut_refl).
  - split; [exact K |]. grows_by. apply neverListed_kick.
  - now apply on_open_staysOut.
  - now apply on_data_staysOut.
  - now apply on_close_staysOut.
Qed.

Lemma fold_listen_staysOut c e ls : forall w,
  keptOut t w -> staysOut t w (fold_left (listen c e) ls w).
Proof.
  induction ls as [| l ls IH]; intros w K; simpl.
  - now apply staysOut_refl.
  - pose proof (listen_staysOut c e w l K) as H1.
    apply (staysOut_trans w _ _ H1). apply IH. exact (proj1 H1).
Qed.

Lemma emit_staysOut c e w0 w :
  keptOut t w -> outbox w = outbox w0 -> staysOut t w0 (emit c e w).
Proof.
  intros K Ho. destruct (fold_listen_staysOut c e
                           (default [] (listeners w !! connId c)) w K)
    as (K' & new & Hnew & Hn).
  split; [exact K' |]. exists new. split; [now rewrite <- Ho | exact Hn].
Qed.

Lemma handleDataConnection_staysOut scope c w :
  keptOut t w -> staysOut t w (handleDataConnection scope c w).
Proof.
  intros K. unfold handleDataConnection.
  destruct (amHost w && bool_decide (peer c ∈ bannedPeersRef w)) eqn:E.
  - assert (K1 : keptOut t (attach c Rejecting w)) by exact K.
    apply staysOut_refl in K1. exact K1.
  - set (w1 := attach c (Serving scope) _).
    assert (K1 : keptOut t w1).
    { destruct K as [K | (Hh & Hb & Hk & Hne)]; [now left | right].
      repeat split; try assumption. unfold w1. simpl. intros Hin.
      apply obj_keys_set in Hin as [-> | Hin]; [| now apply Hk].
      rewrite Hh in E. simpl in E.
      apply bool_decide_eq_false in E. contradiction. }
    apply staysOut_refl in K1. exact K1.
Qed.

Lemma triggerAction_staysOut action target w :
  keptOut t w -> staysOut t w (triggerAction action target w).
Proof.
  intros K. unfold triggerAction.
  destruct (isHost w); [now apply executeAdminAction_staysOut |].
  destruct (obj_get _ _) as [hc |]; [| now apply staysOut_refl].
  destruct (conn_open w hc); [| now apply staysOut_refl].
  split; [exact K |]. grows_by. intros c l [H | []]. discriminate H.
Qed.

Lemma handleReaction_staysOut updater messageId em w :
  keptOut t w -> staysOut t w (handleReaction updater messageId em w).
Proof.
  intros K. unfold handleReaction.
  destruct (toggleReaction _ _ _ _ _) as [act log].
  apply (broadcastData_staysOut _ None (upd_messages (fun _ => log) w) K).
  reflexivity.
Qed.

Lemma step_staysOut w ev : keptOut t w -> staysOut t w (step w ev).
Proof.
  intros K. destruct ev as [scope c | c | c d | c | tk | a target
                           | uuid now txt type | updater messageId em | b]; simpl.
  - now apply handleDataConnection_staysOut.
  - apply emit_staysOut; [exact K | reflexivity].
  - apply emit_staysOut; [exact K | reflexivity].
  - apply emit_staysOut; [exact K | reflexivity].
  - destruct tk as [c |]; simpl.
    + apply emit_staysOut; [exact K | reflexivity].
    + now apply broadcastParticipantList_staysOut.
  - now apply triggerAction_staysOut.
  - apply (broadcastData_staysOut _ None (upd_messages _ w) K). reflexivity.
  - now apply handleReaction_staysOut.
  - apply (broadcastData_staysOut _ None w K). reflexivity.
Qed.

Lemma run_staysOut evs : forall w, keptOut t w -> staysOut t w (run w evs).
Proof.
  induction evs as [| ev rest IH]; intros w K; simpl.
  - now apply staysOut_refl.
  - pose proof (step_staysOut w ev K) as H1.
    apply (staysOut_trans w _ _ H1). apply IH. exact (proj1 H1).
Qed.

End KeptOut.

(** C3 (amended). On the Host, a connection that arrives from a banned
    identity is not put into the registry and its identity is not put into
    the directory; when that link opens, the Host sends KICKED with the
    banned reason on it and sets the timer that closes it, and nothing else
    happens; when the timer fires the link is closed, registry and directory
    still as they were.  A SYNC_PARTICIPANTS payload lists only the Host and the keys
    of the registry: if no earlier link of the identity is registered when
    it is turned away, no broadcast made afterwards lists it, whatever
    events follow. *)
Theorem banned_peer_is_turned_away (scope : list Participant) (conn : Conn)
  (w : World) (evs : list Event) :
  amHost w = true -> peer conn ∈ bannedPeersRef w ->
  listeners w !! connId conn = None ->
  let w1 := handleDataConnection scope conn w in
  connectionsRef w1 = connectionsRef w /\
  participants w1 = participants w /\
  outbox w1 = outbox w /\
  step w1 (LinkOpen conn) =
    push [Send conn (KICKED (Some bannedReason));
          SetTimeout (CloseConn conn) 500]
         (upd_linkOpen (fun s => s ∪ {[connId conn]}) w1) /\
  (let w2 := runTask (CloseConn conn) (step w1 (LinkOpen conn)) in
   (connId conn ∉ linkOpen w2) /\ connectionsRef w2 = connectionsRef w /\
   participants w2 = participants w) /\
  (~ In (peer conn) (obj_keys (connectionsRef w)) ->
   peer conn <> hostPeerId w ->
   forall c l,
     In (Send c (SYNC_PARTICIPANTS l)) (outbox (run w1 evs)) ->
     In (Send c (SYNC_PARTICIPANTS l)) (outbox w) \/
     ~ In (peer conn) (List.map pid l)).
Proof.
  intros Hhost Hban Hfresh w1.
  assert (Hw1 : w1 = attach conn Rejecting w).
  { unfold w1, handleDataConnection. rewrite Hhost.
    now rewrite bool_decide_eq_true_2 by exact Hban. }
  rewrite Hw1. split; [reflexivity |]. split; [reflexivity |].
  split; [reflexivity |].
  assert (Hopen : step (attach conn Rejecting w) (LinkOpen conn) =
                  push [Send conn (KICKED (Some bannedReason));
                        SetTimeout (CloseConn conn) 500]
                       (upd_linkOpen (fun s => s ∪ {[connId conn]})
                                     (attach conn Rejecting w))).
  { unfold step, emit. simpl. rewrite Hfresh. simpl.
    rewrite lookup_insert_eq. reflexivity. }
  split; [exact Hopen |]. split.
  - rewrite Hopen. unfold runTask, closeLink, emit. simpl.
    rewrite Hfresh. simpl. rewrite lookup_insert_eq. simpl.
    split; [| split; reflexivity].
    rewrite elem_of_difference, elem_of_singleton. tauto.
  - intros Hreg Hne c l Hin.
    assert (K : keptOut (peer conn) (attach conn Rejecting w)).
    { right. repeat split; assumption. }
    destruct (run_staysOut (peer conn) evs _ K) as (_ & new & Ho & Hn).
    rewrite Ho in Hin. apply in_app_or in Hin as [Hin | Hin].
    + left. exact Hin.
    + right. now apply (Hn c l).
Qed.

Ltac find_in_list := repeat first [left; reflexivity | right].

(** C3, as stated, fails: the Host bans a guest whose link is still in the
    registry until the closing timer fires.  A second link of the banned
    identity is turned away with KICKED, and the directory the Host then
    broadcasts to a newcomer still lists the banned identity. *)
Lemma banned_peer_still_listed :
  amHost bobBanned = true /\ "bob0-77" ∈ bannedPeersRef bobBanned /\
  let w := run bobBanned [Connection [] bobAgain; LinkOpen bobAgain;
                          Connection [] danConn; LinkOpen danConn] in
  In (Send bobAgain (KICKED (Some bannedReason))) (outbox w) /\
  exists l,
    In (Send danConn (SYNC_PARTICIPANTS l)) (outbox w) /\
    ~ In (Send danConn (SYNC_PARTICIPANTS l)) (outbox bobBanned) /\
    In "bob0-77" (List.map pid l).
Proof.
  split; [vm_compute; reflexivity |]. split.
  { apply (bool_decide_eq_true_1 _). vm_compute. reflexivity. }
  split.
  { vm_compute. find_in_list. }
  exists [mkParticipant roomHost "Host" HOST true;
          mkParticipant "bob0-77" "User bob0" GUEST false;
          mkParticipant "dan0-03" "User dan0" GUEST false].
  split; [vm_compute; find_in_list |]. split.
  - vm_compute. intuition discriminate.
  - vm_compute. find_in_list.
Qed.

Lemma banned_peer_is_turned_away_witness :
  connectionsRef (handleDataConnection [] bobAgain bobGone) =
  connectionsRef bobGone /\
  forall c l,
    In (Send c (SYNC_PARTICIPANTS l))
       (outbox (run (handleDataConnection [] bobAgain bobGone)
                    [LinkOpen bobAgain; Connection [] danConn;
                     LinkOpen danConn])) ->
    In (Send c (SYNC_PARTICIPANTS l)) (outbox bobGone) \/
    ~ In "bob0-77" (List.map pid l).
Proof.
  assert (Hhost : amHost bobGone = true) by (vm_compute; reflexivity).
  assert (Hban : peer bobAgain ∈ bannedPeersRef bobGone).
  { apply (bool_decide_eq_true_1 _). vm_compute. reflexivity. }
  assert (Hnew : listeners bobGone !! connId bobAgain = None)
    by (vm_compute; reflexivity).
  pose proof (banned_peer_is_turned_away [] bobAgain bobGone
                [LinkOpen bobAgain; Connection [] danConn; LinkOpen danConn]
                Hhost Hban Hnew) as (Hreg & _ & _ & _ & _ & Hnever).
  split; [exact Hreg |].
  apply Hnever.
  - vm_compute. intros [].
  - discriminate.
Defined.

(** ** Reactions: the action that travels *)

Lemma ids_distinct_same_entry log (m1 m2 : ChatMessage) :
  List.NoDup (List.map msg_id log) -> In m1 log -> In m2 log ->
  msg_id m1 = msg_id m2 -> m1 = m2.
Proof.
  induction log as [| m rest IH]; simpl; intros Hd H1 H2 Hid; [contradiction |].
  apply NoDup_cons_iff in Hd as [Hfresh Hd].
  destruct H1 as [<- | H1], H2 as [<- | H2].
  - reflexivity.
  - exfalso. apply Hfresh. rewrite Hid. now apply in_map.
  - exfalso. apply Hfresh. rewrite <- Hid. now apply in_map.
  - now apply IH.
Qed.

Lemma handleReaction_outbox updater messageId em w :
  exists act,
    outbox (handleReaction updater messageId em w) =
    outbox w ++
    sendAll w (fun c => conn_open w c && negb false)
            (REACTION (mkReactionPayload messageId em (peerId w)
                         (nameOr "User" w) (action_string act))) /\
    (updater = AtRender -> act = add).
Proof.
  unfold handleReaction.
  destruct (toggleReaction messageId em (peerId w) (nameOr "User" w) (messages w))
    as [act log].
  destruct updater; [exists act | exists add]; (split; [reflexivity |]).
  - discriminate.
  - reflexivity.
Qed.

(** C7, at the failing input.  The sender's reaction is on the addressed
    message, the log has one entry per id, and React runs the updater of
    [handleReaction] at the next render.  The local log loses the reaction,
    yet every open connection of the registry is sent the action ['add'],
    never ['remove']; a receiver that holds the same log applies that
    payload and keeps the reaction. *)
Theorem handleReaction_stale_action (w : World) (messageId em : string)
  (c : Conn) :
  List.NoDup (logIds w) ->
  hadReaction (messages w) messageId (peerId w) em ->
  In c (obj_values (connectionsRef w)) -> conn_open w c = true ->
  let w' := handleReaction AtRender messageId em w in
  let sent :=
    mkReactionPayload messageId em (peerId w) (nameOr "User" w) "add" in
  ~ hadReaction (messages w') messageId (peerId w) em /\
  In (Send c (REACTION sent)) (outbox w') /\
  (forall x, In (Send c (REACTION x)) (outbox w') ->
             In (Send c (REACTION x)) (outbox w) \/ rp_action x = "add") /\
  receiveReaction sent (messages w) = messages w.
Proof.
  intros Hnd (m0 & Hm0 & Hid0 & Hk0) Hc Ho w' sent.
  assert (Huniq : forall m, In m (messages w) -> msg_id m = messageId -> m = m0).
  { intros m Hm Hid. apply (ids_distinct_same_entry (messages w)); try assumption.
    congruence. }
  assert (Hhas : existsb (same_reaction (peerId w) em) (reactions m0) = true)
    by now apply has_reaction_key.
  assert (Heq0 : String.eqb (msg_id m0) messageId = true)
    by now apply String.eqb_eq.
  destruct (handleReaction_outbox AtRender messageId em w) as (act & Hout & Hact).
  rewrite (Hact eq_refl) in Hout. fold sent in Hout. fold w' in Hout.
  split; [| split; [| split]].
  - intros (m' & Hm' & Hid' & Hk'). unfold w' in Hm'.
    rewrite handleReaction_messages in Hm'.
    apply in_map_iff in Hm' as (m & <- & Hm).
    rewrite toggleMsg_id in Hid'. rewrite (Huniq m Hm Hid') in Hk'.
    unfold toggleMsg, toggleOne in Hk'. rewrite Heq0, Hhas in Hk'.
    cbn [snd reactions with_reactions] in Hk'.
    apply keys_filter_out in Hk' as [_ Hne]. now apply Hne.
  - rewrite Hout. apply in_or_app. right. apply sendAll_In.
    exists c. split; [reflexivity |]. split; [exact Hc |].
    now rewrite Ho.
  - intros x Hx. rewrite Hout in Hx.
    apply in_app_or in Hx as [Hx | Hx]; [now left | right].
    apply sendAll_In in Hx as (c' & Heq & _). injection Heq as _ ->.
    reflexivity.
  - unfold receiveReaction. apply map_unchanged. intros m Hm.
    cbn [rp_messageId sent].
    destruct (String.eqb (msg_id m) messageId) eqn:E; [| reflexivity].
    apply String.eqb_eq in E. rewrite (Huniq m Hm E).
    unfold receiveReactionList.
    cbn [rp_action rp_senderId rp_emoji sent]. rewrite Hhas.
    cbn. apply with_reactions_same.
Qed.

(** Bob takes his reaction back while an update of the room is pending: his
    log loses it, the Host is told ['add'] and keeps it. *)
Lemma handleReaction_stale_action_witness :
  let w' := handleReaction AtRender "m1" "+1" reactingGuest in
  let sent := mkReactionPayload "m1" "+1" "bob0-77" "User bob0" "add" in
  messages reactingGuest = [helloMessage [thumbsOfBob]] /\
  messages w' = [helloMessage []] /\
  ~ hadReaction (messages w') "m1" "bob0-77" "+1" /\
  In (Send hostLink (REACTION sent)) (outbox w') /\
  receiveReaction sent [helloMessage [thumbsOfBob]] =
  [helloMessage [thumbsOfBob]].
Proof.
  intros w' sent.
  assert (Hnd : List.NoDup (logIds reactingGuest)) by (vm_compute; distinct_strings).
  assert (Hhad : hadReaction (messages reactingGuest) "m1"
                             (peerId reactingGuest) "+1").
  { exists (helloMessage [thumbsOfBob]).
    split; [vm_compute; now left |]. split; [reflexivity |].
    vm_compute. now left. }
  assert (Hin : In hostLink (obj_values (connectionsRef reactingGuest)))
    by (vm_compute; now left).
  assert (Hopen : conn_open reactingGuest hostLink = true)
    by (vm_compute; reflexivity).
  pose proof (handleReaction_stale_action reactingGuest "m1" "+1" hostLink
                Hnd Hhad Hin Hopen) as (Hgone & Hsent & _ & Hkeep).
  split; [vm_compute; reflexivity |]. split; [vm_compute; reflexivity |].
  split; [exact Hgone |]. split; [exact Hsent |]. exact Hkeep.
Defined.

(** ** Moderation: the directory that the data listener reads *)

Lemma step_listeners w ev :
  (forall scope c, ev <> Connection scope c) ->
  listeners (step w ev) = listeners w.
Proof.
  intros Hev.
  destruct ev as [scope c | c | c d | c | tk | a target
                 | uuid now txt type | updater messageId em | b].
  - exfalso. now apply (Hev scope c).
  - unfold step. now rewrite emit_listeners.
  - unfold step. now rewrite emit_listeners.
  - unfold step, closeLink. now rewrite emit_listeners.
  - destruct tk as [c |]; unfold step, runTask, closeLink.
    + now rewrite emit_listeners.
    + open_handlers. case_all; reflexivity.
  - unfold step, triggerAction.
    destruct (isHost w); [apply executeAdminAction_listeners |].
    case_all; reflexivity.
  - reflexivity.
  - unfold step, handleReaction. destruct (toggleReaction _ _ _ _ _).
    reflexivity.
  - reflexivity.
Qed.

Lemma step_mountListeners w ev :
  mountEvent ev -> mountListeners w -> mountListeners (step w ev).
Proof.
  intros Hev Hw.
  destruct ev as [scope c | | | | | | | |];
    try (unfold mountListeners; rewrite step_listeners by discriminate;
         exact Hw).
  simpl in Hev. subst scope. unfold step, handleDataConnection.
  assert (Hatt : forall l w1, listeners w1 = listeners w ->
                   l = Rejecting \/ l = Serving initialParticipants ->
                   mountListeners (attach c l w1)).
  { intros l w1 Hl Hgood k ls l0. unfold attach. cbn [listeners upd_listeners].
    rewrite Hl. destruct (decide (k = connId c)) as [-> | Hne].
    - rewrite lookup_insert_eq. intros Heq Hin. injection Heq as <-.
      apply in_app_or in Hin as [Hin | [<- | []]]; [| exact Hgood].
      destruct (listeners w !! connId c) as [old |] eqn:E; [| destruct Hin].
      exact (Hw _ _ _ E Hin).
    - rewrite lookup_insert_ne by congruence. apply Hw. }
  destruct (amHost w && bool_decide (peer c ∈ bannedPeersRef w)).
  - apply Hatt; [reflexivity | now left].
  - apply Hatt; [reflexivity | now right].
Qed.

Lemma run_mountListeners evs : forall w,
  Forall mountEvent evs -> mountListeners w -> mountListeners (run w evs).
Proof.
  induction evs as [| ev evs IH]; intros w Hevs Hw; [exact Hw |].
  inversion Hevs as [| ? ? Hev Hrest]; subst.
  apply (IH (step w ev) Hrest). now apply step_mountListeners.
Qed.

Lemma mount_listener_drops_request c payload w l :
  l = Rejecting \/ l = Serving initialParticipants ->
  listen c (EvData (ADMIN_REQUEST payload)) w l = w.
Proof.
  intros [-> | ->]; [reflexivity |].
  unfold listen. apply empty_scope_drops_every_request.
Qed.

(** C1, at the failing input.  In a session whose connections are taken by
    the handlers of the mount effect, the data listeners read the directory
    of the first render, which is empty: an ADMIN_REQUEST, whoever sends it
    and whatever the directory of the Host says by then, leaves the world of
    the Host as it was.  The same listener reading the current directory
    would execute every request that passes the four checks. *)
Theorem admin_request_reads_first_directory (w0 : World) (evs : list Event)
  (conn : Conn) (payload : AdminPayload) :
  listeners w0 = ∅ -> Forall mountEvent evs ->
  let w := run w0 evs in
  step w (LinkData conn (ADMIN_REQUEST payload)) = w /\
  (amHost w = true ->
   authorized (participants w) (peer conn) (targetId payload) ->
   on_data (participants w) conn (ADMIN_REQUEST payload) w =
   executeAdminAction (action payload) (targetId payload) w) /\
  (amHost w = true -> action payload = "KICK" ->
   forall c, obj_get (targetId payload) (connectionsRef w) = Some c ->
             conn_open w c = true ->
             outbox (executeAdminAction (action payload) (targetId payload) w) =
             outbox w ++
             [Send c (KICKED (Some "You have been kicked by an admin."));
              SetTimeout (CloseConn c) 500]).
Proof.
  intros Hstart Hevs w. split; [| split].
  - assert (Hw : mountListeners w).
    { apply run_mountListeners; [exact Hevs |].
      intros k ls l Hk. rewrite Hstart in Hk. discriminate Hk. }
    unfold step, emit.
    destruct (listeners w !! connId conn) as [ls |] eqn:E; [| reflexivity].
    simpl. pose proof (fun l => Hw _ _ l E) as Hls.
    clear E Hw. induction ls as [| l ls IH]; [reflexivity |].
    simpl. rewrite mount_listener_drops_request by (apply Hls; now left).
    apply IH. intros l0 Hl0. apply Hls. now right.
  - intros Hhost Hauth. simpl. rewrite Hhost.
    destruct (handleAdminRequest_spec (participants w) payload (peer conn) w)
      as [[_ ->] | [Hn _]]; [reflexivity | contradiction].
  - intros Hhost Hact c Hc Hopen. unfold executeAdminAction.
    rewrite Hhost, Hact, Hc. cbn [negb String.eqb Ascii.eqb Bool.eqb].
    unfold kickIfOpen. rewrite Hopen. reflexivity.
Qed.

(** Ann, whom the Host has made a manager, asks for the kick of the guest
    bob: nothing happens, although the directory of the Host authorizes her
    and the action, once executed, would send KICKED to bob. *)
Lemma admin_request_reads_first_directory_witness :
  let request := ADMIN_REQUEST (mkAdminPayload "KICK" "bob0-77") in
  let kicked := Send bobConn (KICKED (Some "You have been kicked by an admin.")) in
  lookupRole (participants annPromoted) "ann0-12" = Some MANAGER /\
  lookupRole (participants annPromoted) "bob0-77" = Some GUEST /\
  step annPromoted (LinkData annConn request) = annPromoted /\
  on_data (participants annPromoted) annConn request annPromoted =
  executeAdminAction "KICK" "bob0-77" annPromoted /\
  In kicked (outbox (executeAdminAction "KICK" "bob0-77" annPromoted)) /\
  ~ In kicked (outbox annPromoted).
Proof.
  intros request kicked.
  assert (Hevs : Forall mountEvent
                   [Connection initialParticipants annConn; LinkOpen annConn;
                    Connection initialParticipants bobConn; LinkOpen bobConn;
                    UiTrigger "PROMOTE" "ann0-12";
                    TimerFires RunBroadcastParticipantList])
    by (repeat constructor).
  pose proof (admin_request_reads_first_directory hostWorld _ annConn
                (mkAdminPayload "KICK" "bob0-77") eq_refl Hevs)
    as (Hdrop & Hwould & Hkick).
  split; [vm_compute; reflexivity |]. split; [vm_compute; reflexivity |].
  split; [exact Hdrop |]. split.
  - apply Hwould; [vm_compute; reflexivity |].
    exists MANAGER, GUEST. split; [vm_compute; reflexivity |].
    split; [now left |]. split; [vm_compute; reflexivity |].
    split; [discriminate |]. intros [_ H]. discriminate H.
  - split.
    + pose proof (Hkick ltac:(vm_compute; reflexivity) eq_refl bobConn
                    ltac:(vm_compute; reflexivity) ltac:(vm_compute; reflexivity))
        as Hk.
      change (outbox (executeAdminAction "KICK" "bob0-77" annPromoted) =
              outbox annPromoted ++ [kicked; SetTimeout (CloseConn bobConn) 500])
        in Hk.
      rewrite Hk. apply in_or_app. right. now left.
    + vm_compute. intuition discriminate.
Defined.

(** * Further properties *)

(** ** The directory the Host broadcasts *)

Lemma pushFallback_keeps acc cid p :
  In p acc -> In p (pushFallback acc cid).
Proof.
  unfold pushFallback. destruct (existsb _ acc); [tauto |].
  intros H. apply in_or_app. now left.
Qed.

Lemma pushFallback_covers acc cid :
  In cid (directoryIds (pushFallback acc cid)).
Proof.
  unfold pushFallback, directoryIds.
  destruct (existsb (has_pid cid) acc) eqn:E.
  - apply existsb_exists in E as (p & Hp & Hid).
    apply String.eqb_eq in Hid. apply in_map_iff. now exists p.
  - rewrite List.map_app. apply in_or_app. right. now left.
Qed.

Lemma fold_pushFallback_keeps ks : forall acc p,
  In p acc -> In p (fold_left pushFallback ks acc).
Proof.
  induction ks as [| k ks IH]; intros acc p H; simpl; [exact H |].
  apply IH. now apply pushFallback_keeps.
Qed.

Lemma fold_pushFallback_covers ks : forall acc k,
  In k ks -> In k (directoryIds (fold_left pushFallback ks acc)).
Proof.
  induction ks as [| k0 ks IH]; intros acc k H; [destruct H |].
  destruct H as [-> | H]; simpl.
  - pose proof (pushFallback_covers acc k) as Hc.
    apply in_map_iff in Hc as (p & Hid & Hp).
    apply in_map_iff. exists p. split; [exact Hid |].
    now apply fold_pushFallback_keeps.
  - now apply IH.
Qed.

Lemma fold_pushFallback_origin ks : forall acc p,
  In p (fold_left pushFallback ks acc) ->
  In p acc \/ (p = fallbackParticipant (pid p) /\ In (pid p) ks /\
               ~ In (pid p) (directoryIds acc)).
Proof.
  induction ks as [| k ks IH]; intros acc p H; simpl in H; [now left |].
  apply IH in H as [H | (Hp & Hk & Hn)].
  - unfold pushFallback in H. destruct (existsb (has_pid k) acc) eqn:E;
      [now left |].
    apply in_app_or in H as [H | [<- | []]]; [now left |]. right. simpl.
    split; [reflexivity |]. split; [now left |].
    intros Hin. apply in_map_iff in Hin as (q & Hq & Hin).
    assert (Ht : existsb (has_pid k) acc = true).
    { apply existsb_exists. exists q. split; [exact Hin |].
      now apply String.eqb_eq. }
    congruence.
  - right. split; [exact Hp |]. split; [now right |].
    intros Hin. apply Hn. apply in_map_iff in Hin as (q & Hq & Hin).
    apply in_map_iff. exists q. split; [exact Hq |].
    now apply pushFallback_keeps.
Qed.

Lemma pushFallback_distinct acc cid :
  List.NoDup (directoryIds acc) ->
  List.NoDup (directoryIds (pushFallback acc cid)).
Proof.
  intros H. unfold pushFallback. destruct (existsb (has_pid cid) acc) eqn:E;
    [exact H |].
  assert (Hn : ~ In cid (directoryIds acc)).
  { intros Hin. apply in_map_iff in Hin as (q & Hq & Hin).
    assert (Ht : existsb (has_pid cid) acc = true).
    { apply existsb_exists. exists q. split; [exact Hin |].
      now apply String.eqb_eq. }
    congruence. }
  unfold directoryIds in *. rewrite List.map_app. simpl. clear E.
  induction (List.map pid acc) as [| k ks IH]; simpl.
  - apply List.NoDup_cons; [intros [] | apply List.NoDup_nil].
  - apply NoDup_cons_iff in H as [Hk Hks]. apply List.NoDup_cons.
    + intros Hin. apply in_app_or in Hin as [Hin | [Heq | []]];
        [now apply Hk | apply Hn; left; now symmetry].
    + apply IH; [exact Hks |]. intros Hin. apply Hn. now right.
Qed.

Lemma filter_ids_distinct (f : Participant -> bool) ps :
  List.NoDup (directoryIds ps) -> List.NoDup (directoryIds (List.filter f ps)).
Proof.
  unfold directoryIds. induction ps as [| p ps IH]; simpl; intros H;
    [exact H |].
  apply NoDup_cons_iff in H as [Hn Hd]. destruct (f p); simpl.
  - apply List.NoDup_cons; [| now apply IH].
    intros Hin. apply Hn. apply in_map_iff in Hin as (q & Hq & Hin).
    apply filter_In in Hin as [Hin _]. apply in_map_iff. now exists q.
  - now apply IH.
Qed.

Lemma reconcile_distinct me keys ps :
  List.NoDup (directoryIds ps) -> List.NoDup (directoryIds (reconcile me keys ps)).
Proof.
  intros H. unfold reconcile.
  set (kept := List.filter _ ps).
  assert (Hk : List.NoDup (directoryIds kept)) by now apply filter_ids_distinct.
  clearbody kept. revert kept Hk.
  induction keys as [| k ks IH]; intros kept Hk; simpl; [exact Hk |].
  apply IH. now apply pushFallback_distinct.
Qed.

Lemma broadcastParticipantList_reconcile w me :
  myId w = Some me -> me <> EmptyString ->
  participants (broadcastParticipantList w) =
    reconcile me (obj_keys (connectionsRef w)) (participants w) /\
  outbox (broadcastParticipantList w) =
    outbox w ++
    sendAll w (conn_open w)
      (SYNC_PARTICIPANTS (participants (broadcastParticipantList w))).
Proof.
  intros Hme Hne. unfold broadcastParticipantList. rewrite Hme.
  destruct me as [| a rest]; [contradiction |]. split; reflexivity.
Qed.

Lemma broadcastParticipantList_ids (w : World) (me : string) :
  myId w = Some me -> me <> EmptyString ->
  let w' := broadcastParticipantList w in
  (forall k, In k (obj_keys (connectionsRef w)) ->
             In k (directoryIds (participants w'))) /\
  (forall i, In i (directoryIds (participants w')) ->
             i = me \/ In i (obj_keys (connectionsRef w))) /\
  (List.NoDup (directoryIds (participants w)) ->
   List.NoDup (directoryIds (participants w'))).
Proof.
  intros Hme Hne w'.
  destruct (broadcastParticipantList_reconcile w me Hme Hne) as [Hp _].
  unfold w'. rewrite Hp. split; [| split].
  - intros k Hk. unfold reconcile. now apply fold_pushFallback_covers.
  - intros i Hi. now apply reconcile_ids in Hi.
  - apply reconcile_distinct.
Qed.

(** X1. After [broadcastParticipantList] the directory and the registry
    agree: every registered peer id has an entry, every entry is the own id
    or a registered one, and a directory with one entry per id keeps one
    entry per id. *)
Theorem broadcast_directory_matches_registry (w : World) (me : string) :
  myId w = Some me -> me <> EmptyString ->
  let w' := broadcastParticipantList w in
  (forall k, In k (obj_keys (connectionsRef w)) ->
             In k (directoryIds (participants w'))) /\
  (forall i, In i (directoryIds (participants w')) ->
             i = me \/ In i (obj_keys (connectionsRef w))) /\
  (List.NoDup (directoryIds (participants w)) ->
   List.NoDup (directoryIds (participants w'))).
Proof. exact (broadcastParticipantList_ids w me). Qed.

Lemma broadcastParticipantList_entries (w : World) (me : string) :
  myId w = Some me -> me <> EmptyString ->
  let w' := broadcastParticipantList w in
  (forall p, In p (participants w) ->
             pid p = me \/ In (pid p) (obj_keys (connectionsRef w)) ->
             In p (participants w')) /\
  (forall p, In p (participants w') ->
             (In p (participants w) /\
              (pid p = me \/ In (pid p) (obj_keys (connectionsRef w)))) \/
             (p = mkParticipant (pid p) (userName (pid p)) GUEST false /\
              In (pid p) (obj_keys (connectionsRef w)) /\
              ~ In (pid p) (directoryIds (participants w)))).
Proof.
  intros Hme Hne w'.
  destruct (broadcastParticipantList_reconcile w me Hme Hne) as [Hp _].
  unfold w'. rewrite Hp. unfold reconcile.
  set (keys := obj_keys (connectionsRef w)).
  set (kept := List.filter _ (participants w)).
  assert (Hkept : forall p, In p kept <->
                            In p (participants w) /\
                            (pid p = me \/ In (pid p) keys)).
  { intros p. unfold kept. rewrite filter_In. simpl.
    rewrite orb_true_iff, String.eqb_eq, existsb_exists. split.
    - intros (Hin & [-> | (k & Hk & Heq)]); split; auto.
      apply String.eqb_eq in Heq. subst. now right.
    - intros (Hin & [-> | Hk]); split; auto.
      right. exists (pid p). split; [exact Hk | apply String.eqb_refl]. }
  split.
  - intros p Hin Hact. apply fold_pushFallback_keeps. apply Hkept. now split.
  - intros p Hin. apply fold_pushFallback_origin in Hin
      as [Hin | (Hfb & Hk & Hn)].
    + left. now apply Hkept.
    + destruct (in_dec string_dec (pid p) (directoryIds (participants w)))
        as [Hold | Hold].
      * exfalso. apply Hn. apply in_map_iff in Hold as (q & Hq & Hqin).
        apply in_map_iff. exists q. split; [exact Hq |].
        apply Hkept. split; [exact Hqin |]. right. now rewrite Hq.
      * right. split; [exact Hfb |]. now split.
Qed.

(** X2. [broadcastParticipantList] keeps what it knows: the entry of the own
    id and of every registered id stays as it was, name and role; an entry of
    the new directory is such an old entry, or else the default GUEST entry
    ["User " + first four characters] of a registered id that had none. *)
Theorem broadcast_keeps_known_entries (w : World) (me : string) :
  myId w = Some me -> me <> EmptyString ->
  let w' := broadcastParticipantList w in
  (forall p, In p (participants w) ->
             pid p = me \/ In (pid p) (obj_keys (connectionsRef w)) ->
             In p (participants w')) /\
  (forall p, In p (participants w') ->
             (In p (participants w) /\
              (pid p = me \/ In (pid p) (obj_keys (connectionsRef w)))) \/
             (p = mkParticipant (pid p) (userName (pid p)) GUEST false /\
              In (pid p) (obj_keys (connectionsRef w)) /\
              ~ In (pid p) (directoryIds (participants w)))).
Proof. exact (broadcastParticipantList_entries w me). Qed.

(** ** Admission and departure on the Host *)

Lemma obj_get_set_eq {A} k (v : A) o : obj_get k (obj_set k v o) = Some v.
Proof.
  induction o as [| [k0 v0] rest IH]; simpl.
  - now rewrite String.eqb_refl.
  - destruct (String.eqb k0 k) eqn:E; simpl.
    + now rewrite String.eqb_refl.
    + now rewrite E.
Qed.

Lemma obj_get_set_ne {A} k k' (v : A) o :
  k' <> k -> obj_get k' (obj_set k v o) = obj_get k' o.
Proof.
  intros Hne. induction o as [| [k0 v0] rest IH]; simpl.
  - destruct (String.eqb k k') eqn:E; [| reflexivity].
    apply String.eqb_eq in E. congruence.
  - destruct (String.eqb k0 k) eqn:E; simpl.
    + apply String.eqb_eq in E. subst k0.
      destruct (String.eqb k k') eqn:E'; [| reflexivity].
      apply String.eqb_eq in E'. congruence.
    + destruct (String.eqb k0 k'); [reflexivity | exact IH].
Qed.

Lemma obj_set_other {A} k k' (v v' : A) o :
  In (k, v) o -> k <> k' -> In (k, v) (obj_set k' v' o).
Proof.
  intros Hin Hne. induction o as [| [k0 v0] rest IH]; simpl; [destruct Hin |].
  destruct Hin as [Heq | Hin].
  - injection Heq as -> ->.
    destruct (String.eqb k k') eqn:E; [| now left].
    apply String.eqb_eq in E. contradiction.
  - destruct (String.eqb k0 k'); right; [exact Hin | now apply IH].
Qed.

Lemma obj_delete_gone {A} k (o : list (string * A)) :
  ~ In k (obj_keys (obj_delete k o)).
Proof.
  unfold obj_keys, obj_delete. intros Hin.
  apply in_map_iff in Hin as ([k0 v0] & Hk & Hin). simpl in Hk. subst k0.
  apply filter_In in Hin as [_ Hf]. simpl in Hf.
  now rewrite String.eqb_refl in Hf.
Qed.

Lemma obj_delete_other {A} k k' (v : A) o :
  In (k, v) o -> k <> k' -> In (k, v) (obj_delete k' o).
Proof.
  intros Hin Hne. unfold obj_delete. apply filter_In. split; [exact Hin |].
  simpl. apply negb_true_iff. now apply String.eqb_neq.
Qed.

Lemma obj_entry_value {A} k (v : A) o : In (k, v) o -> In v (obj_values o).
Proof. intros H. unfold obj_values. apply in_map_iff. now exists (k, v). Qed.

Lemma addParticipantList_keeps i r ps q :
  In q ps -> pid q <> i -> In q (addParticipantList i r ps).
Proof.
  intros Hin Hne. unfold addParticipantList.
  destruct (List.find (has_pid i) ps) as [existing |].
  - destruct (negb (role_eqb (role existing) r)); [| exact Hin].
    apply in_map_iff. exists q. split; [| exact Hin].
    unfold has_pid. destruct (String.eqb (pid q) i) eqn:E; [| reflexivity].
    apply String.eqb_eq in E. contradiction.
  - apply in_or_app. now left.
Qed.

Lemma addParticipantList_new i r ps :
  ~ In i (directoryIds ps) ->
  addParticipantList i r ps =
  ps ++ [mkParticipant i (match r with HOST => "Host" | _ => userName i end)
                       r (role_eqb r HOST)].
Proof.
  intros Hn. unfold addParticipantList.
  destruct (List.find (has_pid i) ps) as [existing |] eqn:E; [| reflexivity].
  apply find_some in E as [Hin Hid]. apply String.eqb_eq in Hid.
  exfalso. apply Hn. apply in_map_iff. now exists existing.
Qed.

(** X3. A peer that is not banned joins the Host: its connection is
    registered under its id, and when the link opens the Host holds an entry
    for it (a GUEST named ["User " + first four characters] if it was
    unknown) and sends its new directory to the newcomer and on every other
    registered open link; whoever applies that payload holds the directory
    of the Host. *)
Theorem admission_is_broadcast (scope : list Participant) (c : Conn)
  (h : World) :
  amHost h = true -> hostPeerId h <> EmptyString ->
  peer c ∉ bannedPeersRef h -> listeners h !! connId c = None ->
  let h' := run h [Connection scope c; LinkOpen c] in
  obj_get (peer c) (connectionsRef h') = Some c /\
  In (peer c) (directoryIds (participants h')) /\
  In (Send c (SYNC_PARTICIPANTS (participants h'))) (outbox h') /\
  (forall k c', In (k, c') (connectionsRef h) -> k <> peer c ->
                conn_open h c' = true ->
                In (Send c' (SYNC_PARTICIPANTS (participants h'))) (outbox h')) /\
  (~ In (peer c) (directoryIds (participants h)) -> peer c <> hostPeerId h ->
   In (mkParticipant (peer c) (userName (peer c)) GUEST false)
      (participants h')) /\
  (forall scope' conn' receiver,
     participants (on_data scope' conn'
                           (SYNC_PARTICIPANTS (participants h')) receiver) =
     participants h').
Proof.
  intros Hhost Hid Hnb Hfresh h'.
  set (h1 := attach c (Serving scope)
               (upd_connectionsRef (obj_set (peer c) c) h)).
  set (h2 := upd_linkOpen (fun s => s ∪ {[connId c]}) h1).
  set (h3 := addParticipant (peer c)
               (if String.eqb (peer c) (hostPeerId h) then HOST else GUEST) h2).
  assert (Hrun : h' = broadcastParticipantList h3).
  { unfold h', run. cbn [fold_left step].
    unfold handleDataConnection. rewrite Hhost.
    rewrite bool_decide_eq_false_2 by exact Hnb. cbn [andb]. fold h1. fold h2.
    unfold emit.
    assert (Hl : listeners h2 !! connId c = Some [Serving scope]).
    { unfold h2, h1. simpl. rewrite Hfresh. simpl. apply lookup_insert_eq. }
    rewrite Hl. simpl. unfold on_open.
    change (hostPeerId h2) with (hostPeerId h). fold h3.
    change (amHost h3) with (amHost h). now rewrite Hhost. }
  assert (Hme : myId h3 = Some (hostPeerId h)) by exact (amHost_myId h3 Hhost).
  destruct (broadcastParticipantList_reconcile h3 (hostPeerId h) Hme Hid)
    as [Hp Ho].
  destruct (broadcastParticipantList_ids h3 (hostPeerId h) Hme Hid)
    as (Hcover & _ & _).
  destruct (broadcastParticipantList_entries h3 (hostPeerId h) Hme Hid)
    as (Hkeep & _).
  rewrite Hrun.
  assert (Hkey : In (peer c) (obj_keys (connectionsRef h3))).
  { unfold h3, h2, h1. simpl. apply obj_keys_set. now left. }
  assert (Hopen : conn_open h3 c = true).
  { unfold conn_open, h3, h2, h1. simpl. apply bool_decide_eq_true_2.
    apply elem_of_union. right. now apply elem_of_singleton. }
  split; [| split; [| split; [| split; [| split]]]].
  - unfold broadcastParticipantList. rewrite Hme.
    destruct (hostPeerId h); [contradiction |]. simpl. apply obj_get_set_eq.
  - now apply Hcover.
  - rewrite Ho. apply in_or_app. right. apply sendAll_In. exists c.
    split; [reflexivity |]. split; [| exact Hopen].
    unfold h3, h2, h1. simpl. apply (obj_entry_value (peer c)).
    clear. induction (connectionsRef h) as [| [k0 v0] rest IH]; simpl.
    + now left.
    + destruct (String.eqb k0 (peer c)); [now left | now right].
  - intros k c' Hin Hne Hop. rewrite Ho. apply in_or_app. right.
    apply sendAll_In. exists c'. split; [reflexivity |]. split.
    + unfold h3, h2, h1. simpl. apply (obj_entry_value k).
      now apply obj_set_other.
    + unfold conn_open in *. unfold h3, h2, h1. simpl.
      apply bool_decide_eq_true_2. apply bool_decide_eq_true_1 in Hop.
      apply elem_of_union. now left.
  - intros Hnew Hne. apply Hkeep; [| right; exact Hkey].
    unfold h3, addParticipant. simpl.
    destruct (String.eqb (peer c) (hostPeerId h)) eqn:E.
    { apply String.eqb_eq in E. contradiction. }
    rewrite addParticipantList_new by exact Hnew.
    apply in_or_app. right. now left.
  - reflexivity.
Qed.

(** X4. A peer leaves the Host: when its link closes, the Host drops its id
    from the registry and from the directory and sends the smaller directory
    on every other registered open link. *)
Theorem departure_is_broadcast (scope : list Participant) (c : Conn)
  (h : World) :
  amHost h = true -> hostPeerId h <> EmptyString ->
  peer c <> hostPeerId h -> listeners h !! connId c = Some [Serving scope] ->
  let h' := step h (LinkClose c) in
  ~ In (peer c) (obj_keys (connectionsRef h')) /\
  ~ In (peer c) (directoryIds (participants h')) /\
  (connId c ∉ linkOpen h') /\
  (forall k c', In (k, c') (connectionsRef h) -> k <> peer c ->
                connId c' <> connId c -> conn_open h c' = true ->
                In (Send c' (SYNC_PARTICIPANTS (participants h'))) (outbox h')).
Proof.
  intros Hhost Hid Hne Hl h'.
  set (h1 := upd_linkOpen (fun s => s ∖ {[connId c]}) h).
  set (h2 := upd_connectionsRef (obj_delete (peer c)) h1).
  assert (Hrun : h' = broadcastParticipantList h2).
  { unfold h', step, closeLink, emit. fold h1.
    change (listeners h1) with (listeners h). rewrite Hl. simpl.
    unfold on_close. fold h2. change (amHost h2) with (amHost h).
    now rewrite Hhost. }
  assert (Hme : myId h2 = Some (hostPeerId h)) by exact (amHost_myId h2 Hhost).
  destruct (broadcastParticipantList_reconcile h2 (hostPeerId h) Hme Hid)
    as [Hp Ho].
  destruct (broadcastParticipantList_ids h2 (hostPeerId h) Hme Hid)
    as (_ & Hsub & _).
  assert (Hgone : ~ In (peer c) (obj_keys (connectionsRef h2)))
    by apply obj_delete_gone.
  rewrite Hrun. split; [| split; [| split]].
  - unfold broadcastParticipantList. rewrite Hme.
    destruct (hostPeerId h); [contradiction | exact Hgone].
  - intros Hin. apply Hsub in Hin as [Hin | Hin]; contradiction.
  - unfold broadcastParticipantList. rewrite Hme.
    destruct (hostPeerId h); [contradiction |]. simpl.
    rewrite elem_of_difference, elem_of_singleton. tauto.
  - intros k c' Hin Hk Hc Hop. rewrite Ho. apply in_or_app. right.
    apply sendAll_In. exists c'. split; [reflexivity |]. split.
    + unfold h2. simpl. apply (obj_entry_value k). now apply obj_delete_other.
    + unfold conn_open in *. unfold h2, h1. simpl.
      apply bool_decide_eq_true_2. apply bool_decide_eq_true_1 in Hop.
      rewrite elem_of_difference, elem_of_singleton. split; [exact Hop |].
      exact Hc.
Qed.

(** ** The directory *)

Lemma role_eqb_refl r : role_eqb r r = true.
Proof. destruct r; reflexivity. Qed.

Lemma role_eqb_true a b : role_eqb a b = true -> a = b.
Proof. destruct a, b; simpl; congruence. Qed.

Lemma find_map_same_pid (f : Participant -> Participant) j ps :
  (forall p, pid (f p) = pid p) ->
  List.find (has_pid j) (List.map f ps) =
  option_map f (List.find (has_pid j) ps).
Proof.
  intros Hf. induction ps as [| p ps IH]; simpl; [reflexivity |].
  unfold has_pid at 1. rewrite Hf. fold (has_pid j p).
  destruct (has_pid j p); [reflexivity | exact IH].
Qed.

Lemma find_app_none (f : Participant -> bool) ps qs :
  List.find f ps = None -> List.find f (ps ++ qs) = List.find f qs.
Proof.
  induction ps as [| p ps IH]; simpl; [reflexivity |].
  destruct (f p); [discriminate | exact IH].
Qed.

Lemma find_app_some (f : Participant -> bool) ps qs p :
  List.find f ps = Some p -> List.find f (ps ++ qs) = Some p.
Proof.
  induction ps as [| q ps IH]; simpl; [discriminate |].
  destruct (f q); [tauto | exact IH].
Qed.

Lemma find_none_ids i ps :
  List.find (has_pid i) ps = None <-> ~ In i (directoryIds ps).
Proof.
  split.
  - intros Hf Hin. apply in_map_iff in Hin as (p & Hid & Hin).
    apply (find_none _ _ Hf) in Hin. unfold has_pid in Hin.
    rewrite Hid, String.eqb_refl in Hin. discriminate.
  - intros Hn. destruct (List.find (has_pid i) ps) as [p |] eqn:E;
      [| reflexivity].
    apply find_some in E as [Hin Hid]. apply String.eqb_eq in Hid.
    exfalso. apply Hn. apply in_map_iff. now exists p.
Qed.

Lemma addParticipantList_lookup (i : string) (r : UserRole)
  (ps : list Participant) :
  lookupRole (addParticipantList i r ps) i = Some r /\
  (forall j, j <> i ->
             List.find (has_pid j) (addParticipantList i r ps) =
             List.find (has_pid j) ps) /\
  (In i (directoryIds ps) ->
   directoryIds (addParticipantList i r ps) = directoryIds ps /\
   List.map name (addParticipantList i r ps) = List.map name ps) /\
  (~ In i (directoryIds ps) ->
   directoryIds (addParticipantList i r ps) = directoryIds ps ++ [i]) /\
  addParticipantList i r (addParticipantList i r ps) =
  addParticipantList i r ps.
Proof.
  set (f := fun p => if has_pid i p then with_role_host p r else p).
  assert (Hf : forall p, pid (f p) = pid p).
  { intros p. unfold f. destruct (has_pid i p); reflexivity. }
  assert (Hlook : lookupRole (addParticipantList i r ps) i = Some r).
  { unfold lookupRole, addParticipantList.
    destruct (List.find (has_pid i) ps) as [existing |] eqn:E.
    - destruct (negb (role_eqb (role existing) r)) eqn:Er.
      + fold f. rewrite (find_map_same_pid f i ps Hf), E. simpl.
        unfold f. apply find_some in E as [_ Hid]. now rewrite Hid.
      + rewrite E. simpl. apply negb_false_iff, role_eqb_true in Er.
        now rewrite Er.
    - rewrite (find_app_none _ _ _ E). simpl. unfold has_pid. simpl.
      now rewrite String.eqb_refl. }
  split; [exact Hlook |]. split; [| split; [| split]].
  - intros j Hj. unfold addParticipantList.
    destruct (List.find (has_pid i) ps) as [existing |] eqn:E.
    + destruct (negb (role_eqb (role existing) r)); [| reflexivity].
      fold f. rewrite (find_map_same_pid f j ps Hf).
      destruct (List.find (has_pid j) ps) as [q |] eqn:Eq; [| reflexivity].
      simpl. apply find_some in Eq as [_ Hid]. apply String.eqb_eq in Hid.
      unfold f, has_pid. destruct (String.eqb (pid q) i) eqn:Ei;
        [| reflexivity].
      apply String.eqb_eq in Ei. congruence.
    + destruct (List.find (has_pid j) ps) as [q |] eqn:Eq.
      * now apply find_app_some.
      * rewrite (find_app_none _ _ _ Eq). simpl. unfold has_pid. simpl.
        destruct (String.eqb i j) eqn:Ei; [| reflexivity].
        apply String.eqb_eq in Ei. congruence.
  - intros Hin. unfold addParticipantList.
    destruct (List.find (has_pid i) ps) as [existing |] eqn:E.
    + destruct (negb (role_eqb (role existing) r)); [| split; reflexivity].
      fold f. unfold directoryIds. rewrite !List.map_map. split.
      * apply map_ext. exact Hf.
      * apply map_ext. intros p. unfold f.
        destruct (has_pid i p); reflexivity.
    + apply find_none_ids in E. contradiction.
  - intros Hn. rewrite addParticipantList_new by exact Hn.
    unfold directoryIds. now rewrite List.map_app.
  - unfold lookupRole in Hlook.
    destruct (List.find (has_pid i) (addParticipantList i r ps))
      as [q |] eqn:Eq; [| discriminate].
    simpl in Hlook. injection Hlook as Hr.
    unfold addParticipantList at 1. rewrite Eq, Hr, role_eqb_refl.
    reflexivity.
Qed.

(** X5. [addParticipant(id, role)] makes the directory give [id] that role
    and leaves the entry of every other id alone; an id already listed keeps
    its place and its name, a new id is appended; doing it twice is doing it
    once. *)
Theorem addParticipant_lookup (i : string) (r : UserRole)
  (ps : list Participant) :
  lookupRole (addParticipantList i r ps) i = Some r /\
  (forall j, j <> i ->
             List.find (has_pid j) (addParticipantList i r ps) =
             List.find (has_pid j) ps) /\
  (In i (directoryIds ps) ->
   directoryIds (addParticipantList i r ps) = directoryIds ps /\
   List.map name (addParticipantList i r ps) = List.map name ps) /\
  (~ In i (directoryIds ps) ->
   directoryIds (addParticipantList i r ps) = directoryIds ps ++ [i]) /\
  addParticipantList i r (addParticipantList i r ps) =
  addParticipantList i r ps.
Proof. exact (addParticipantList_lookup i r ps). Qed.

Lemma map_same_pid_ids (f : Participant -> Participant) ps :
  (forall p, pid (f p) = pid p) ->
  directoryIds (List.map f ps) = directoryIds ps.
Proof.
  intros Hf. unfold directoryIds. rewrite List.map_map. now apply map_ext.
Qed.

Lemma setRole_ids target r ps :
  directoryIds (setRole target r ps) = directoryIds ps.
Proof.
  apply map_same_pid_ids. intros p. destruct (has_pid target p); reflexivity.
Qed.

Lemma addParticipantList_distinct i r ps :
  List.NoDup (directoryIds ps) ->
  List.NoDup (directoryIds (addParticipantList i r ps)).
Proof.
  intros H.
  destruct (in_dec string_dec i (directoryIds ps)) as [Hin | Hn].
  - destruct (addParticipantList_lookup i r ps) as (_ & _ & Hsame & _).
    now rewrite (proj1 (Hsame Hin)).
  - destruct (addParticipantList_lookup i r ps) as (_ & _ & _ & Hnew & _).
    rewrite (Hnew Hn). clear Hnew.
    induction (directoryIds ps) as [| k ks IH]; simpl.
    + apply List.NoDup_cons; [intros [] | apply List.NoDup_nil].
    + apply NoDup_cons_iff in H as [Hk Hks]. apply List.NoDup_cons.
      * intros Hin. apply in_app_or in Hin as [Hin | [Heq | []]];
          [now apply Hk | apply Hn; left; now symmetry].
      * apply IH; [exact Hks |]. intros Hin. apply Hn. now right.
Qed.

Lemma broadcastParticipantList_directory_distinct w :
  List.NoDup (directoryIds (participants w)) ->
  List.NoDup (directoryIds (participants (broadcastParticipantList w))).
Proof.
  intros H. unfold broadcastParticipantList.
  destruct (myId w) as [[| a rest] |]; try exact H.
  simpl. now apply reconcile_distinct.
Qed.

Lemma executeAdminAction_directory_ids action target w :
  directoryIds (participants (executeAdminAction action target w)) =
  directoryIds (participants w).
Proof.
  unfold executeAdminAction, kickIfOpen, push.
  case_all; simpl; try reflexivity; apply setRole_ids.
Qed.

Lemma listen_directory_distinct c e w l :
  match e with
  | EvData (SYNC_PARTICIPANTS ps) => List.NoDup (directoryIds ps)
  | _ => True
  end ->
  List.NoDup (directoryIds (participants w)) ->
  List.NoDup (directoryIds (participants (listen c e w l))).
Proof.
  intros He H.
  destruct l as [| scope], e as [| d |]; try exact H.
  - unfold listen, on_open.
    set (w1 := addParticipant _ _ w).
    assert (H1 : List.NoDup (directoryIds (participants w1)))
      by now apply addParticipantList_distinct.
    destruct (amHost w1); [| exact H1].
    now apply broadcastParticipantList_directory_distinct.
  - destruct d as [m | ps | p | u b | r | a |].
    + unfold listen, on_data, relayIfHost. case_all; exact H.
    + exact He.
    + unfold listen, on_data, relayIfHost. case_all; exact H.
    + unfold listen, on_data, relayIfHost. case_all; exact H.
    + unfold listen, on_data, cleanup. case_all; apply List.NoDup_nil.
    + unfold listen. destruct (on_data_admin scope c a w) as [-> | ->];
        [exact H | now rewrite executeAdminAction_directory_ids].
    + exact H.
  - unfold listen, on_close.
    set (w1 := upd_connectionsRef _ w).
    destruct (amHost w1).
    + now apply (broadcastParticipantList_directory_distinct w1).
    + unfold removeParticipant. simpl. now apply filter_ids_distinct.
Qed.

Lemma emit_directory_distinct c e w0 w :
  match e with
  | EvData (SYNC_PARTICIPANTS ps) => List.NoDup (directoryIds ps)
  | _ => True
  end ->
  List.NoDup (directoryIds (participants w)) ->
  List.NoDup (directoryIds
                (participants
                   (fold_left (listen c e)
                              (default [] (listeners w0 !! connId c)) w))).
Proof.
  intros He. generalize (default [] (listeners w0 !! connId c)) as ls.
  intros ls. revert w. induction ls as [| l ls IH]; intros w H; simpl.
  - exact H.
  - apply IH. now apply listen_directory_distinct.
Qed.

Lemma step_directory_distinct w ev :
  cleanSync ev -> List.NoDup (directoryIds (participants w)) ->
  List.NoDup (directoryIds (participants (step w ev))).
Proof.
  intros Hc H. destruct ev as [scope c | c | c d | c | tk | a target
                              | uuid now txt type | updater messageId em | b].
  - unfold step, handleDataConnection. case_all; exact H.
  - apply (emit_directory_distinct c EvOpen _ _ I). exact H.
  - unfold step, emit. apply emit_directory_distinct; [| exact H].
    destruct d; try exact I. exact Hc.
  - apply (emit_directory_distinct c EvClose _ _ I). exact H.
  - destruct tk as [c |].
    + apply (emit_directory_distinct c EvClose _ _ I). exact H.
    + now apply broadcastParticipantList_directory_distinct.
  - unfold step, triggerAction. case_all; try exact H.
    now rewrite executeAdminAction_directory_ids.
  - exact H.
  - unfold step, handleReaction. destruct (toggleReaction _ _ _ _ _).
    exact H.
  - exact H.
Qed.

(** X6. The directory never lists an identity twice: a directory with one
    entry per id keeps one entry per id along every sequence of events,
    provided no directory that lists an id twice arrives in a
    SYNC_PARTICIPANTS message. *)
Theorem directory_one_entry_per_id (w : World) (evs : list Event) :
  List.NoDup (directoryIds (participants w)) -> Forall cleanSync evs ->
  List.NoDup (directoryIds (participants (run w evs))).
Proof.
  intros H Hc. revert w H. induction Hc as [| ev rest Hev _ IH]; intros w H.
  - exact H.
  - simpl. apply IH. now apply step_directory_distinct.
Qed.

(** ** The connection registry *)

Lemma obj_set_entries {A} k k' (v v' : A) o :
  In (k, v) (obj_set k' v' o) -> (k, v) = (k', v') \/ In (k, v) o.
Proof.
  induction o as [| [k0 v0] rest IH]; simpl.
  - intros [H | []]. left. now symmetry.
  - destruct (String.eqb k0 k'); simpl.
    + intros [H | H]; [left; now symmetry | right; now right].
    + intros [H | H]; [right; now left |].
      apply IH in H as [H | H]; [now left | right; now right].
Qed.

Lemma obj_set_keys_distinct {A} k (v : A) o :
  List.NoDup (obj_keys o) -> List.NoDup (obj_keys (obj_set k v o)).
Proof.
  unfold obj_keys. induction o as [| [k0 v0] rest IH]; simpl; intros H.
  - apply List.NoDup_cons; [intros [] | apply List.NoDup_nil].
  - apply NoDup_cons_iff in H as [Hn Hd].
    destruct (String.eqb k0 k) eqn:E; simpl.
    + apply String.eqb_eq in E. subst k0. now apply List.NoDup_cons.
    + apply List.NoDup_cons; [| now apply IH].
      intros Hin. apply (obj_keys_set k0 k v rest) in Hin as [Heq | Hin].
      * subst k0. now rewrite String.eqb_refl in E.
      * now apply Hn.
Qed.

Lemma obj_delete_keys_distinct {A} k (o : list (string * A)) :
  List.NoDup (obj_keys o) -> List.NoDup (obj_keys (obj_delete k o)).
Proof.
  unfold obj_keys, obj_delete. induction o as [| [k0 v0] rest IH]; simpl;
    intros H; [exact H |].
  apply NoDup_cons_iff in H as [Hn Hd].
  destruct (negb (String.eqb k0 k)); simpl; [| now apply IH].
  apply List.NoDup_cons; [| now apply IH].
  intros Hin. apply Hn. apply in_map_iff in Hin as (kv & Hk & Hin).
  apply filter_In in Hin as [Hin _]. apply in_map_iff. now exists kv.
Qed.

Lemma obj_get_delete_eq {A} k (o : list (string * A)) :
  obj_get k (obj_delete k o) = None.
Proof.
  unfold obj_delete. induction o as [| [k0 v0] rest IH]; simpl;
    [reflexivity |].
  destruct (String.eqb k0 k) eqn:E; simpl; [exact IH |]. now rewrite E.
Qed.

Lemma broadcastParticipantList_registry w :
  connectionsRef (broadcastParticipantList w) = connectionsRef w /\
  linkOpen (broadcastParticipantList w) = linkOpen w.
Proof.
  unfold broadcastParticipantList.
  destruct (myId w) as [[| a rest] |]; split; reflexivity.
Qed.

Lemma executeAdminAction_registry action target w :
  connectionsRef (executeAdminAction action target w) = connectionsRef w /\
  linkOpen (executeAdminAction action target w) = linkOpen w.
Proof.
  unfold executeAdminAction, kickIfOpen, push. case_all; split; reflexivity.
Qed.

Lemma on_close_registry c w :
  connectionsRef (on_close c w) = obj_delete (peer c) (connectionsRef w) /\
  linkOpen (on_close c w) = linkOpen w.
Proof.
  unfold on_close. set (w1 := upd_connectionsRef _ w).
  destruct (amHost w1).
  - destruct (broadcastParticipantList_registry w1) as [-> ->].
    split; reflexivity.
  - split; reflexivity.
Qed.

Lemma on_open_registry c w :
  connectionsRef (on_open c w) = connectionsRef w /\
  linkOpen (on_open c w) = linkOpen w.
Proof.
  unfold on_open. set (w1 := addParticipant _ _ w).
  destruct (amHost w1).
  - destruct (broadcastParticipantList_registry w1) as [-> ->].
    split; reflexivity.
  - split; reflexivity.
Qed.

Lemma on_data_registry scope c d w :
  connectionsRef (on_data scope c d w) = connectionsRef w \/
  connectionsRef (on_data scope c d w) = [].
Proof.
  destruct d as [m | ps | p | u b | r | a |]; try (now left).
  - left. unfold on_data, relayIfHost. case_all; reflexivity.
  - left. unfold on_data, relayIfHost. case_all; reflexivity.
  - left. unfold on_data, relayIfHost. case_all; reflexivity.
  - right. unfold on_data, cleanup. case_all; reflexivity.
  - left. destruct (on_data_admin scope c a w) as [-> | ->];
      [reflexivity | apply executeAdminAction_registry].
Qed.

Lemma registryOk_delete k w w' :
  connectionsRef w' = obj_delete k (connectionsRef w) ->
  registryOk w -> registryOk w'.
Proof.
  intros He [Hd Hp]. unfold registryOk. rewrite He. split.
  - now apply obj_delete_keys_distinct.
  - intros k0 c Hin. apply filter_In in Hin as [Hin _]. now apply Hp.
Qed.

Lemma registryOk_same w w' :
  connectionsRef w' = connectionsRef w \/ connectionsRef w' = [] ->
  registryOk w -> registryOk w'.
Proof.
  intros [He | He] H; unfold registryOk in *; rewrite He; [exact H |].
  split; [apply List.NoDup_nil | intros k c []].
Qed.

Lemma listen_registryOk c e w l : registryOk w -> registryOk (listen c e w l).
Proof.
  intros H. destruct l as [| scope], e as [| d |]; try exact H.
  - apply (registryOk_same w); [| exact H]. left. apply on_open_registry.
  - apply (registryOk_same w); [| exact H]. apply on_data_registry.
  - apply (registryOk_delete (peer c) w); [| exact H]. apply on_close_registry.
Qed.

Lemma fold_listen_registryOk c e ls : forall w,
  registryOk w -> registryOk (fold_left (listen c e) ls w).
Proof.
  induction ls as [| l ls IH]; intros w H; simpl; [exact H |].
  apply IH. now apply listen_registryOk.
Qed.

Lemma step_registryOk w ev : registryOk w -> registryOk (step w ev).
Proof.
  intros H. destruct ev as [scope c | c | c d | c | tk | a target
                           | uuid now txt type | updater messageId em | b].
  - unfold step, handleDataConnection.
    destruct (amHost w && bool_decide (peer c ∈ bannedPeersRef w));
      [exact H |].
    destruct H as [Hd Hp]. split; simpl.
    + now apply obj_set_keys_distinct.
    + intros k c' Hin. apply obj_set_entries in Hin as [Heq | Hin].
      * now injection Heq as -> ->.
      * now apply Hp.
  - apply fold_listen_registryOk. exact H.
  - apply fold_listen_registryOk. exact H.
  - apply fold_listen_registryOk. exact H.
  - destruct tk as [c |].
    + apply fold_listen_registryOk. exact H.
    + apply (registryOk_same w); [| exact H]. left.
      apply broadcastParticipantList_registry.
  - apply (registryOk_same w); [| exact H]. left.
    unfold step, triggerAction. case_all; try reflexivity.
    apply executeAdminAction_registry.
  - exact H.
  - unfold step, handleReaction. destruct (toggleReaction _ _ _ _ _). exact H.
  - exact H.
Qed.

(** X7. The registry holds at most one connection per peer id, and each
    under the id of its own peer: this holds along every sequence of
    events. *)
Theorem registry_one_link_per_peer (w : World) (evs : list Event) :
  registryOk w -> registryOk (run w evs).
Proof.
  revert w. induction evs as [| ev rest IH]; intros w H; simpl; [exact H |].
  apply IH. now apply step_registryOk.
Qed.

Lemma listen_open_frame c w l :
  connectionsRef (listen c EvOpen w l) = connectionsRef w /\
  linkOpen (listen c EvOpen w l) = linkOpen w.
Proof.
  destruct l as [| scope]; simpl; [split; reflexivity |].
  apply on_open_registry.
Qed.

Lemma fold_listen_open_frame c ls : forall w,
  connectionsRef (fold_left (listen c EvOpen) ls w) = connectionsRef w /\
  linkOpen (fold_left (listen c EvOpen) ls w) = linkOpen w /\
  listeners (fold_left (listen c EvOpen) ls w) = listeners w.
Proof.
  induction ls as [| l ls IH]; intros w; simpl; [repeat split |].
  destruct (IH (listen c EvOpen w l)) as (-> & -> & ->).
  destruct (listen_open_frame c w l) as [-> ->].
  now rewrite listen_listeners.
Qed.

(** ** The relay of the Host *)

Lemma Forall2_map_self {A} (R : A -> A -> Prop) (f : A -> A) (l : list A) :
  (forall x, In x l -> R x (f x)) -> Forall2 R l (List.map f l).
Proof.
  induction l as [| x l IH]; intros H; simpl; constructor.
  - apply H. now left.
  - apply IH. intros y Hy. apply H. now right.
Qed.

Lemma receiveReaction_reactedTo p log :
  Forall2 (reactedTo p) log (receiveReaction p log).
Proof.
  unfold receiveReaction. apply Forall2_map_self. intros m _.
  unfold reactedTo.
  destruct (String.eqb (msg_id m) (rp_messageId p)) eqn:E.
  - split; [destruct m; reflexivity |].
    cbn [reactions with_reactions]. unfold receiveReactionList.
    replace (reactions (with_reactions m
               (if String.eqb (rp_action p) "remove"
                then List.filter
                       (fun r => negb (same_reaction (rp_senderId p) (rp_emoji p) r))
                       (reactions m)
                else if existsb (same_reaction (rp_senderId p) (rp_emoji p))
                                (reactions m)
                     then reactions m
                     else reactions m ++
                          [mkReaction (rp_emoji p) (rp_senderId p)
                                      (rp_senderName p)])))
      with (if String.eqb (rp_action p) "remove"
            then List.filter
                   (fun r => negb (same_reaction (rp_senderId p) (rp_emoji p) r))
                   (reactions m)
            else if existsb (same_reaction (rp_senderId p) (rp_emoji p))
                            (reactions m)
                 then reactions m
                 else reactions m ++
                      [mkReaction (rp_emoji p) (rp_senderId p) (rp_senderName p)])
      by (destruct m; reflexivity).
    destruct (String.eqb (rp_action p) "remove").
    + intros r. rewrite filter_In, negb_true_iff.
      rewrite <- not_true_iff_false, same_reaction_key. reflexivity.
    + destruct (existsb (same_reaction (rp_senderId p) (rp_emoji p))
                        (reactions m)) eqn:Ex.
      * left. split; [now apply has_reaction_key | reflexivity].
      * right. split; [| reflexivity].
        intros Hin. apply has_reaction_key in Hin. congruence.
  - split; [symmetry; apply with_reactions_same | reflexivity].
Qed.

Lemma relayIfHost_state d conn w :
  messages (relayIfHost d conn w) = messages w /\
  typingUsers (relayIfHost d conn w) = typingUsers w.
Proof. unfold relayIfHost. destruct (amHost w); split; reflexivity. Qed.

Lemma existsb_log_id (i : string) (log : list ChatMessage) :
  existsb (fun x => String.eqb (msg_id x) i) log = true <->
  In i (List.map msg_id log).
Proof.
  rewrite existsb_exists, in_map_iff. split.
  - intros (x & Hx & He). apply String.eqb_eq in He. now exists x.
  - intros (x & He & Hx). exists x. split; [exact Hx | now apply String.eqb_eq].
Qed.

Lemma relay_skips_unregistered directory conn d c w :
  replicable d = true -> ~ In c (obj_values (connectionsRef w)) ->
  forall x, In (Send c x) (outbox (on_data directory conn d w)) ->
            In (Send c x) (outbox w).
Proof.
  intros Hrep Hout x. rewrite (on_data_relay directory conn d w Hrep).
  destruct (applyLocal_frame d w) as (Hh & Hc & Ho & Hb).
  unfold relayIfHost. rewrite Hh. destruct (amHost w); [| now rewrite Hb].
  unfold broadcastData, push. cbn [outbox upd_outbox]. rewrite Hb.
  intros Hin. apply in_app_or in Hin as [Hin | Hin]; [exact Hin |].
  apply sendAll_In in Hin as (c' & Heq & Hreg & _). injection Heq as -> _.
  rewrite Hc in Hreg. contradiction.
Qed.

(** C4 (amended). A CHAT, REACTION or TYPING message that arrives on the
    connection [conn] is applied to the local state: a CHAT is put at the
    end of the log unless its id is in the log, a REACTION changes the
    reactions of the addressed messages as [reactedTo] says, a TYPING puts
    the user in the typing set or takes it out.  The Host then sends the
    very same payload on every open connection of its registry whose peer is
    not the peer of [conn], never on [conn], and a connection that it turns
    away for a ban, open as it is until the Host closes it, gets none of it.
    A process that is not the Host sends nothing, whatever arrives. *)
Theorem relay_fan_out (directory : list Participant) (conn : Conn) (d : Data)
  (w : World) :
  replicable d = true ->
  let w' := on_data directory conn d w in
  (forall m, d = CHAT m ->
     (In (msg_id m) (logIds w) -> messages w' = messages w) /\
     (~ In (msg_id m) (logIds w) -> messages w' = messages w ++ [m]) /\
     typingUsers w' = typingUsers w) /\
  (forall p, d = REACTION p ->
     Forall2 (reactedTo p) (messages w) (messages w') /\
     typingUsers w' = typingUsers w) /\
  (forall u b, d = TYPING u b ->
     messages w' = messages w /\
     forall x, x ∈ typingUsers w' <->
               (x = u /\ b = true) \/ (x ∈ typingUsers w /\ x <> u)) /\
  (amHost w = true ->
   exists sent,
     outbox w' = outbox w ++ sent /\
     sent = List.map (fun c => Send c d)
              (List.filter (fun c => conn_open w c &&
                                     negb (String.eqb (peer c) (peer conn)))
                           (obj_values (connectionsRef w))) /\
     (forall c, In c (obj_values (connectionsRef w)) -> conn_open w c = true ->
                peer c <> peer conn -> In (Send c d) sent) /\
     (forall c x, In (Send c x) sent ->
                  x = d /\ c <> conn /\ peer c <> peer conn /\
                  conn_open w c = true /\
                  In c (obj_values (connectionsRef w)))) /\
  (amHost w = true ->
   forall scope c,
     peer c ∈ bannedPeersRef w -> ~ In c (obj_values (connectionsRef w)) ->
     let w1 := run w [Connection scope c; LinkOpen c] in
     conn_open w1 c = true /\
     forall x, In (Send c x) (outbox (on_data directory conn d w1)) ->
               In (Send c x) (outbox w1)) /\
  (amHost w = false ->
   forall d' c x, In (Send c x) (outbox (on_data directory conn d' w)) ->
                  In (Send c x) (outbox w)).
Proof.
  intros Hrep w'.
  assert (Hw' : w' = relayIfHost d conn (applyLocal d w))
    by apply (on_data_relay directory conn d w Hrep).
  destruct (relayIfHost_state d conn (applyLocal d w)) as [Hm Ht].
  rewrite <- Hw' in Hm, Ht.
  destruct (applyLocal_frame d w) as (Hh & Hc & Ho & Hb).
  split; [| split; [| split; [| split; [| split]]]].
  - intros m ->. rewrite Hm, Ht. cbn [applyLocal messages typingUsers upd_messages].
    unfold receiveChat, logIds. split; [| split; [| reflexivity]].
    + intros Hin. apply existsb_log_id in Hin. now rewrite Hin.
    + intros Hin.
      destruct (existsb _ (messages w)) eqn:E; [| reflexivity].
      apply existsb_log_id in E. contradiction.
  - intros p ->. rewrite Hm, Ht. split; [| reflexivity].
    apply receiveReaction_reactedTo.
  - intros u b ->. rewrite Hm, Ht. split; [destruct b; reflexivity |].
    intros x. destruct b; cbn [applyLocal typingUsers upd_typingUsers].
    + rewrite elem_of_union, elem_of_singleton.
      destruct (decide (x = u)); intuition congruence.
    + rewrite elem_of_difference, elem_of_singleton.
      intuition congruence.
  - intros Hhost. rewrite Hw'. unfold relayIfHost. rewrite Hh, Hhost.
    eexists. split; [| split; [reflexivity |]].
    + unfold broadcastData, push, sendAll, conn_open. simpl.
      rewrite Hb, Hc, Ho. reflexivity.
    + split.
      * intros c Hin Hopen Hne. apply in_map_iff. exists c.
        split; [reflexivity |]. apply filter_In. split; [exact Hin |].
        rewrite Hopen. simpl. apply negb_true_iff.
        apply String.eqb_neq. exact Hne.
      * intros c x Hin. apply in_map_iff in Hin as (c' & Heq & Hc').
        injection Heq as -> ->. apply filter_In in Hc' as [Hin Hk].
        apply andb_true_iff in Hk as [Hopen Hne].
        apply negb_true_iff, String.eqb_neq in Hne.
        repeat split; try assumption. intros ->. now apply Hne.
  - intros Hhost scope c Hban Hout w1.
    assert (Hw1 : connectionsRef w1 = connectionsRef w /\
                  linkOpen w1 = linkOpen w ∪ {[connId c]}).
    { set (w0 := upd_linkOpen (fun s => s ∪ {[connId c]}) (attach c Rejecting w)).
      assert (Hrun : w1 = fold_left (listen c EvOpen)
                            (default [] (listeners w0 !! connId c)) w0).
      { unfold w1, run. cbn [fold_left].
        change (step w (Connection scope c)) with (handleDataConnection scope c w).
        unfold handleDataConnection.
        rewrite Hhost, (bool_decide_eq_true_2 _ Hban). reflexivity. }
      rewrite Hrun.
      destruct (fold_listen_open_frame c
                  (default [] (listeners w0 !! connId c)) w0) as (H1 & H2 & _).
      rewrite H1, H2. split; reflexivity. }
    destruct Hw1 as [Hr1 Ho1]. split.
    + unfold conn_open. rewrite Ho1. apply bool_decide_eq_true_2.
      apply elem_of_union. right. now apply elem_of_singleton.
    + apply relay_skips_unregistered; [exact Hrep |]. now rewrite Hr1.
  - intros Hguest d' c x.
    destruct (replicable d') eqn:Hrep'.
    + rewrite (on_data_relay directory conn d' w Hrep').
      destruct (applyLocal_frame d' w) as (Hh' & _ & _ & Hb').
      unfold relayIfHost. rewrite Hh', Hguest, Hb'. tauto.
    + destruct d' as [m | l | p | u b | r | a |]; try discriminate Hrep'.
      * simpl. tauto.
      * intros H. unfold on_data in H. apply cleanup_sends_nothing in H.
        exact H.
      * simpl. rewrite Hguest. tauto.
      * simpl. tauto.
Qed.

(** X8. The registry is keyed by peer id, and the close listener deletes by
    peer id: when a peer has opened a second link, the close of its first
    link takes the second, still open, out of the registry. *)
Theorem old_link_close_unregisters_new_link (s1 s2 : list Participant)
  (c1 c2 : Conn) (w : World) :
  peer c1 = peer c2 -> connId c1 <> connId c2 ->
  listeners w !! connId c1 = Some [Serving s1] ->
  peer c2 ∉ bannedPeersRef w ->
  let w' := run w [Connection s2 c2; LinkOpen c2; LinkClose c1] in
  obj_get (peer c2) (connectionsRef w') = None /\
  connId c2 ∈ linkOpen w'.
Proof.
  intros Hpeer Hid Hl Hnb w'.
  set (w1 := handleDataConnection s2 c2 w).
  assert (Hw1 : w1 = attach c2 (Serving s2)
                       (upd_connectionsRef (obj_set (peer c2) c2) w)).
  { unfold w1, handleDataConnection.
    rewrite (bool_decide_eq_false_2 _ Hnb), andb_false_r. reflexivity. }
  set (w2 := step w1 (LinkOpen c2)).
  assert (Hw2 : connectionsRef w2 = connectionsRef w1 /\
                linkOpen w2 = linkOpen w1 ∪ {[connId c2]} /\
                listeners w2 = listeners w1).
  { unfold w2, step, emit.
    destruct (fold_listen_open_frame c2
                (default [] (listeners
                   (upd_linkOpen (fun s => s ∪ {[connId c2]}) w1) !! connId c2))
                (upd_linkOpen (fun s => s ∪ {[connId c2]}) w1))
      as (-> & -> & ->).
    repeat split. }
  destruct Hw2 as (Hr2 & Ho2 & Hl2).
  assert (Hrun : w' = on_close c1 (upd_linkOpen (fun s => s ∖ {[connId c1]}) w2)).
  { unfold w', run. cbn [fold_left].
    change (step w (Connection s2 c2)) with w1.
    change (step w1 (LinkOpen c2)) with w2.
    change (step w2 (LinkClose c1)) with
      (fold_left (listen c1 EvClose)
         (default [] (listeners w2 !! connId c1))
         (upd_linkOpen (fun s => s ∖ {[connId c1]}) w2)).
    rewrite Hl2, Hw1. simpl.
    rewrite lookup_insert_ne by (intros Heq; apply Hid; now symmetry).
    rewrite Hl. reflexivity. }
  rewrite Hrun.
  destruct (on_close_registry c1 (upd_linkOpen (fun s => s ∖ {[connId c1]}) w2))
    as [-> ->].
  split.
  - rewrite Hpeer. apply obj_get_delete_eq.
  - simpl. rewrite Ho2. rewrite elem_of_difference, elem_of_union,
      !elem_of_singleton. split; [now right |].
    intros Heq. apply Hid. now symmetry.
Qed.

(** ** Moderation carried out *)

Lemma setRole_lookup target r ps :
  lookupRole ps target <> None -> lookupRole (setRole target r ps) target = Some r.
Proof.
  unfold lookupRole, setRole.
  rewrite (find_map_same_pid
             (fun p => if has_pid target p then with_role p r else p)).
  2: { intros p. destruct (has_pid target p); reflexivity. }
  destruct (List.find (has_pid target) ps) as [p |] eqn:E;
    [| intros H; exfalso; apply H; reflexivity].
  intros _. simpl. apply find_some in E as [_ Hid]. now rewrite Hid.
Qed.

Lemma setRole_other target r ps j :
  j <> target ->
  List.find (has_pid j) (setRole target r ps) = List.find (has_pid j) ps.
Proof.
  intros Hne. unfold setRole.
  rewrite (find_map_same_pid
             (fun p => if has_pid target p then with_role p r else p)).
  2: { intros p. destruct (has_pid target p); reflexivity. }
  destruct (List.find (has_pid j) ps) as [p |] eqn:E; [| reflexivity].
  simpl. apply find_some in E as [_ Hid]. apply String.eqb_eq in Hid.
  unfold has_pid. destruct (String.eqb (pid p) target) eqn:Et; [| reflexivity].
  apply String.eqb_eq in Et. congruence.
Qed.

Lemma setRole_back target r ps :
  (forall p, In p ps -> pid p = target -> role p = r) ->
  forall r', setRole target r (setRole target r' ps) = ps.
Proof.
  intros H r'. unfold setRole. rewrite List.map_map.
  apply map_unchanged. intros p Hin. unfold has_pid.
  destruct (String.eqb (pid p) target) eqn:E; simpl.
  - rewrite E. apply String.eqb_eq in E.
    specialize (H p Hin E). destruct p; simpl in *. now subst.
  - now rewrite E.
Qed.

Lemma setRole_roleSet target r w :
  roleSet target r w
    (push [SetTimeout RunBroadcastParticipantList 0]
          (upd_participants (setRole target r) w)).
Proof.
  unfold roleSet. split; [| repeat split; reflexivity].
  cbn [participants push upd_outbox upd_participants]. unfold setRole.
  apply Forall2_map_self. intros p _. unfold has_pid.
  destruct (String.eqb (pid p) target); repeat split; reflexivity.
Qed.

(** X9. On the Host PROMOTE sets the role of the target to MANAGER and
    DEMOTE sets it to GUEST, in whatever world: the directory keeps its
    entries and their order, ids, names and host flags, every other id keeps
    its role, nothing else in the world changes, and one directory broadcast
    is scheduled.  A listed target has the new role afterwards, and DEMOTE
    after PROMOTE gives back the directory of a target that was a GUEST. *)
Theorem promote_and_demote (target : string) (w : World) :
  amHost w = true ->
  let w1 := executeAdminAction "PROMOTE" target w in
  let w2 := executeAdminAction "DEMOTE" target w1 in
  let demoted := executeAdminAction "DEMOTE" target w in
  roleSet target MANAGER w w1 /\
  roleSet target GUEST w demoted /\
  roleSet target GUEST w1 w2 /\
  (lookupRole (participants w) target <> None ->
   lookupRole (participants w1) target = Some MANAGER /\
   lookupRole (participants demoted) target = Some GUEST /\
   lookupRole (participants w2) target = Some GUEST) /\
  (forall j, j <> target ->
             List.find (has_pid j) (participants w1) =
             List.find (has_pid j) (participants w) /\
             List.find (has_pid j) (participants demoted) =
             List.find (has_pid j) (participants w)) /\
  connectionsRef w1 = connectionsRef w /\
  bannedPeersRef w1 = bannedPeersRef w /\
  outbox w1 = outbox w ++ [SetTimeout RunBroadcastParticipantList 0] /\
  ((forall p, In p (participants w) -> pid p = target -> role p = GUEST) ->
   participants w2 = participants w).
Proof.
  intros Hhost w1 w2 demoted.
  assert (H1 : w1 = push [SetTimeout RunBroadcastParticipantList 0]
                      (upd_participants (setRole target MANAGER) w)).
  { unfold w1, executeAdminAction. now rewrite Hhost. }
  assert (Hd : demoted = push [SetTimeout RunBroadcastParticipantList 0]
                           (upd_participants (setRole target GUEST) w)).
  { unfold demoted, executeAdminAction. now rewrite Hhost. }
  assert (H2 : w2 = push [SetTimeout RunBroadcastParticipantList 0]
                      (upd_participants (setRole target GUEST) w1)).
  { unfold w2, executeAdminAction.
    assert (Hh1 : amHost w1 = true) by (rewrite H1; exact Hhost).
    now rewrite Hh1. }
  split; [| split; [| split; [| split; [| split; [| split; [| split; [| split]]]]]]].
  - rewrite H1. apply setRole_roleSet.
  - rewrite Hd. apply setRole_roleSet.
  - rewrite H2. apply setRole_roleSet.
  - intros Hin. split; [| split].
    + rewrite H1. simpl. now apply setRole_lookup.
    + rewrite Hd. simpl. now apply setRole_lookup.
    + rewrite H2. simpl. apply setRole_lookup.
      rewrite H1. simpl. rewrite setRole_lookup by exact Hin. discriminate.
  - intros j Hj. split.
    + rewrite H1. simpl. now apply setRole_other.
    + rewrite Hd. simpl. now apply setRole_other.
  - now rewrite H1.
  - now rewrite H1.
  - now rewrite H1.
  - intros Hg. rewrite H2, H1. simpl. now apply setRole_back.
Qed.

(** ** A ban lasts as long as the session *)

Lemma sessionGoesOn_refl w : sessionGoesOn w w.
Proof. split; [reflexivity |]. right. split; [reflexivity | set_solver]. Qed.

Lemma sessionGoesOn_trans w1 w2 w3 :
  sessionGoesOn w1 w2 -> sessionGoesOn w2 w3 -> sessionGoesOn w1 w3.
Proof.
  intros [Hh1 H1] [Hh2 H2]. split; [congruence |].
  destruct H2 as [H2 | [Hp2 Hb2]]; [now left |].
  destruct H1 as [H1 | [Hp1 Hb1]].
  - left. congruence.
  - right. split; [congruence | set_solver].
Qed.

Lemma sessionGoesOn_frame w w' :
  hostPeerId w' = hostPeerId w -> peerInstance w' = peerInstance w ->
  bannedPeersRef w' = bannedPeersRef w -> sessionGoesOn w w'.
Proof.
  intros Hh Hp Hb. split; [exact Hh |]. right. split; [exact Hp |].
  now rewrite Hb.
Qed.

Lemma broadcastParticipantList_goesOn w :
  sessionGoesOn w (broadcastParticipantList w).
Proof.
  unfold broadcastParticipantList.
  destruct (myId w) as [[| a rest] |]; apply sessionGoesOn_frame; reflexivity.
Qed.

Lemma executeAdminAction_goesOn action target w :
  sessionGoesOn w (executeAdminAction action target w).
Proof.
  unfold executeAdminAction, kickIfOpen, push.
  case_all; try (apply sessionGoesOn_frame; reflexivity);
    (split; [reflexivity |]; right; split; [reflexivity |]; simpl;
     apply union_subseteq_l).
Qed.

Lemma cleanup_goesOn w : sessionGoesOn w (cleanup w).
Proof.
  unfold cleanup. destruct (peerInstance w) eqn:E; split; try reflexivity;
    left; [reflexivity | exact E].
Qed.

Lemma listen_goesOn c e w l : sessionGoesOn w (listen c e w l).
Proof.
  destruct l as [| scope], e as [| d |]; try apply sessionGoesOn_refl.
  - apply sessionGoesOn_frame; reflexivity.
  - unfold listen, on_open. set (w1 := addParticipant _ _ w).
    destruct (amHost w1); [| apply sessionGoesOn_frame; reflexivity].
    exact (broadcastParticipantList_goesOn w1).
  - destruct d as [m | ps | p | u b | r | a |];
      try apply sessionGoesOn_refl.
    + unfold listen, on_data, relayIfHost.
      case_all; apply sessionGoesOn_frame; reflexivity.
    + apply sessionGoesOn_frame; reflexivity.
    + unfold listen, on_data, relayIfHost.
      case_all; apply sessionGoesOn_frame; reflexivity.
    + unfold listen, on_data, relayIfHost.
      case_all; apply sessionGoesOn_frame; reflexivity.
    + exact (cleanup_goesOn (upd_kickReason _ w)).
    + unfold listen. destruct (on_data_admin scope c a w) as [-> | ->];
        [apply sessionGoesOn_refl | apply executeAdminAction_goesOn].
  - unfold listen, on_close. set (w1 := upd_connectionsRef _ w).
    destruct (amHost w1); [| apply sessionGoesOn_frame; reflexivity].
    exact (broadcastParticipantList_goesOn w1).
Qed.

Lemma fold_listen_goesOn c e ls : forall w,
  sessionGoesOn w (fold_left (listen c e) ls w).
Proof.
  induction ls as [| l ls IH]; intros w; simpl; [apply sessionGoesOn_refl |].
  eapply sessionGoesOn_trans; [apply (listen_goesOn c e w l) | apply IH].
Qed.

Lemma step_goesOn w ev : sessionGoesOn w (step w ev).
Proof.
  destruct ev as [scope c | c | c d | c | tk | a target
                 | uuid now txt type | updater messageId em | b].
  - unfold step, handleDataConnection.
    case_all; apply sessionGoesOn_frame; reflexivity.
  - exact (fold_listen_goesOn c EvOpen _ (upd_linkOpen _ w)).
  - apply fold_listen_goesOn.
  - exact (fold_listen_goesOn c EvClose _ (upd_linkOpen _ w)).
  - destruct tk as [c |].
    + exact (fold_listen_goesOn c EvClose _ (upd_linkOpen _ w)).
    + apply broadcastParticipantList_goesOn.
  - unfold step, triggerAction.
    case_all; try (apply sessionGoesOn_frame; reflexivity).
    apply executeAdminAction_goesOn.
  - apply sessionGoesOn_frame; reflexivity.
  - unfold step, handleReaction. destruct (toggleReaction _ _ _ _ _).
    apply sessionGoesOn_frame; reflexivity.
  - apply sessionGoesOn_frame; reflexivity.
Qed.

Lemma run_goesOn evs : forall w, sessionGoesOn w (run w evs).
Proof.
  induction evs as [| ev rest IH]; intros w; simpl;
    [apply sessionGoesOn_refl |].
  eapply sessionGoesOn_trans; [apply step_goesOn | apply IH].
Qed.

(** X10. A ban lasts as long as the session.  Once the Host has executed BAN
    for an id, whether or not that id had a link, then after any sequence of
    events that has not torn the session down the id is still banned, and a
    connection that arrives from it is turned away: it is not registered and
    it gets the rejecting listener only. *)
Theorem ban_lasts_for_the_session (target : string) (w : World)
  (evs : list Event) (scope : list Participant) (c : Conn) :
  amHost w = true -> peer c = target ->
  peerInstance (run (executeAdminAction "BAN" target w) evs) <> None ->
  let w2 := run (executeAdminAction "BAN" target w) evs in
  target ∈ bannedPeersRef w2 /\
  connectionsRef (handleDataConnection scope c w2) = connectionsRef w2 /\
  participants (handleDataConnection scope c w2) = participants w2 /\
  listeners (handleDataConnection scope c w2) !! connId c =
    Some (default [] (listeners w2 !! connId c) ++ [Rejecting]).
Proof.
  intros Hhost Hpeer Halive w2.
  set (w1 := executeAdminAction "BAN" target w) in *.
  assert (Hb1 : target ∈ bannedPeersRef w1 /\ amHost w1 = true).
  { unfold w1, executeAdminAction, kickIfOpen, push. rewrite Hhost. simpl.
    case_all; simpl; split; try exact Hhost;
      apply elem_of_union; right; now apply elem_of_singleton. }
  destruct Hb1 as [Hb1 Hh1].
  destruct (run_goesOn evs w1) as [Hroom [Hgone | [Hsame Hsub]]];
    [contradiction |].
  fold w2 in Hroom, Hsame, Hsub.
  assert (Hb2 : target ∈ bannedPeersRef w2) by (apply Hsub; exact Hb1).
  assert (Hh2 : amHost w2 = true).
  { unfold amHost, myId in *. rewrite Hsame, Hroom. exact Hh1. }
  split; [exact Hb2 |].
  unfold handleDataConnection. rewrite Hh2, Hpeer.
  rewrite (bool_decide_eq_true_2 _ Hb2). simpl.
  split; [reflexivity |]. split; [reflexivity |]. apply lookup_insert_eq.
Qed.

(** ** After teardown *)

Lemma broadcastData_unregistered d x w :
  connectionsRef w = [] -> outbox (broadcastData d x w) = outbox w.
Proof.
  intros H. unfold broadcastData, push, sendAll. simpl. rewrite H. simpl.
  apply app_nil_r.
Qed.

Lemma cleanup_twice w : cleanup (cleanup w) = cleanup w.
Proof.
  unfold cleanup. destruct (peerInstance w) eqn:E; simpl; [reflexivity |].
  rewrite E. reflexivity.
Qed.

(** X11. Teardown is final for the user's own actions: tearing down twice is
    tearing down once, and in a session that was torn down a send, a
    reaction, a typing signal or a moderation command sends nothing and
    schedules nothing. *)
Theorem torn_down_session_is_silent (w : World) (ev : Event) :
  uiEvent ev = true ->
  cleanup (cleanup w) = cleanup w /\
  outbox (step (cleanup w) ev) = outbox (cleanup w).
Proof.
  intros Hui. split; [apply cleanup_twice |].
  assert (Hreg : connectionsRef (cleanup w) = []).
  { unfold cleanup. destruct (peerInstance w); reflexivity. }
  assert (Hpeer : amHost (cleanup w) = false).
  { unfold cleanup, amHost, myId. destruct (peerInstance w) eqn:E; simpl;
      [reflexivity | now rewrite E]. }
  destruct ev as [scope c | c | c d | c | tk | a target
                 | uuid now txt type | updater messageId em | b]; try discriminate Hui.
  - unfold step, triggerAction. destruct (isHost (cleanup w)).
    + unfold executeAdminAction. now rewrite Hpeer.
    + now rewrite Hreg.
  - unfold step, sendMessage.
    rewrite broadcastData_unregistered; [reflexivity | exact Hreg].
  - unfold step, handleReaction. destruct (toggleReaction _ _ _ _ _).
    rewrite broadcastData_unregistered; [reflexivity | exact Hreg].
  - unfold step, handleTyping.
    rewrite broadcastData_unregistered; [reflexivity | exact Hreg].
Qed.

(** ** Reaction groups of the chat view *)

Lemma withEmoji_snoc e rs r :
  withEmoji e (rs ++ [r]) =
  withEmoji e rs ++ (if String.eqb (emoji r) e then [r] else []).
Proof. unfold withEmoji. rewrite List.filter_app. reflexivity. Qed.

Lemma withEmoji_none e rs :
  existsb (fun r => String.eqb (emoji r) e) rs = false -> withEmoji e rs = [].
Proof.
  unfold withEmoji. induction rs as [| r rs IH]; simpl; [reflexivity |].
  intros H. apply orb_false_iff in H as [Hr Hrs]. rewrite Hr. now apply IH.
Qed.

Lemma groupOf_snoc_same u rs r :
  groupOf u (emoji r) (rs ++ [r]) =
  mkReactionGroup (S (count (groupOf u (emoji r) rs)))
                  (hasReacted (groupOf u (emoji r) rs) ||
                   String.eqb (senderId r) u)
                  (senders (groupOf u (emoji r) rs) ++ [senderName r]).
Proof.
  unfold groupOf. rewrite withEmoji_snoc, String.eqb_refl. simpl.
  rewrite length_app, existsb_app, List.map_app. simpl.
  rewrite orb_false_r. f_equal. lia.
Qed.

Lemma groupOf_snoc_other u e rs r :
  String.eqb (emoji r) e = false -> groupOf u e (rs ++ [r]) = groupOf u e rs.
Proof.
  intros H. unfold groupOf. rewrite withEmoji_snoc, H, app_nil_r. reflexivity.
Qed.

Lemma addOwn_get_gen u rs : forall groups pre,
  (forall e, obj_get e groups =
             if existsb (fun r => String.eqb (emoji r) e) pre
             then Some (groupOf u e pre) else None) ->
  forall e, obj_get e (fold_left (addOwn u) rs groups) =
            if existsb (fun r => String.eqb (emoji r) e) (pre ++ rs)
            then Some (groupOf u e (pre ++ rs)) else None.
Proof.
  induction rs as [| r rs IH]; intros groups pre Hinv e.
  - simpl. rewrite app_nil_r. apply Hinv.
  - simpl. replace (pre ++ r :: rs) with ((pre ++ [r]) ++ rs)
      by (rewrite <- app_assoc; reflexivity).
    apply IH. clear e. intros e. unfold addOwn.
    rewrite existsb_app. simpl. rewrite orb_false_r.
    destruct (String.eqb (emoji r) e) eqn:E.
    + apply String.eqb_eq in E. subst e. rewrite orb_true_r.
      rewrite obj_get_set_eq, groupOf_snoc_same. f_equal.
      rewrite (Hinv (emoji r)).
      destruct (existsb _ pre) eqn:Ex; [reflexivity |].
      unfold groupOf. now rewrite (withEmoji_none _ _ Ex).
    + rewrite orb_false_r, groupOf_snoc_other by exact E.
      rewrite obj_get_set_ne; [apply Hinv |].
      intros Heq. subst e. now rewrite String.eqb_refl in E.
Qed.

Lemma addOwn_get u rs e :
  obj_get e (fold_left (addOwn u) rs []) =
  if existsb (fun r => String.eqb (emoji r) e) rs
  then Some (groupOf u e rs) else None.
Proof.
  exact (addOwn_get_gen u rs [] [] (fun _ => eq_refl) e).
Qed.

Lemma addOwn_keys_distinct u rs :
  List.NoDup (obj_keys (fold_left (addOwn u) rs [])).
Proof.
  assert (H : forall groups, List.NoDup (obj_keys groups) ->
                             List.NoDup (obj_keys (fold_left (addOwn u) rs groups))).
  { induction rs as [| r rs IH]; intros groups Hg; simpl; [exact Hg |].
    apply IH. unfold addOwn. now apply obj_set_keys_distinct. }
  apply H. apply List.NoDup_nil.
Qed.

Lemma obj_get_entry {A} k (v : A) o :
  List.NoDup (obj_keys o) -> (In (k, v) o <-> obj_get k o = Some v).
Proof.
  unfold obj_keys. induction o as [| [k0 v0] rest IH]; simpl; intros Hd.
  - split; [intros [] | discriminate].
  - apply NoDup_cons_iff in Hd as [Hn Hd].
    destruct (String.eqb k0 k) eqn:E.
    + apply String.eqb_eq in E. subst k0. split.
      * intros [Heq | Hin]; [now injection Heq as -> |].
        exfalso. apply Hn. apply in_map_iff. now exists (k, v).
      * intros Heq. injection Heq as ->. now left.
    + rewrite <- (IH Hd). split.
      * intros [Heq | Hin]; [| exact Hin].
        injection Heq as -> _. now rewrite String.eqb_refl in E.
      * intros Hin. now right.
Qed.

Lemma obj_get_key {A} k (o : list (string * A)) :
  obj_get k o <> None <-> In k (obj_keys o).
Proof.
  unfold obj_keys. induction o as [| [k0 v0] rest IH]; simpl.
  - split; [congruence | intros []].
  - destruct (String.eqb k0 k) eqn:E.
    + apply String.eqb_eq in E. split; [now left | discriminate].
    + rewrite IH. split; [now right |].
      intros [Heq | Hin]; [| exact Hin].
      subst k0. now rewrite String.eqb_refl in E.
Qed.

Lemma inherited_In k : inherited k = true <-> In k objectPrototypeNames.
Proof.
  unfold inherited. rewrite existsb_exists. split.
  - intros (x & Hx & He). apply String.eqb_eq in He. now subst x.
  - intros Hin. exists k. split; [exact Hin | apply String.eqb_refl].
Qed.

(** The loop runs to its end on emoji that are no inherited names, and it
    throws at the first reaction whose emoji is one. *)
Lemma collectGroups_own u rs : forall groups,
  (forall r, In r rs -> inherited (emoji r) = false) ->
  collectGroups u rs groups = Some (fold_left (addOwn u) rs groups).
Proof.
  induction rs as [| r rs IH]; intros groups Hown; simpl; [reflexivity |].
  unfold addToGroup. rewrite (Hown r) by now left.
  assert (Hrest : forall r', In r' rs -> inherited (emoji r') = false)
    by (intros r' Hr'; apply Hown; now right).
  destruct (obj_get (emoji r) groups); now apply IH.
Qed.

Lemma collectGroups_throws u rs : forall groups,
  (forall k, In k (obj_keys groups) -> inherited k = false) ->
  (exists r, In r rs /\ inherited (emoji r) = true) ->
  collectGroups u rs groups = None.
Proof.
  induction rs as [| r rs IH]; intros groups Hkeys (r0 & Hin & Hinh);
    [destruct Hin |].
  simpl. unfold addToGroup.
  destruct (inherited (emoji r)) eqn:Er.
  - destruct (obj_get (emoji r) groups) eqn:Eg; [| reflexivity].
    assert (Hk : In (emoji r) (obj_keys groups))
      by (apply obj_get_key; congruence).
    apply Hkeys in Hk. congruence.
  - assert (Hnext : collectGroups u rs (addOwn u groups r) = None).
    { apply IH.
      - intros k Hk. unfold addOwn in Hk.
        apply obj_keys_set in Hk as [-> | Hk]; [exact Er | now apply Hkeys].
      - destruct Hin as [<- | Hin]; [congruence | now exists r0]. }
    destruct (obj_get (emoji r) groups); exact Hnext.
Qed.

Lemma groups_case u rs :
  ((exists r, In r rs /\ In (emoji r) objectPrototypeNames) /\
   groupReactions u rs = None) \/
  ((forall r, In r rs -> ~ In (emoji r) objectPrototypeNames) /\
   groupReactions u rs = Some (obj_entries (fold_left (addOwn u) rs []))).
Proof.
  unfold groupReactions.
  destruct (existsb (fun r => inherited (emoji r)) rs) eqn:E.
  - left. apply existsb_exists in E as (r & Hr & Hi). split.
    + exists r. split; [exact Hr | now apply inherited_In].
    + rewrite collectGroups_throws; [reflexivity | intros k [] |].
      now exists r.
  - right.
    assert (Hown : forall r, In r rs -> inherited (emoji r) = false).
    { intros r Hr. destruct (inherited (emoji r)) eqn:Ei; [| reflexivity].
      assert (Hex : existsb (fun r => inherited (emoji r)) rs = true)
        by (apply existsb_exists; now exists r).
      congruence. }
    split.
    + intros r Hr Hin. apply inherited_In in Hin.
      rewrite (Hown r Hr) in Hin. discriminate.
    + now rewrite collectGroups_own.
Qed.

(** [Object.entries] lists every own property once. *)
Lemma insertByIndex_perm {A} (kv : string * A) l :
  Permutation (insertByIndex kv l) (kv :: l).
Proof.
  induction l as [| kv' rest IH]; simpl; [reflexivity |].
  destruct (indexValue (fst kv) <? indexValue (fst kv'))%N; [reflexivity |].
  rewrite IH. apply perm_swap.
Qed.

Lemma sortByIndex_perm {A} (l : list (string * A)) :
  Permutation (sortByIndex l) l.
Proof.
  induction l as [| kv rest IH]; simpl; [reflexivity |].
  rewrite insertByIndex_perm. now apply perm_skip.
Qed.

Lemma filter_split_perm {A} (f : A -> bool) l :
  Permutation (List.filter f l ++ List.filter (fun x => negb (f x)) l) l.
Proof.
  induction l as [| x rest IH]; simpl; [reflexivity |].
  destruct (f x); simpl.
  - now apply perm_skip.
  - rewrite <- Permutation_middle. now apply perm_skip.
Qed.

Lemma obj_entries_perm {A} (o : list (string * A)) :
  Permutation (obj_entries o) o.
Proof.
  unfold obj_entries. rewrite sortByIndex_perm.
  apply (filter_split_perm (fun kv => isArrayIndex (fst kv))).
Qed.

Lemma obj_entries_In {A} (kv : string * A) o :
  In kv (obj_entries o) <-> In kv o.
Proof.
  split; apply Permutation_in;
    [apply obj_entries_perm | symmetry; apply obj_entries_perm].
Qed.

Lemma obj_entries_keys_distinct {A} (o : list (string * A)) :
  List.NoDup (obj_keys o) -> List.NoDup (obj_keys (obj_entries o)).
Proof.
  unfold obj_keys. apply Permutation_NoDup, Permutation_map.
  symmetry. apply obj_entries_perm.
Qed.

Lemma totalCount_perm o o' : Permutation o o' -> totalCount o = totalCount o'.
Proof.
  unfold totalCount. induction 1; simpl; lia.
Qed.

Lemma insertByIndex_ascending {A} (kv : string * A) l :
  ascending (List.map (fun x => indexValue (fst x)) l) ->
  ascending (List.map (fun x => indexValue (fst x)) (insertByIndex kv l)).
Proof.
  induction l as [| kv' rest IH]; simpl; intros H; [split; [constructor | exact I] |].
  destruct H as [Hle Hrest].
  destruct (indexValue (fst kv) <? indexValue (fst kv'))%N eqn:E.
  - apply N.ltb_lt in E. simpl. split; [| split; assumption].
    constructor; [lia |].
    rewrite List.Forall_forall in Hle. apply List.Forall_forall.
    intros x Hx. specialize (Hle x Hx). lia.
  - apply N.ltb_ge in E. simpl. split; [| now apply IH].
    apply List.Forall_forall. intros x Hx.
    apply in_map_iff in Hx as (y & <- & Hy).
    apply (Permutation_in _ (insertByIndex_perm kv rest)) in Hy.
    destruct Hy as [<- | Hy]; [exact E |].
    rewrite List.Forall_forall in Hle. apply Hle.
    apply in_map_iff. now exists y.
Qed.

Lemma sortByIndex_ascending {A} (l : list (string * A)) :
  ascending (List.map (fun x => indexValue (fst x)) (sortByIndex l)).
Proof.
  induction l as [| kv rest IH]; simpl; [exact I |].
  now apply insertByIndex_ascending.
Qed.

Lemma filter_fst_keys {A} (f : string -> bool) (o : list (string * A)) :
  List.map fst (List.filter (fun kv => f (fst kv)) o) =
  List.filter f (List.map fst o).
Proof.
  induction o as [| [k v] rest IH]; simpl; [reflexivity |].
  destruct (f k); simpl; now rewrite IH.
Qed.

(** The own properties are created in the order in which their emoji are
    seen first. *)
Lemma obj_set_keys {A} k (v : A) o :
  obj_keys (obj_set k v o) =
  if existsb (String.eqb k) (obj_keys o) then obj_keys o else obj_keys o ++ [k].
Proof.
  unfold obj_keys. induction o as [| [k0 v0] rest IH]; simpl; [reflexivity |].
  rewrite (String.eqb_sym k k0).
  destruct (String.eqb k0 k) eqn:E; simpl.
  - apply String.eqb_eq in E. now subst k0.
  - rewrite IH. destruct (existsb _ _); reflexivity.
Qed.

Lemma filter_twice {A} (f g : A -> bool) l :
  List.filter f (List.filter g l) = List.filter (fun x => g x && f x) l.
Proof.
  induction l as [| x rest IH]; simpl; [reflexivity |].
  destruct (g x); simpl; [destruct (f x) |]; now rewrite IH.
Qed.

Lemma addOwn_keys_gen u rs : forall groups,
  obj_keys (fold_left (addOwn u) rs groups) =
  obj_keys groups ++
  List.filter (fun e => negb (existsb (String.eqb e) (obj_keys groups)))
              (firstSeen (List.map emoji rs)).
Proof.
  induction rs as [| r rs IH]; intros groups; simpl;
    [now rewrite app_nil_r |].
  rewrite IH. unfold addOwn. rewrite obj_set_keys.
  set (ks := obj_keys groups). set (k := emoji r).
  rewrite filter_twice.
  destruct (existsb (String.eqb k) ks) eqn:E; simpl.
  - f_equal. apply filter_ext_in. intros e _.
    destruct (String.eqb e k) eqn:Ek; [| reflexivity].
    apply String.eqb_eq in Ek. subst e. now rewrite E.
  - rewrite <- app_assoc. simpl. f_equal. f_equal.
    apply filter_ext. intros e. rewrite existsb_app. simpl.
    rewrite orb_false_r, negb_orb. apply andb_comm.
Qed.

Lemma addOwn_keys u rs :
  obj_keys (fold_left (addOwn u) rs []) = firstSeen (List.map emoji rs).
Proof.
  rewrite addOwn_keys_gen. simpl.
  induction (firstSeen (List.map emoji rs)) as [| e l IH]; simpl;
    [reflexivity | now rewrite IH].
Qed.

Lemma firstSeen_In l e : In e (firstSeen l) <-> In e l.
Proof.
  induction l as [| x rest IH]; simpl; [reflexivity |].
  rewrite filter_In, IH, negb_true_iff, String.eqb_neq.
  destruct (string_dec e x) as [-> | Hne]; intuition congruence.
Qed.

(** X12. [groupReactions] throws if and only if the emoji of some reaction
    is a name that objects inherit from [Object.prototype].  When it
    returns, it returns one group per emoji that occurs: the group of an
    emoji counts the reactions with that emoji, lists their sender names in
    the order of the reaction list, and is marked as reacted exactly when
    one of them is the current user's.  The groups whose emoji is an array
    index stand first, by ascending index, and the others follow in the
    order in which their emoji are seen first. *)
Theorem groupReactions_groups (u : string) (rs : list Reaction) :
  (groupReactions u rs = None <->
   exists r, In r rs /\ In (emoji r) objectPrototypeNames) /\
  (forall gs, groupReactions u rs = Some gs ->
     List.NoDup (obj_keys gs) /\
     (forall e, In e (obj_keys gs) <-> In e (List.map emoji rs)) /\
     (forall e g, In (e, g) gs ->
        count g = length (withEmoji e rs) /\
        senders g = List.map senderName (withEmoji e rs) /\
        (hasReacted g = true <->
         exists r, In r rs /\ emoji r = e /\ senderId r = u)) /\
     (exists indexed,
        obj_keys gs =
        indexed ++ List.filter (fun e => negb (isArrayIndex e))
                               (firstSeen (List.map emoji rs)) /\
        Forall (fun e => isArrayIndex e = true) indexed /\
        ascending (List.map indexValue indexed))).
Proof.
  destruct (groups_case u rs) as [[Hex Hnone] | [Hown Hsome]].
  { split; [split; [intros _; exact Hex | intros _; exact Hnone] |].
    intros gs Hgs. congruence. }
  split.
  { split; [congruence |]. intros (r & Hr & Hin). exfalso.
    exact (Hown r Hr Hin). }
  intros gs Hgs. rewrite Hsome in Hgs. injection Hgs as <-.
  set (own := fold_left (addOwn u) rs []).
  pose proof (addOwn_keys_distinct u rs) as Hd. fold own in Hd.
  assert (Hex : forall e, existsb (fun r => String.eqb (emoji r) e) rs = true
                          <-> In e (List.map emoji rs)).
  { intros e. rewrite existsb_exists, in_map_iff. split.
    - intros (r & Hr & He). apply String.eqb_eq in He. now exists r.
    - intros (r & He & Hr). exists r. split; [exact Hr |].
      now apply String.eqb_eq. }
  split; [now apply obj_entries_keys_distinct |]. split; [| split].
  - intros e.
    assert (Hp : Permutation (obj_keys (obj_entries own)) (obj_keys own))
      by apply Permutation_map, obj_entries_perm.
    split.
    + intros Hin. apply (Permutation_in _ Hp) in Hin. unfold own in Hin.
      rewrite addOwn_keys in Hin. now apply firstSeen_In.
    + intros Hin. apply (Permutation_in _ (Permutation_sym Hp)). unfold own.
      rewrite addOwn_keys. now apply firstSeen_In.
  - intros e g Hin. apply (proj1 (obj_entries_In _ _)) in Hin.
    apply (obj_get_entry e g _ Hd) in Hin. unfold own in Hin.
    rewrite addOwn_get in Hin.
    destruct (existsb _ rs); [| discriminate]. injection Hin as <-.
    split; [reflexivity |]. split; [reflexivity |]. simpl.
    rewrite existsb_exists. unfold withEmoji. split.
    + intros (r & Hr & Hu). apply filter_In in Hr as [Hr He].
      exists r. split; [exact Hr |].
      split; now apply String.eqb_eq.
    + intros (r & Hr & He & Hu). exists r. split.
      * apply filter_In. split; [exact Hr | now apply String.eqb_eq].
      * now apply String.eqb_eq.
  - set (idx := sortByIndex (List.filter (fun kv => isArrayIndex (fst kv)) own)).
    exists (List.map fst idx). split; [| split].
    + unfold obj_keys at 1, obj_entries. rewrite List.map_app. fold idx. f_equal.
      rewrite (filter_fst_keys (fun e => negb (isArrayIndex e)) own).
      fold (obj_keys own). unfold own. now rewrite addOwn_keys.
    + apply List.Forall_forall. intros e He.
      apply in_map_iff in He as (kv & <- & Hkv).
      apply (Permutation_in _ (sortByIndex_perm _)) in Hkv.
      now apply filter_In in Hkv as [_ Hkv].
    + rewrite List.map_map. apply sortByIndex_ascending.
Qed.

Lemma totalCount_set k g o :
  totalCount (obj_set k g o) +
  match obj_get k o with Some old => count old | None => 0 end =
  totalCount o + count g.
Proof.
  unfold totalCount. induction o as [| [k0 g0] rest IH]; simpl; [lia |].
  destruct (String.eqb k0 k); simpl; lia.
Qed.

Lemma addOwn_counts u rs : forall groups,
  totalCount (fold_left (addOwn u) rs groups) = totalCount groups + length rs.
Proof.
  induction rs as [| r rs IH]; intros groups; simpl; [lia |].
  rewrite IH. unfold addOwn.
  pose proof (totalCount_set (emoji r)
                (mkReactionGroup
                   (S (count match obj_get (emoji r) groups with
                             | Some g => g
                             | None => mkReactionGroup 0 false []
                             end))
                   (hasReacted match obj_get (emoji r) groups with
                               | Some g => g
                               | None => mkReactionGroup 0 false []
                               end || String.eqb (senderId r) u)
                   (senders match obj_get (emoji r) groups with
                            | Some g => g
                            | None => mkReactionGroup 0 false []
                            end ++ [senderName r])) groups) as Hs.
  destruct (obj_get (emoji r) groups); simpl in *; lia.
Qed.

(** X13. When no emoji of the list is an inherited name, [groupReactions]
    returns, and the counts of its groups add up to the number of
    reactions: no reaction is lost and none is counted twice. *)
Theorem groupReactions_counts_all (u : string) (rs : list Reaction) :
  (forall r, In r rs -> ~ In (emoji r) objectPrototypeNames) ->
  exists gs, groupReactions u rs = Some gs /\ totalCount gs = length rs.
Proof.
  intros Hown. destruct (groups_case u rs) as [[(r & Hr & Hin) _] | [_ Hsome]].
  { exfalso. exact (Hown r Hr Hin). }
  eexists. split; [exact Hsome |].
  rewrite (totalCount_perm _ _ (obj_entries_perm _)).
  now rewrite addOwn_counts.
Qed.

(** X14. Two participants add the same emoji to a message on which neither
    had it: after both REACTION events every message with that id carries
    the two new reactions at the end, in the order of arrival.  When the
    emoji of the message are no inherited names, the view groups them, and
    the group of the emoji counts two more, the two names last. *)
Theorem two_reactions_arrive_in_order (messageId em a nameA b nameB u : string)
  (log : list ChatMessage) :
  a <> b ->
  ~ In em objectPrototypeNames ->
  (forall m, In m log -> msg_id m = messageId ->
             ~ In (a, em) (List.map reactionKey (reactions m)) /\
             ~ In (b, em) (List.map reactionKey (reactions m)) /\
             forall r, In r (reactions m) ->
                       ~ In (emoji r) objectPrototypeNames) ->
  let log' := receiveReaction (addPayload messageId em b nameB)
                (receiveReaction (addPayload messageId em a nameA) log) in
  log' = List.map (fun m => if String.eqb (msg_id m) messageId
                            then with_reactions m
                                   (reactions m ++ [mkReaction em a nameA;
                                                    mkReaction em b nameB])
                            else m) log /\
  (forall m, In m log -> msg_id m = messageId ->
     exists gs g,
       groupReactions u (reactions m ++ [mkReaction em a nameA;
                                         mkReaction em b nameB]) = Some gs /\
       In (em, g) gs /\
       (forall g', In (em, g') gs -> g' = g) /\
       count g = length (withEmoji em (reactions m)) + 2 /\
       senders g = List.map senderName (withEmoji em (reactions m)) ++
                   [nameA; nameB]).
Proof.
  intros Hab Hem Hfresh log'. split.
  - unfold log', receiveReaction. rewrite List.map_map.
    apply map_ext_in. intros m Hm. simpl.
    destruct (String.eqb (msg_id m) messageId) eqn:E; simpl; rewrite E;
      [| reflexivity].
    apply String.eqb_eq in E. destruct (Hfresh m Hm E) as (Ha & Hb & _).
    unfold receiveReactionList. simpl.
    assert (Ea : existsb (same_reaction a em) (reactions m) = false).
    { destruct (existsb _ _) eqn:Ex; [| reflexivity].
      apply has_reaction_key in Ex. contradiction. }
    rewrite Ea. rewrite existsb_app. simpl.
    assert (Eb : existsb (same_reaction b em) (reactions m) = false).
    { destruct (existsb (same_reaction b em) _) eqn:Ex; [| reflexivity].
      apply has_reaction_key in Ex. contradiction. }
    rewrite Eb. unfold same_reaction at 1. simpl.
    assert (Eab : String.eqb a b = false) by now apply String.eqb_neq.
    rewrite Eab. simpl. rewrite <- app_assoc. destruct m; reflexivity.
  - intros m Hm Hid. destruct (Hfresh m Hm Hid) as (_ & _ & Hown).
    set (rs := reactions m ++ [mkReaction em a nameA; mkReaction em b nameB]).
    destruct (groups_case u rs) as [[(r & Hr & Hin) _] | [_ Hsome]].
    { exfalso. apply in_app_or in Hr as [Hr | [<- | [<- | []]]];
        [exact (Hown r Hr Hin) | exact (Hem Hin) | exact (Hem Hin)]. }
    pose proof (addOwn_keys_distinct u rs) as Hd.
    assert (Hget : obj_get em (fold_left (addOwn u) rs []) =
                   Some (groupOf u em rs)).
    { rewrite addOwn_get. unfold rs. rewrite existsb_app. simpl.
      rewrite String.eqb_refl, orb_true_r. reflexivity. }
    exists (obj_entries (fold_left (addOwn u) rs [])), (groupOf u em rs).
    split; [exact Hsome |]. split; [| split].
    + apply (proj2 (obj_entries_In _ _)). now apply (obj_get_entry _ _ _ Hd).
    + intros g' Hg'. apply (proj1 (obj_entries_In _ _)) in Hg'.
      apply (obj_get_entry _ _ _ Hd) in Hg'. congruence.
    + unfold groupOf, rs, withEmoji. simpl.
      rewrite List.filter_app. simpl. rewrite String.eqb_refl.
      rewrite length_app, List.map_app. simpl. split; reflexivity.
Qed.

(** X25. A REACTION whose emoji is a name inherited from [Object.prototype]
    and whose action is not ['remove'], applied to a log that holds the
    addressed message, leaves a message for which [groupReactions] throws,
    whoever the current user is. *)
Theorem inherited_emoji_breaks_the_view (p : ReactionPayload)
  (log : list ChatMessage) (m : ChatMessage) (u : string) :
  In (rp_emoji p) objectPrototypeNames ->
  rp_action p <> "remove" ->
  In m log -> msg_id m = rp_messageId p ->
  exists m', In m' (receiveReaction p log) /\ msg_id m' = msg_id m /\
             groupReactions u (reactions m') = None.
Proof.
  intros Hinh Hact Hm Hid.
  exists (with_reactions m (receiveReactionList p (reactions m))).
  split; [| split; [reflexivity |]].
  - unfold receiveReaction. apply in_map_iff. exists m. split; [| exact Hm].
    rewrite Hid, String.eqb_refl. reflexivity.
  - cbn [reactions with_reactions].
    replace (reactions (with_reactions m (receiveReactionList p (reactions m))))
      with (receiveReactionList p (reactions m)) by (destruct m; reflexivity).
    destruct (groups_case u (receiveReactionList p (reactions m)))
      as [[_ Hnone] | [Hown _]]; [exact Hnone |].
    exfalso. unfold receiveReactionList in Hown.
    apply String.eqb_neq in Hact. rewrite Hact in Hown.
    destruct (existsb (same_reaction (rp_senderId p) (rp_emoji p)) (reactions m))
      eqn:Ex.
    + apply existsb_exists in Ex as (r & Hr & Hs).
      apply (Hown r Hr). unfold same_reaction in Hs.
      apply andb_true_iff in Hs as [_ He]. apply String.eqb_eq in He.
      now rewrite He.
    + apply (Hown (mkReaction (rp_emoji p) (rp_senderId p) (rp_senderName p))).
      * apply in_or_app. right. now left.
      * exact Hinh.
Qed.

(** ** The chat view: typing signals and what is sent *)

Lemma generateAIResponse_text model currentMessage history :
  exists s, s <> EmptyString /\
            generateAIResponse model currentMessage history = Returns s.
Proof.
  unfold generateAIResponse.
  destruct (model _) as [| [[| a rest] |]]; eexists;
    (split; [| reflexivity]); discriminate.
Qed.

Lemma generateConversationStarter_text model :
  exists s, s <> EmptyString /\ generateConversationStarter model = Returns s /\
            (model "Generate a fun, unique, and engaging conversation starter question for a group of friends. Just the question." = Throws ->
             s = starterFallback).
Proof.
  unfold generateConversationStarter.
  destruct (model _) as [| [[| a rest] |]]; eexists;
    (split; [| split; [reflexivity |]]); try discriminate; reflexivity.
Qed.

Lemma handleSend_calls (model : string -> GenerateContent)
  (inputValue : string) (typingPending : bool) (history : list ChatMessage) :
  (trim inputValue = EmptyString ->
   handleSend model inputValue typingPending history = []) /\
  (trim inputValue <> EmptyString ->
   exists reply,
     handleSend model inputValue typingPending history =
       (if typingPending then [OnTyping false] else []) ++
       OnSendMessage (trim inputValue) USER :: reply /\
     (invokesAI (trim inputValue) = false -> reply = []) /\
     (invokesAI (trim inputValue) = true ->
      exists s, s <> EmptyString /\ reply = [OnSendMessage s AI])).
Proof.
  unfold handleSend. split.
  - intros ->. reflexivity.
  - intros Hne. destruct (trim inputValue) as [| a rest] eqn:E;
      [contradiction |].
    destruct (generateAIResponse_text model (String a rest) history)
      as (s & Hs & Hr).
    rewrite Hr. destruct (invokesAI (String a rest)); eexists;
      (split; [reflexivity |]); split; try discriminate; try reflexivity.
    intros _. now exists s.
Qed.

(** X15. What [handleSend] does with the input: blank input makes no call at
    all; otherwise the trimmed text goes out first as a USER message,
    after the typing stop if a timer was pending, followed by at most one
    more message, which is of kind AI, is never empty, and is there only
    if the text invokes the assistant. *)
Theorem handleSend_shape (model : string -> GenerateContent)
  (inputValue : string) (typingPending : bool) (history : list ChatMessage) :
  (trim inputValue = EmptyString ->
   handleSend model inputValue typingPending history = []) /\
  (trim inputValue <> EmptyString ->
   exists reply,
     handleSend model inputValue typingPending history =
       (if typingPending then [OnTyping false] else []) ++
       OnSendMessage (trim inputValue) USER :: reply /\
     (invokesAI (trim inputValue) = false -> reply = []) /\
     (invokesAI (trim inputValue) = true ->
      exists s, s <> EmptyString /\ reply = [OnSendMessage s AI])).
Proof. exact (handleSend_calls model inputValue typingPending history). Qed.

(** X16. The assistant service always answers: [generateAIResponse] and
    [generateConversationStarter] never raise and never return the empty
    text, whatever the model does, and [handleMagicStarter] sends exactly
    one message, of kind AI, the fallback question when the model fails. *)
Theorem assistant_always_answers (model : string -> GenerateContent)
  (currentMessage : string) (history : list ChatMessage) :
  (exists s, s <> EmptyString /\
             generateAIResponse model currentMessage history = Returns s) /\
  (exists s, s <> EmptyString /\ handleMagicStarter model = [OnSendMessage s AI]) /\
  handleMagicStarter (fun _ => Throws) = [OnSendMessage starterFallback AI] /\
  handleMagicStarter (fun _ => Responds None) =
    [OnSendMessage starterFallback AI].
Proof.
  split; [apply generateAIResponse_text |]. split; [| split; reflexivity].
  destruct (generateConversationStarter_text model) as (s & Hs & Hr & _).
  exists s. split; [exact Hs |]. unfold handleMagicStarter. now rewrite Hr.
Qed.

Lemma typingCalls_handleSend model inputValue pending history :
  typingCalls (handleSend model inputValue pending history) =
  match trim inputValue with
  | EmptyString => []
  | _ => if pending then [false] else []
  end.
Proof.
  destruct (handleSend_calls model inputValue pending history) as [Hb Hs].
  destruct (trim inputValue) as [| a rest] eqn:E.
  - now rewrite Hb.
  - destruct Hs as (reply & -> & Hno & Hyes); [discriminate |].
    unfold typingCalls. rewrite flat_map_app. simpl.
    assert (Hr : List.flat_map
                   (fun c => match c with
                             | OnTyping b => [b]
                             | OnSendMessage _ _ => []
                             end) reply = []).
    { destruct (invokesAI (String a rest)).
      - destruct (Hyes eq_refl) as (s & _ & ->). reflexivity.
      - now rewrite Hno. }
    rewrite Hr. destruct pending; reflexivity.
Qed.

Lemma alternating_snoc l : forall b,
  alternating b l ->
  alternating b (l ++ [if Nat.odd (length l) then negb b else b]).
Proof.
  induction l as [| x l IH]; intros b H; simpl.
  - split; [reflexivity | exact I].
  - destruct H as [Hx Hl]. split; [exact Hx |].
    specialize (IH (negb b) Hl).
    rewrite Nat.odd_succ, <- Nat.negb_odd.
    destruct (Nat.odd (length l)); simpl in *;
      rewrite ?negb_involutive in IH; exact IH.
Qed.

Lemma viewStep_invariant st e :
  alternating true (fst st) /\ snd st = Nat.odd (length (fst st)) ->
  alternating true (fst (viewStep st e)) /\
  snd (viewStep st e) = Nat.odd (length (fst (viewStep st e))).
Proof.
  destruct st as [signals pending]. simpl. intros [Ha Hp].
  assert (Hon : pending = false ->
                alternating true (signals ++ [true]) /\
                true = Nat.odd (length (signals ++ [true]))).
  { intros ->. pose proof (alternating_snoc signals true Ha) as Hs.
    rewrite <- Hp in Hs. split; [exact Hs |].
    rewrite length_app. simpl. rewrite Nat.add_1_r, Nat.odd_succ,
      <- Nat.negb_odd, <- Hp. reflexivity. }
  assert (Hoff : pending = true ->
                 alternating true (signals ++ [false]) /\
                 false = Nat.odd (length (signals ++ [false]))).
  { intros ->. pose proof (alternating_snoc signals true Ha) as Hs.
    rewrite <- Hp in Hs. split; [exact Hs |].
    rewrite length_app. simpl. rewrite Nat.add_1_r, Nat.odd_succ,
      <- Nat.negb_odd, <- Hp. reflexivity. }
  destruct e as [| | model inputValue history]; simpl.
  - destruct pending; simpl.
    + rewrite app_nil_r. now split.
    + now apply Hon.
  - destruct pending; simpl.
    + now apply Hoff.
    + rewrite app_nil_r. now split.
  - rewrite typingCalls_handleSend. unfold pendingAfterSend.
    destruct (trim inputValue) as [| a rest].
    + rewrite app_nil_r. now split.
    + destruct pending; [now apply Hoff |]. rewrite app_nil_r. now split.
Qed.

(** X17. The typing signals of the chat view take turns: whatever is typed,
    sent or timed out, the calls of [onTyping] are [true], [false], [true]
    and so on, never the same value twice in a row, and a typing timer is
    pending exactly when the last signal was [true]. *)
Theorem typing_signals_take_turns (evs : list ViewEvent) :
  alternating true (fst (viewRun evs)) /\
  snd (viewRun evs) = Nat.odd (length (fst (viewRun evs))).
Proof.
  unfold viewRun.
  assert (H : forall st,
             alternating true (fst st) /\ snd st = Nat.odd (length (fst st)) ->
             alternating true (fst (fold_left viewStep evs st)) /\
             snd (fold_left viewStep evs st) =
             Nat.odd (length (fst (fold_left viewStep evs st)))).
  { induction evs as [| e rest IH]; intros st Hst; simpl; [exact Hst |].
    apply IH. now apply viewStep_invariant. }
  apply H. simpl. split; [exact I | reflexivity].
Qed.

(** ** The lobby *)

Lemma charAt_roomChars d :
  d < 32 ->
  exists a, charAt roomChars d = String a EmptyString /\
            existsb (Ascii.eqb a) (list_ascii_of_string roomChars) = true /\
            existsb (Ascii.eqb a) (list_ascii_of_string "IO01") = false.
Proof.
  intros H.
  do 32 (destruct d as [| d];
         [eexists; split; [reflexivity | split; reflexivity] |]).
  lia.
Qed.

Lemma existsb_ascii_In a l :
  existsb (Ascii.eqb a) l = true <-> In a l.
Proof.
  rewrite existsb_exists. split.
  - intros (x & Hx & He). apply Ascii.eqb_eq in He. now subst.
  - intros H. exists a. split; [exact H | apply Ascii.eqb_refl].
Qed.

(** X18. A room code has exactly six characters, each one from the alphabet
    of [generateRoomCode], which has no [I], [O], [0] or [1]. *)
Theorem room_code_shape (draw : nat -> nat) :
  (forall k, k < 6 -> draw k < 32) ->
  String.length (generateRoomCode draw) = 6 /\
  (forall a, In a (list_ascii_of_string (generateRoomCode draw)) ->
             In a (list_ascii_of_string roomChars) /\
             ~ In a (list_ascii_of_string "IO01")).
Proof.
  intros H.
  destruct (charAt_roomChars (draw 0) (H 0 ltac:(lia))) as (a0 & E0 & I0 & N0).
  destruct (charAt_roomChars (draw 1) (H 1 ltac:(lia))) as (a1 & E1 & I1 & N1).
  destruct (charAt_roomChars (draw 2) (H 2 ltac:(lia))) as (a2 & E2 & I2 & N2).
  destruct (charAt_roomChars (draw 3) (H 3 ltac:(lia))) as (a3 & E3 & I3 & N3).
  destruct (charAt_roomChars (draw 4) (H 4 ltac:(lia))) as (a4 & E4 & I4 & N4).
  destruct (charAt_roomChars (draw 5) (H 5 ltac:(lia))) as (a5 & E5 & I5 & N5).
  assert (Hcode : generateRoomCode draw =
                  String a0 (String a1 (String a2 (String a3 (String a4
                    (String a5 EmptyString)))))).
  { unfold generateRoomCode. cbn [seq fold_left].
    rewrite E0, E1, E2, E3, E4, E5. reflexivity. }
  rewrite Hcode. split; [reflexivity |].
  intros a Hin. cbn [list_ascii_of_string] in Hin.
  assert (Hok : existsb (Ascii.eqb a) (list_ascii_of_string roomChars) = true /\
                existsb (Ascii.eqb a) (list_ascii_of_string "IO01") = false).
  { destruct Hin as [<- | [<- | [<- | [<- | [<- | [<- | []]]]]]]; now split. }
  destruct Hok as [Hi Hn]. split.
  - now apply existsb_ascii_In.
  - intros Hbad. apply existsb_ascii_In in Hbad. congruence.
Qed.

Lemma probeStep_resolved p e : resolved p = true -> probeStep p e = p.
Proof. intros H. destruct e; simpl; now rewrite H. Qed.

Lemma probe_fold_resolved evs : forall p,
  resolved p = true -> fold_left probeStep evs p = p.
Proof.
  induction evs as [| e rest IH]; intros p H; simpl; [reflexivity |].
  rewrite probeStep_resolved by exact H. now apply IH.
Qed.

(** X19. [checkRoomExists] is settled by the first thing that happens to the
    probing peer: the room exists exactly when that is the error
    ['unavailable-id']; an open, any other error and the timeout all say
    that it does not.  The peer is then destroyed, by one call at most, and
    whatever happens later changes nothing. *)
Theorem room_probe_first_event (alreadyDestroyed : bool) (e : ProbeEvent)
  (rest : list ProbeEvent) :
  let p := checkRoomExists alreadyDestroyed (e :: rest) in
  p = checkRoomExists alreadyDestroyed [e] /\
  outcome p = Some (match e with
                    | ProbeError errType => String.eqb errType "unavailable-id"
                    | _ => false
                    end) /\
  resolved p = true /\ destroyed p = true /\ destroyCalls p <= 1 /\
  outcome (checkRoomExists alreadyDestroyed []) = None.
Proof.
  intros p.
  assert (Hp : p = checkRoomExists alreadyDestroyed [e]).
  { unfold p, checkRoomExists. simpl. apply probe_fold_resolved.
    unfold probeStep, probeDestroyUnlessDestroyed. simpl.
    destruct e as [| errType |]; simpl; try reflexivity.
    - destruct (String.eqb errType "unavailable-id"); try reflexivity.
      destruct alreadyDestroyed; reflexivity.
    - destruct alreadyDestroyed; reflexivity. }
  split; [exact Hp |]. rewrite Hp. unfold checkRoomExists. simpl.
  destruct e as [| errType |]; simpl.
  - repeat split; lia.
  - destruct (String.eqb errType "unavailable-id"); simpl.
    + repeat split; lia.
    + unfold probeDestroyUnlessDestroyed. simpl.
      destruct alreadyDestroyed; simpl; repeat split; lia.
  - unfold probeDestroyUnlessDestroyed. simpl.
    destruct alreadyDestroyed; simpl; repeat split; lia.
Qed.

(** ** What the sidebar offers and shows *)


(** X21. The typing line leaves out the own id and every id that has no
    entry in the directory: such an id in the typing set shows no name, so
    the entry that stays in the typing set of the Host when a link closes is
    not displayed once the directory has dropped the peer. *)
Theorem typing_names_skip_unlisted (order : list string) (w : World)
  (x : string) :
  x = peerId w \/ ~ In x (directoryIds (participants w)) ->
  getTypingNames order w =
  getTypingNames (List.filter (fun i => negb (String.eqb i x)) order) w.
Proof.
  intros Hx. unfold getTypingNames.
  induction order as [| i rest IH]; simpl; [reflexivity |].
  destruct (String.eqb i x) eqn:E; simpl.
  - apply String.eqb_eq in E. subst i. rewrite <- IH.
    destruct Hx as [-> | Hn].
    + now rewrite String.eqb_refl.
    + apply find_none_ids in Hn. rewrite Hn.
      destruct (String.eqb x (peerId w)); reflexivity.
  - now rewrite IH.
Qed.

(** ** A chat message on its way *)

(** X22. A message travels unchanged: the entry a local send appends is the
    CHAT payload it sends on every registered open link; a receiver whose
    log does not have the id appends that very entry, and a Host passes the
    same payload on to every other registered open link. *)
Theorem chat_message_delivery (uuid : string) (now : nat) (txt : string)
  (type : MessageType) (sender receiver : World)
  (scope : list Participant) (conn : Conn) :
  ~ In uuid (logIds receiver) ->
  exists m,
    msg_id m = uuid /\ text m = txt /\ msg_type m = type /\ reactions m = [] /\
    msg_senderId m = peerId sender /\
    messages (sendMessage uuid now txt type sender) = messages sender ++ [m] /\
    (forall c, In c (obj_values (connectionsRef sender)) ->
               conn_open sender c = true ->
               In (Send c (CHAT m))
                  (outbox (sendMessage uuid now txt type sender))) /\
    messages (on_data scope conn (CHAT m) receiver) = messages receiver ++ [m] /\
    (amHost receiver = true ->
     forall c', In c' (obj_values (connectionsRef receiver)) ->
                conn_open receiver c' = true -> peer c' <> peer conn ->
                In (Send c' (CHAT m))
                   (outbox (on_data scope conn (CHAT m) receiver))).
Proof.
  intros Hfresh. eexists. split; [| split; [| split; [| split; [| split;
    [| split; [apply sendMessage_messages |]]]]]]; try reflexivity.
  split; [| split].
  - intros c Hin Hopen. unfold sendMessage, broadcastData, push. simpl.
    apply in_or_app. right. apply sendAll_In. exists c.
    split; [reflexivity |]. split; [exact Hin |].
    unfold conn_open in *. simpl. now rewrite Hopen.
  - assert (Hm : messages (on_data scope conn
                   (CHAT (mkMessage uuid (peerId sender)
                            match type with
                            | AI => "Gemini"
                            | _ => nameOr (if isHost sender then "Host"
                                           else "User") sender
                            end txt now type [])) receiver) =
                 receiveChat (mkMessage uuid (peerId sender)
                            match type with
                            | AI => "Gemini"
                            | _ => nameOr (if isHost sender then "Host"
                                           else "User") sender
                            end txt now type []) (messages receiver)).
    { unfold on_data, relayIfHost. case_all; reflexivity. }
    rewrite Hm. unfold receiveChat. simpl.
    destruct (existsb _ (messages receiver)) eqn:E; [| reflexivity].
    exfalso. apply Hfresh. apply existsb_exists in E as (m & Hin & Hid).
    apply String.eqb_eq in Hid. unfold logIds. apply in_map_iff. now exists m.
  - intros Hhost c' Hin Hopen Hne.
    rewrite on_data_relay by reflexivity.
    destruct (applyLocal_frame
                (CHAT (mkMessage uuid (peerId sender)
                         match type with
                         | AI => "Gemini"
                         | _ => nameOr (if isHost sender then "Host"
                                        else "User") sender
                         end txt now type [])) receiver)
      as (Hh & Hc & Ho & Hb).
    unfold relayIfHost. rewrite Hh, Hhost.
    unfold broadcastData, push. simpl. apply in_or_app. right.
    apply sendAll_In. exists c'. split; [reflexivity |]. split.
    + exact Hin.
    + unfold conn_open in *. simpl. rewrite Hopen. simpl.
      apply negb_true_iff. now apply String.eqb_neq.
Qed.

(** ** A directory that arrives on the Host *)

(** X23. The data listener takes SYNC_PARTICIPANTS from any connection, on
    the Host as anywhere: the payload becomes the directory.  The next
    broadcast of the Host then keeps every entry of that payload whose id is
    the Host's or a registered one, with the name and the role the sender
    wrote, and sends the result on every registered open link. *)
Theorem received_directory_is_rebroadcast (scope : list Participant)
  (conn : Conn) (sent : list Participant) (h : World) :
  amHost h = true -> hostPeerId h <> EmptyString ->
  let h1 := on_data scope conn (SYNC_PARTICIPANTS sent) h in
  let h2 := broadcastParticipantList h1 in
  participants h1 = sent /\
  (forall p, In p sent ->
             pid p = hostPeerId h \/ In (pid p) (obj_keys (connectionsRef h)) ->
             In p (participants h2)) /\
  (forall c, In c (obj_values (connectionsRef h)) -> conn_open h c = true ->
             In (Send c (SYNC_PARTICIPANTS (participants h2))) (outbox h2)).
Proof.
  intros Hhost Hid h1 h2.
  assert (Hme : myId h1 = Some (hostPeerId h)) by exact (amHost_myId h1 Hhost).
  destruct (broadcastParticipantList_reconcile h1 (hostPeerId h) Hme Hid)
    as [_ Ho].
  destruct (broadcastParticipantList_entries h1 (hostPeerId h) Hme Hid)
    as (Hkeep & _).
  split; [reflexivity |]. split.
  - intros p Hin Hact. now apply Hkeep.
  - intros c Hin Hopen. unfold h2. rewrite Ho. apply in_or_app. right.
    apply sendAll_In. exists c. split; [reflexivity |]. now split.
Qed.

(** ** The first moments of a room *)

(** X24. How a session starts.  When the peer of the Host opens, the
    directory of a new room is the Host alone, named ["Host"].  When the peer
    of a guest opens, the guest lists itself as a GUEST named ["User " +
    first four characters], registers its link to the Host and sends
    nothing; when that link opens it lists the Host second, and it still has
    sent nothing. *)
Theorem session_start (scope : list Participant) (i : string) (conn : Conn)
  (w : World) :
  peerInstance w = Some (Some i) -> participants w = [] ->
  let host := onHostPeerOpen i w in
  (participants host = [mkParticipant i "Host" HOST true] /\
   isHost host = true /\ peerId host = i /\ getMyRole host = HOST) /\
  (i <> hostPeerId w -> peer conn = hostPeerId w ->
   listeners w !! connId conn = None ->
   let guest := step (onGuestPeerOpen scope i conn w) (LinkOpen conn) in
   participants guest =
     [mkParticipant i (userName i) GUEST false;
      mkParticipant (hostPeerId w) "Host" HOST true] /\
   isHost guest = false /\ peerId guest = i /\ getMyRole guest = GUEST /\
   obj_get (hostPeerId w) (connectionsRef guest) = Some conn /\
   outbox guest = outbox w).
Proof.
  intros Hpeer Hempty host. split.
  - unfold host, onHostPeerOpen, addParticipant, getMyRole. simpl.
    rewrite Hempty. simpl. repeat split.
  - intros Hne Hconn Hfresh guest.
    assert (Hnh : amHost w = false).
    { unfold amHost, myId. rewrite Hpeer. now apply String.eqb_neq. }
    set (w0 := addParticipant i GUEST
                 (upd_isHost (fun _ => false) (upd_peerId (fun _ => i) w))).
    assert (Hw1 : onGuestPeerOpen scope i conn w =
                  attach conn (Serving scope)
                         (upd_connectionsRef (obj_set (peer conn) conn) w0)).
    { unfold onGuestPeerOpen. fold w0. unfold handleDataConnection.
      change (amHost w0) with (amHost w). now rewrite Hnh. }
    assert (Hg : guest =
                 on_open conn
                   (upd_linkOpen (fun s => s ∪ {[connId conn]})
                      (attach conn (Serving scope)
                         (upd_connectionsRef (obj_set (peer conn) conn) w0)))).
    { unfold guest. rewrite Hw1. unfold step, emit. simpl.
      rewrite Hfresh. simpl. rewrite lookup_insert_eq. reflexivity. }
    rewrite Hg. unfold on_open. simpl.
    rewrite Hconn, String.eqb_refl.
    match goal with
    | |- context [amHost ?x] => change (amHost x) with (amHost w)
    end.
    rewrite Hnh. unfold getMyRole, myEntry. simpl. rewrite Hempty. simpl.
    assert (Hi : String.eqb i (hostPeerId w) = false) by now apply String.eqb_neq.
    assert (Hps : addParticipantList (hostPeerId w) HOST
                    (addParticipantList i GUEST []) =
                  [mkParticipant i (userName i) GUEST false;
                   mkParticipant (hostPeerId w) "Host" HOST true]).
    { unfold addParticipantList, has_pid. simpl. rewrite Hi. reflexivity. }
    rewrite Hps. unfold has_pid. cbn [List.find pid role].
    rewrite String.eqb_refl.
    repeat split. apply obj_get_set_eq.
Qed.

(** ** Worked cases of the further properties *)

Lemma broadcast_directory_matches_registry_witness :
  (forall k, In k (obj_keys (connectionsRef moderatedRoom)) ->
             In k (directoryIds
                     (participants (broadcastParticipantList moderatedRoom)))) /\
  List.NoDup (directoryIds
                (participants (broadcastParticipantList moderatedRoom))).
Proof.
  pose proof (broadcast_directory_matches_registry moderatedRoom roomHost
                eq_refl ltac:(discriminate)) as (Hcover & _ & Hd).
  split; [exact Hcover |]. apply Hd. simpl. distinct_strings.
Defined.

Lemma broadcast_keeps_known_entries_witness :
  In (mkParticipant "ann0-12" "User ann0" MANAGER false)
     (participants (broadcastParticipantList moderatedRoom)).
Proof.
  apply (proj1 (broadcast_keeps_known_entries moderatedRoom roomHost
                  eq_refl ltac:(discriminate))).
  - simpl. find_in_list.
  - right. simpl. find_in_list.
Defined.

Lemma admission_is_broadcast_witness :
  let h' := run hostWorld [Connection [] bobConn; LinkOpen bobConn] in
  In (Send bobConn (SYNC_PARTICIPANTS (participants h'))) (outbox h') /\
  In bobEntry (participants h').
Proof.
  pose proof (admission_is_broadcast [] bobConn hostWorld eq_refl
                ltac:(discriminate) (not_elem_of_empty _) eq_refl)
    as (_ & _ & Hsent & _ & Hnew & _).
  split; [exact Hsent |]. apply Hnew.
  - simpl. intros [H | []]. discriminate H.
  - discriminate.
Defined.

Lemma departure_is_broadcast_witness :
  ~ In "bob0-77" (obj_keys (connectionsRef
                              (step moderatedRoom (LinkClose bobConn)))) /\
  ~ In "bob0-77" (directoryIds (participants
                                  (step moderatedRoom (LinkClose bobConn)))).
Proof.
  assert (Hl : listeners moderatedRoom !! connId bobConn = Some [Serving []])
    by (vm_compute; reflexivity).
  pose proof (departure_is_broadcast [] bobConn moderatedRoom eq_refl
                ltac:(discriminate) ltac:(discriminate) Hl)
    as (Hreg & Hdir & _).
  split; [exact Hreg | exact Hdir].
Defined.

Lemma directory_one_entry_per_id_witness :
  List.NoDup
    (directoryIds
       (participants
          (run moderatedRoom [LinkClose bobConn; UiTrigger "PROMOTE" "cid0-40";
                              LinkData annConn (SYNC_PARTICIPANTS [])]))).
Proof.
  apply directory_one_entry_per_id.
  - simpl. distinct_strings.
  - repeat constructor.
Defined.

Lemma registry_one_link_per_peer_witness :
  registryOk (run moderatedRoom [Connection [] bobAgain; LinkClose annConn]).
Proof.
  apply registry_one_link_per_peer. split.
  - simpl. distinct_strings.
  - intros k c Hin. simpl in Hin.
    destruct Hin as [H | [H | [H | []]]]; injection H as <- <-; reflexivity.
Defined.

Lemma old_link_close_unregisters_new_link_witness :
  let w' := run moderatedRoom [Connection [] bobAgain; LinkOpen bobAgain;
                               LinkClose bobConn] in
  obj_get "bob0-77" (connectionsRef w') = None /\ 4 ∈ linkOpen w'.
Proof.
  assert (Hl : listeners moderatedRoom !! connId bobConn = Some [Serving []])
    by (vm_compute; reflexivity).
  exact (old_link_close_unregisters_new_link [] [] bobConn bobAgain
           moderatedRoom eq_refl ltac:(discriminate) Hl (not_elem_of_empty _)).
Defined.

Lemma promote_and_demote_witness :
  lookupRole (participants (executeAdminAction "PROMOTE" "bob0-77"
                              moderatedRoom)) "bob0-77" = Some MANAGER /\
  participants (executeAdminAction "DEMOTE" "bob0-77"
                  (executeAdminAction "PROMOTE" "bob0-77" moderatedRoom)) =
  participants moderatedRoom.
Proof.
  pose proof (promote_and_demote "bob0-77" moderatedRoom eq_refl)
    as (_ & _ & _ & Hrole & _ & _ & _ & _ & Hback).
  split.
  - apply Hrole. discriminate.
  - apply Hback. intros p Hin Hid. simpl in Hin.
    destruct Hin as [<- | [<- | [<- | [<- | []]]]];
      try discriminate Hid; reflexivity.
Defined.

Lemma ban_lasts_for_the_session_witness :
  let w2 := run (executeAdminAction "BAN" "bob0-77" hostWorld)
                [Connection [] annConn; LinkOpen annConn] in
  "bob0-77" ∈ bannedPeersRef w2 /\
  connectionsRef (handleDataConnection [] bobConn w2) = connectionsRef w2.
Proof.
  assert (Halive :
            peerInstance
              (run (executeAdminAction "BAN" "bob0-77" hostWorld)
                   [Connection [] annConn; LinkOpen annConn]) <> None)
    by (vm_compute; discriminate).
  pose proof (ban_lasts_for_the_session "bob0-77" hostWorld
                [Connection [] annConn; LinkOpen annConn] [] bobConn
                eq_refl eq_refl Halive) as (Hb & Hr & _).
  split; [exact Hb | exact Hr].
Defined.

Lemma torn_down_session_is_silent_witness :
  outbox (step (cleanup moderatedRoom) (UiSend "u1" 1 "anyone?" USER)) =
  outbox (cleanup moderatedRoom).
Proof.
  exact (proj2 (torn_down_session_is_silent moderatedRoom
                  (UiSend "u1" 1 "anyone?" USER) eq_refl)).
Defined.

Lemma two_reactions_arrive_in_order_witness :
  receiveReaction (addPayload "m1" "+1" "bob0-77" "User bob0")
    (receiveReaction (addPayload "m1" "+1" "ann0-12" "User ann0")
                     [helloMessage []]) =
  [helloMessage [mkReaction "+1" "ann0-12" "User ann0"; thumbsOfBob]] /\
  groupReactions "cid0-40"
    [mkReaction "+1" "ann0-12" "User ann0"; thumbsOfBob] =
  Some [("+1", mkReactionGroup 2 false ["User ann0"; "User bob0"])].
Proof.
  assert (Hem : ~ In "+1" objectPrototypeNames)
    by (simpl; intuition discriminate).
  pose proof (two_reactions_arrive_in_order "m1" "+1" "ann0-12" "User ann0"
                "bob0-77" "User bob0" "cid0-40" [helloMessage []]
                ltac:(discriminate) Hem
                ltac:(intros m [<- | []] _; split; [| split];
                      [intros [] | intros [] | intros r []]))
    as [Hlog _].
  split; [rewrite Hlog; reflexivity | vm_compute; reflexivity].
Defined.

(** A list with an array index among its emoji, and one with an inherited
    name. *)
Lemma groupReactions_groups_witness :
  groupReactions "bob0-77"
    [heartOfAnn; mkReaction "7" "cid0-40" "User cid0"; thumbsOfBob;
     mkReaction "<3" "bob0-77" "User bob0"] =
  Some [("7", mkReactionGroup 1 false ["User cid0"]);
        ("<3", mkReactionGroup 2 true ["User ann0"; "User bob0"]);
        ("+1", mkReactionGroup 1 true ["User bob0"])] /\
  groupReactions "bob0-77"
    [heartOfAnn; mkReaction "constructor" "cid0-40" "User cid0"] = None.
Proof.
  split; [vm_compute; reflexivity |].
  apply (proj1 (groupReactions_groups "bob0-77"
                  [heartOfAnn; mkReaction "constructor" "cid0-40" "User cid0"])).
  exists (mkReaction "constructor" "cid0-40" "User cid0").
  split; [right; now left | now left].
Defined.

Lemma groupReactions_counts_all_witness :
  exists gs, groupReactions "bob0-77" [thumbsOfBob; heartOfAnn] = Some gs /\
             totalCount gs = 2.
Proof.
  apply (groupReactions_counts_all "bob0-77" [thumbsOfBob; heartOfAnn]).
  intros r [<- | [<- | []]]; simpl; intuition discriminate.
Defined.

(** Cid sends a reaction named after a method of every object: the message
    of ann can no longer be grouped, on no process that applies it. *)
Lemma inherited_emoji_breaks_the_view_witness :
  exists m',
    In m' (receiveReaction
             (mkReactionPayload "m1" "toString" "cid0-40" "User cid0" "add")
             [helloMessage [thumbsOfBob]]) /\
    msg_id m' = "m1" /\
    groupReactions "bob0-77" (reactions m') = None.
Proof.
  apply (inherited_emoji_breaks_the_view
           (mkReactionPayload "m1" "toString" "cid0-40" "User cid0" "add")
           [helloMessage [thumbsOfBob]] (helloMessage [thumbsOfBob]) "bob0-77").
  - simpl. intuition.
  - discriminate.
  - now left.
  - reflexivity.
Defined.

Lemma room_code_shape_witness :
  String.length (generateRoomCode (fun k => k * 5)) = 6.
Proof.
  assert (H : forall k, k < 6 -> (fun k => k * 5) k < 32)
    by (intros k Hk; cbv beta; lia).
  exact (proj1 (room_code_shape (fun k => k * 5) H)).
Defined.


Lemma typing_names_skip_unlisted_witness :
  getTypingNames ["bob0-77"; "ann0-12"] hostWorld =
  getTypingNames (List.filter (fun i => negb (String.eqb i "bob0-77"))
                              ["bob0-77"; "ann0-12"]) hostWorld.
Proof.
  apply typing_names_skip_unlisted. right. simpl.
  intros [H | []]. discriminate H.
Defined.

Lemma chat_message_delivery_witness :
  exists m,
    msg_id m = "u1" /\ text m = "hi" /\ msg_type m = USER /\ reactions m = [] /\
    msg_senderId m = peerId managerView /\
    messages (sendMessage "u1" 1 "hi" USER managerView) =
      messages managerView ++ [m] /\
    (forall c, In c (obj_values (connectionsRef managerView)) ->
               conn_open managerView c = true ->
               In (Send c (CHAT m))
                  (outbox (sendMessage "u1" 1 "hi" USER managerView))) /\
    messages (on_data [] annConn (CHAT m) moderatedRoom) =
      messages moderatedRoom ++ [m] /\
    (amHost moderatedRoom = true ->
     forall c', In c' (obj_values (connectionsRef moderatedRoom)) ->
                conn_open moderatedRoom c' = true -> peer c' <> peer annConn ->
                In (Send c' (CHAT m))
                   (outbox (on_data [] annConn (CHAT m) moderatedRoom))).
Proof.
  apply (chat_message_delivery "u1" 1 "hi" USER managerView moderatedRoom
           [] annConn).
  intros [].
Defined.

Lemma received_directory_is_rebroadcast_witness :
  participants (on_data [] bobConn (SYNC_PARTICIPANTS forgedDirectory)
                        moderatedRoom) = forgedDirectory /\
  In (mkParticipant "bob0-77" "root" HOST true)
     (participants
        (broadcastParticipantList
           (on_data [] bobConn (SYNC_PARTICIPANTS forgedDirectory)
                    moderatedRoom))).
Proof.
  pose proof (received_directory_is_rebroadcast [] bobConn forgedDirectory
                moderatedRoom eq_refl ltac:(discriminate))
    as (Hset & Hkeep & _).
  split; [exact Hset |]. apply Hkeep.
  - now left.
  - right. simpl. find_in_list.
Defined.

Lemma session_start_witness :
  participants (onHostPeerOpen "bob0-77" newPeer) =
    [mkParticipant "bob0-77" "Host" HOST true] /\
  participants (step (onGuestPeerOpen [] "bob0-77" hostLink newPeer)
                     (LinkOpen hostLink)) =
    [bobEntry; mkParticipant roomHost "Host" HOST true].
Proof.
  pose proof (session_start [] "bob0-77" hostLink newPeer eq_refl eq_refl)
    as ((Hhost & _) & Hguest).
  split; [exact Hhost |].
  apply (Hguest ltac:(discriminate) eq_refl eq_refl).
Defined.

(** In the moderated room a message of ann is put in the log of the Host and
    goes to bob and cid; on a Guest nothing is sent, whatever arrives. *)
Lemma relay_fan_out_witness :
  let d := CHAT (helloMessage []) in
  messages (on_data [] annConn d moderatedRoom) = [helloMessage []] /\
  (exists sent,
     outbox (on_data [] annConn d moderatedRoom) =
     outbox moderatedRoom ++ sent /\
     sent = [Send bobConn d; Send cidConn d]) /\
  (forall d' c x,
     In (Send c x) (outbox (on_data [] annConn d' guestWorld)) ->
     In (Send c x) (outbox guestWorld)).
Proof.
  intros d.
  pose proof (relay_fan_out [] annConn d moderatedRoom eq_refl)
    as (Hchat & _ & _ & Hsend & _ & _).
  split; [| split].
  - destruct (Hchat (helloMessage []) eq_refl) as (_ & Hnew & _).
    apply Hnew. intros [].
  - destruct (Hsend eq_refl) as (sent & Hout & Hsent & _).
    exists sent. split; [exact Hout |]. rewrite Hsent. vm_compute. reflexivity.
  - exact (proj2 (proj2 (proj2 (proj2 (proj2
             (relay_fan_out [] annConn d guestWorld eq_refl))))) eq_refl).
Defined.

(** C4, as stated, fails: the second link of the banned bob is open, the
    Host receives a message of ann on another connection, applies it, and
    sends nothing on the link of bob. *)
Lemma rejected_link_gets_no_relay :
  let d := CHAT (helloMessage []) in
  let w' := step bannedKnocks (LinkData annConn d) in
  amHost bannedKnocks = true /\
  conn_open bannedKnocks bobAgain = true /\
  bobAgain <> annConn /\
  messages w' = [helloMessage []] /\
  ~ In (Send bobAgain d) (outbox w').
Proof.
  split; [vm_compute; reflexivity |]. split; [vm_compute; reflexivity |].
  split; [discriminate |]. split; [vm_compute; reflexivity |].
  vm_compute. intuition discriminate.
Qed.
